(** * FreeAiImageUpscaler8k: tiled inference, model lifecycle and weight download

    A shallow embedding of
      - [utils/error_handler.py]   (exception classes, [exception_handler]),
      - [utils/image_processor.py] ([preprocess_image], [postprocess_image],
        [process_image_with_tiling]),
      - [utils/downloader.py]      ([ModelDownloader.download_model]),
      - [models/model_manager.py]  ([load_model], [unload_model], the two
        architecture loaders),
    followed by the properties the specification states about them.

    Conventions.  Python integers are [Z].  Python floats (binary64) and
    numpy/torch [float32] values are [spec_float], computed with the IEEE 754
    operations of [SpecFloat] at precision 53/1024 and 24/128.  A numpy array
    of rank 3 is a shape together with an indexing function.  A Python call
    that may raise returns a sum [exn + A]; effects that survive an exception
    (callback invocations, log lines, sleeps, files) are threaded explicitly. *)

From Stdlib Require Import ZArith List Bool Lia String Ascii QArith Qpower Lqa.
From Stdlib Require Import Floats.SpecFloat.
From stdpp Require Import base gmap strings.
Import ListNotations.

Set Warnings "-register-all".
Local Open Scope Z_scope.

(* ===================================================================== *)
(** * Exceptions: utils/error_handler.py *)
(* ===================================================================== *)

(** The classes derived from [UpscalerError] (itself included). *)
Inductive upscaler_class :=
| UpscalerErrorC
| ModelErrorC
| ImageProcessingErrorC
| ConfigErrorC
| NetworkErrorC.

(** The exceptions of [requests.exceptions] the downloader distinguishes;
    all of them derive from [RequestException]. *)
Inductive requests_class :=
| HTTPErrorC
| ConnectionErrorC
| TimeoutC
| RequestExceptionC.

(** A raised exception.  [original_error] is the second constructor argument
    of [UpscalerError.__init__]. *)
Inductive exn :=
| Builtin (name : string)
| Requests (c : requests_class)
| Upscaler (c : upscaler_class) (message : string) (original_error : option exn).

Definition is_upscaler_error (e : exn) : bool :=
  match e with Upscaler _ _ _ => true | _ => false end.

Definition ImageProcessingError (msg : string) (e : exn) : exn :=
  Upscaler ImageProcessingErrorC msg (Some e).
Definition ModelError (msg : string) (e : option exn) : exn :=
  Upscaler ModelErrorC msg e.
Definition NetworkError (msg : string) (e : exn) : exn :=
  Upscaler NetworkErrorC msg (Some e).

(** [exception_handler]: an [UpscalerError] is logged and re-raised as it is,
    any other exception is wrapped into a plain [UpscalerError]. *)
Definition exception_handler {A} (func_name : string) (r : exn + A) : exn + A :=
  match r with
  | inr a => inr a
  | inl (Upscaler c m o) => inl (Upscaler c m o)
  | inl e => inl (Upscaler UpscalerErrorC ("Unexpected error in " ++ func_name) (Some e))
  end.

(* ===================================================================== *)
(** * Python numbers *)
(* ===================================================================== *)

Module PyFloat.

(** binary64 *)
Definition prec : Z := 53.
Definition emax : Z := 1024.

(** An integer as an exact (not normalised) operand of a division. *)
Definition exact (z : Z) : spec_float :=
  match z with
  | Z0 => S754_zero false
  | Zpos p => S754_finite false p 0
  | Zneg p => S754_finite true p 0
  end.

(** [float(z)]: the integer rounded to binary64. *)
Definition of_int (z : Z) : spec_float := binary_normalize prec emax z 0 false.

(** [a / b] on two [int]s: the correctly rounded quotient of the exact
    integers; [None] is [ZeroDivisionError]. *)
Definition int_truediv (a b : Z) : option spec_float :=
  if b =? 0 then None else Some (SFdiv prec emax (exact a) (exact b)).

(** [x * n] for a float [x] and an [int] [n]. *)
Definition mul_int (x : spec_float) (n : Z) : spec_float :=
  SFmul prec emax x (of_int n).

(** The integer part of a finite float, towards zero. *)
Definition trunc (f : spec_float) : option Z :=
  match f with
  | S754_zero _ => Some 0
  | S754_finite s m e =>
      let a := if 0 <=? e then Zpos m * 2 ^ e else Zpos m / 2 ^ (- e) in
      Some (if s then - a else a)
  | S754_infinity _ | S754_nan => None
  end.

(** [int(x)]: [None] is the [OverflowError]/[ValueError] raised on an
    infinity or a NaN. *)
Definition int_of_float (f : spec_float) : option Z := trunc f.

(** [int(done / total * 100)], the percentage both the tiling loop and the
    downloader report. *)
Definition percent (done total : Z) : option Z :=
  match int_truediv done total with
  | None => None
  | Some q => int_of_float (mul_int q 100)
  end.

End PyFloat.

(** numpy's [float32] and [uint8]. *)
Module Np.

Definition prec : Z := 24.
Definition emax : Z := 128.

Definition f32_of_int (z : Z) : spec_float := binary_normalize prec emax z 0 false.
Definition f32_255 : spec_float := f32_of_int 255.
Definition f32_0 : spec_float := S754_zero false.
Definition f32_1 : spec_float := f32_of_int 1.

(** [np.clip(x, 0, 1)] on one element; a NaN stays a NaN. *)
Definition clip01 (x : spec_float) : spec_float :=
  match SFcompare x f32_0 with
  | None => S754_nan
  | Some Lt => f32_0
  | Some _ =>
      match SFcompare x f32_1 with
      | Some Gt => f32_1
      | _ => x
      end
  end.

(** [.astype(np.uint8)] on one float: the C conversion truncates; outside
    [0, 256) the C standard leaves the result open, and the wrap-around of
    the usual platforms is taken here (a NaN gives 0). *)
Definition uint8_of_f32 (x : spec_float) : Z :=
  match PyFloat.trunc x with
  | Some z => z mod 256
  | None => 0
  end.

End Np.

(* ===================================================================== *)
(** * Rank-3 arrays *)
(* ===================================================================== *)

(** A numpy array (or torch tensor) of rank 3: its shape and its elements.
    [item a i j k] is [a[i, j, k]]; it is only meaningful inside the shape. *)
Record ndarray (A : Type) : Type := Ndarray {
  dim0 : Z;
  dim1 : Z;
  dim2 : Z;
  item : Z -> Z -> Z -> A
}.
Arguments Ndarray {A} _ _ _ _.
Arguments dim0 {A} _.
Arguments dim1 {A} _.
Arguments dim2 {A} _.
Arguments item {A} _ _ _ _.

Definition shape {A} (a : ndarray A) : Z * Z * Z := (dim0 a, dim1 a, dim2 a).

Definition in_shape {A} (a : ndarray A) (i j k : Z) : Prop :=
  0 <= i < dim0 a /\ 0 <= j < dim1 a /\ 0 <= k < dim2 a.

(** Two arrays are the same array: same shape, same element at every index
    of the shape. *)
Definition array_eq {A} (a b : ndarray A) : Prop :=
  shape a = shape b /\
  forall i j k, in_shape a i j k -> item a i j k = item b i j k.

Definition amap {A B} (f : A -> B) (a : ndarray A) : ndarray B :=
  Ndarray (dim0 a) (dim1 a) (dim2 a) (fun i j k => f (item a i j k)).

(** [np.zeros((d0, d1, d2), dtype=np.uint8)]; a negative dimension raises. *)
Definition np_zeros (d0 d1 d2 : Z) : exn + ndarray Z :=
  if (d0 <? 0) || (d1 <? 0) || (d2 <? 0)
  then inl (Builtin "ValueError")
  else inr (Ndarray d0 d1 d2 (fun _ _ _ => 0)).

(** [t.permute(2, 0, 1)] and [t.permute(1, 2, 0)]. *)
Definition permute_2_0_1 {A} (a : ndarray A) : ndarray A :=
  Ndarray (dim2 a) (dim0 a) (dim1 a) (fun i0 i1 i2 => item a i1 i2 i0).
Definition permute_1_2_0 {A} (a : ndarray A) : ndarray A :=
  Ndarray (dim1 a) (dim2 a) (dim0 a) (fun i0 i1 i2 => item a i2 i0 i1).

(** Python's reading of one bound of a slice [start:stop] over a dimension
    of length [n]: a negative bound counts from the end, and every bound is
    clamped into [0, n]. *)
Definition slice_bound (i n : Z) : Z :=
  if i <? 0 then Z.max (i + n) 0 else Z.min i n.

(** First index and length selected by [start:stop] over length [n]. *)
Definition slice_start (start n : Z) : Z := slice_bound start n.
Definition slice_len (start stop n : Z) : Z :=
  Z.max 0 (slice_bound stop n - slice_bound start n).

(** [a[y1:y2, x1:x2]] (the last axis is kept whole). *)
Definition getslice {A} (a : ndarray A) (y1 y2 x1 x2 : Z) : ndarray A :=
  Ndarray (slice_len y1 y2 (dim0 a)) (slice_len x1 x2 (dim1 a)) (dim2 a)
          (fun i j k => item a (slice_start y1 (dim0 a) + i) (slice_start x1 (dim1 a) + j) k).

(** Whether index [i] of a dimension of length [n] is selected by
    [start:stop]. *)
Definition in_slice (start stop n i : Z) : bool :=
  (slice_start start n <=? i) && (i <? slice_start start n + slice_len start stop n).

(** numpy broadcasting of one axis of a value onto one axis of a target. *)
Definition broadcasts (vdim tdim : Z) : bool := (vdim =? tdim) || (vdim =? 1).
Definition bindex (vdim i : Z) : Z := if vdim =? 1 then 0 else i.

(** [a[y1:y2, x1:x2] = v]: the value is broadcast to the shape of the
    selected region; a shape that does not broadcast raises [ValueError] and
    leaves [a] untouched. *)
Definition setslice (a : ndarray Z) (y1 y2 x1 x2 : Z) (v : ndarray Z) : exn + ndarray Z :=
  let sy := slice_start y1 (dim0 a) in
  let ly := slice_len y1 y2 (dim0 a) in
  let sx := slice_start x1 (dim1 a) in
  let lx := slice_len x1 x2 (dim1 a) in
  if broadcasts (dim0 v) ly && broadcasts (dim1 v) lx && broadcasts (dim2 v) (dim2 a)
  then inr (Ndarray (dim0 a) (dim1 a) (dim2 a)
              (fun i j k =>
                 if in_slice y1 y2 (dim0 a) i && in_slice x1 x2 (dim1 a) j
                 then item v (bindex (dim0 v) (i - sy)) (bindex (dim1 v) (j - sx))
                             (bindex (dim2 v) k)
                 else item a i j k))
  else inl (Builtin "ValueError").

(** [range(start, stop, step)] for a non-zero step. *)
Definition py_range (start stop step : Z) : list Z :=
  let n :=
    if 0 <? step then (stop - start + step - 1) / step
    else (start - stop - step - 1) / (- step) in
  map (fun i => start + Z.of_nat i * step) (seq 0 (Z.to_nat n)).

(** A [for] loop whose body may raise: the first exception ends the loop. *)
Fixpoint for_loop {I S E} (body : I -> S -> E + S) (l : list I) (s : S) : E + S :=
  match l with
  | [] => inr s
  | i :: l' =>
      match body i s with
      | inl e => inl e
      | inr s' => for_loop body l' s'
      end
  end.

(* ===================================================================== *)
(** * utils/image_processor.py *)
(* ===================================================================== *)

(** The fields of [ImageProcessor] the tiling pipeline reads. *)
Record ImageProcessor := {
  tile_size : Z;
  tile_padding : Z
}.

(** What the tiling loop makes observable besides its return value: the
    debug line that opens the work on a tile, the error line of a tile whose
    processing raised, and the calls of the progress callback. *)
Inductive event :=
| TileStarted (x y : Z)
| TileError (x y : Z) (e : exn)
| Callback (progress : Z).

Definition callback_values (evs : list event) : list Z :=
  flat_map (fun ev => match ev with Callback p => [p] | _ => [] end) evs.

Definition tiles_started (evs : list event) : list (Z * Z) :=
  flat_map (fun ev => match ev with TileStarted x y => [(x, y)] | _ => [] end) evs.

(** A tensor in the model's layout: channels, rows, columns (the batch axis
    of length 1 added by [unsqueeze(0)] and removed by [squeeze(0)] is left
    implicit). *)
Definition tensor := ndarray spec_float.

(** [preprocess_image]: [img.astype(np.float32) / 255.0], then
    [permute(2, 0, 1)]. *)
Definition preprocess_image (img : ndarray Z) : tensor :=
  permute_2_0_1
    (amap (fun v => SFdiv Np.prec Np.emax (Np.f32_of_int v) Np.f32_255) img).

(** [postprocess_image]: [permute(1, 2, 0)], [np.clip(img, 0, 1)],
    [(img * 255.0).astype(np.uint8)]. *)
Definition postprocess_image (t : tensor) : ndarray Z :=
  amap (fun x => Np.uint8_of_f32 (SFmul Np.prec Np.emax (Np.clip01 x) Np.f32_255))
       (permute_1_2_0 t).

(** The state of the two nested loops. *)
Record tiling_state := {
  output : ndarray Z;
  tiles_processed : Z;
  events : list event
}.

Section Tiling.

Variable self : ImageProcessor.

(** The upscaling model: a forward pass that returns a tensor or raises. *)
Variable model : tensor -> exn + tensor.

Variable img : ndarray Z.
Variable scale : Z.

(** [callback] is given ([true]) or [None] ([false]). *)
Variable callback : bool.

Let h := dim0 img.
Let w := dim1 img.
Let c := dim2 img.
Let output_h := h * scale.
Let output_w := w * scale.

(** Padded source rectangle of the tile at [(x, y)]. *)
Definition tile_x1 (x : Z) : Z := Z.max 0 (x - tile_padding self).
Definition tile_y1 (y : Z) : Z := Z.max 0 (y - tile_padding self).
Definition tile_x2 (x : Z) : Z := Z.min w (x + tile_size self + tile_padding self).
Definition tile_y2 (y : Z) : Z := Z.min h (y + tile_size self + tile_padding self).

(** The non-padded region inside the input tile. *)
Definition non_pad_x1 (x : Z) : Z := Z.max 0 (x - tile_x1 x).
Definition non_pad_y1 (y : Z) : Z := Z.max 0 (y - tile_y1 y).
Definition non_pad_x2 (x : Z) : Z :=
  Z.min (tile_x2 x - tile_x1 x) (non_pad_x1 x + tile_size self).
Definition non_pad_y2 (y : Z) : Z :=
  Z.min (tile_y2 y - tile_y1 y) (non_pad_y1 y + tile_size self).

(** The corresponding region of the output tile. *)
Definition out_tile_x1 (x : Z) : Z := non_pad_x1 x * scale.
Definition out_tile_y1 (y : Z) : Z := non_pad_y1 y * scale.
Definition out_tile_x2 (x : Z) : Z := non_pad_x2 x * scale.
Definition out_tile_y2 (y : Z) : Z := non_pad_y2 y * scale.

(** The position in the final output image. *)
Definition out_x1 (x : Z) : Z := x * scale.
Definition out_y1 (y : Z) : Z := y * scale.
Definition out_x2 (x : Z) : Z := Z.min output_w (out_x1 x + tile_size self * scale).
Definition out_y2 (y : Z) : Z := Z.min output_h (out_y1 y + tile_size self * scale).

(** The part of the model's output that is placed: the body of the inner
    [try] up to [tile_part]. *)
Definition tile_part (x y : Z) : exn + ndarray Z :=
  let tile := getslice img (tile_y1 y) (tile_y2 y) (tile_x1 x) (tile_x2 x) in
  let tile_tensor := preprocess_image tile in
  match model tile_tensor with
  | inl e => inl e
  | inr output_tensor =>
      let output_tile := postprocess_image output_tensor in
      inr (getslice output_tile (out_tile_y1 y) (out_tile_y2 y)
                                (out_tile_x1 x) (out_tile_x2 x))
  end.

(** The whole body of the inner [try]: it returns the canvas with the tile
    placed, or the exception raised on the way. *)
Definition place_tile (x y : Z) (out : ndarray Z) : exn + ndarray Z :=
  match tile_part x y with
  | inl e => inl e
  | inr part => setslice out (out_y1 y) (out_y2 y) (out_x1 x) (out_x2 x) part
  end.

(** One iteration of the inner loop.  An exception leaves the iteration
    together with the events emitted so far. *)
Definition tile_iteration (total_tiles : Z) (y x : Z) (st : tiling_state)
  : exn * list event + tiling_state :=
  let evs := events st ++ [TileStarted x y] in
  let placed :=
    match place_tile x y (output st) with
    | inr out' => inr (out', evs)
    | inl e =>
        let evs' := evs ++ [TileError x y e] in
        if tiles_processed st =? 0 then inl (e, evs') else inr (output st, evs')
    end in
  match placed with
  | inl r => inl r
  | inr (out', evs') =>
      let tiles_processed' := tiles_processed st + 1 in
      if callback then
        match PyFloat.percent tiles_processed' total_tiles with
        | None => inl (Builtin "ArithmeticError", evs')
        | Some progress =>
            inr {| output := out'; tiles_processed := tiles_processed';
                   events := evs' ++ [Callback progress] |}
        end
      else
        inr {| output := out'; tiles_processed := tiles_processed'; events := evs' |}
  end.

(** The body of the outer [try]. *)
Definition tiling_body : exn * list event + tiling_state :=
  match np_zeros output_h output_w c with
  | inl e => inl (e, [])
  | inr zeros =>
      if tile_size self =? 0 then inl (Builtin "ZeroDivisionError", []) else
      let num_tiles_x := (w + tile_size self - 1) / tile_size self in
      let num_tiles_y := (h + tile_size self - 1) / tile_size self in
      let total_tiles := num_tiles_x * num_tiles_y in
      for_loop
        (fun y => for_loop (tile_iteration total_tiles y) (py_range 0 w (tile_size self)))
        (py_range 0 h (tile_size self))
        {| output := zeros; tiles_processed := 0; events := [] |}
  end.

(** [process_image_with_tiling]: the outer [except] wraps whatever was
    raised into an [ImageProcessingError], which [exception_handler] lets
    through.  The events are returned in both cases. *)
Definition process_image_with_tiling : (exn + ndarray Z) * list event :=
  match tiling_body with
  | inl (e, evs) =>
      (exception_handler "process_image_with_tiling"
         (inl (ImageProcessingError "Error processing image with tiling" e)), evs)
  | inr st => (inr (output st), events st)
  end.

End Tiling.

(* ===================================================================== *)
(** * A state and exception monad for the stateful code *)
(* ===================================================================== *)

(** A computation over a state [S] that returns an [A] or raises; the state
    reached is kept in both cases. *)
Definition M (S A : Type) : Type := S -> (exn + A) * S.

Definition ret {S A} (a : A) : M S A := fun s => (inr a, s).

Definition raise {S A} (e : exn) : M S A := fun s => (inl e, s).

Definition bind {S A B} (m : M S A) (k : A -> M S B) : M S B :=
  fun s =>
    match m s with
    | (inr a, s') => k a s'
    | (inl e, s') => (inl e, s')
    end.

(** [try: m  except Exception as e: handler e] *)
Definition try_except {S A} (m : M S A) (handler : exn -> M S A) : M S A :=
  fun s =>
    match m s with
    | (inr a, s') => (inr a, s')
    | (inl e, s') => handler e s'
    end.

Definition gets_of {S A} (f : S -> A) : M S A := fun s => (inr (f s), s).

Definition modify {S} (f : S -> S) : M S unit := fun s => (inr tt, f s).

(** The result of a pure step that may raise. *)
Definition lift_result {S A} (r : exn + A) : M S A := fun s => (r, s).

(** A function under the [@exception_handler] decorator. *)
Definition decorated {S A} (func_name : string) (m : M S A) : M S A :=
  fun s => let (r, s') := m s in (exception_handler func_name r, s').

Declare Scope monad_scope.
Delimit Scope monad_scope with monad.
Notation "x <- m ;; k" := (bind m (fun x => k))
  (at level 100, m at next level, right associativity) : monad_scope.
Notation "m ;; k" := (bind m (fun _ => k))
  (at level 100, right associativity) : monad_scope.

(* ===================================================================== *)
(** * The outside world of the downloader and of the model manager *)
(* ===================================================================== *)

(** An HTTP response as [download_model] reads it: the status, the
    [content-length] header when there is one, and the chunks
    [iter_content] yields, after which the stream ends or raises. *)
Record response := {
  status_code : Z;
  content_length : option Z;
  chunks : list (list Byte.byte);
  stream_error : option requests_class
}.

(** What [session.get] does: raise (connection error, timeout, ...) or
    return a response. *)
Inductive get_outcome :=
| GetRaises (c : requests_class)
| GetReturns (r : response).

(** A parameter mapping of a network (a torch [state_dict]). *)
Abbreviation state_dict := (gmap string (list Z)).

(** A value of the configuration file. *)
Inductive json :=
| JNum (z : Z)
| JStr (s : string).

(** The network architectures the manager builds.  The scale is the value
    of the configuration as it is: the constructors take it unchecked. *)
Inductive architecture :=
| RRDBNet (num_block : Z) (scale : json)
| SwinIR (upscale : json).

(** A model placed on the device. *)
Record torch_model := {
  arch : architecture;
  params : state_dict
}.

(** What happens to device memory, in order: the manager drops the model it
    holds ([del] and [empty_cache]), a weight file is deserialized onto the
    device, a network is built, a parameter set is loaded into it, it is
    moved to the device. *)
Inductive torch_event :=
| Released (name : option string)
| Deserialized (name : string) (path : string)
| Built (name : string) (a : architecture)
| StateDictLoaded (name : string) (key : string)
| MovedToDevice (name : string).

(** Files, the network calls made so far, the sleeps, the calls of the
    download callback, and the device events. *)
Record world := {
  fs : gmap string (list Byte.byte);
  gets : nat;
  sleeps : list Z;
  reported : list (string * Z);
  torch_events : list torch_event
}.

Definition path_exists (path : string) (w : world) : bool :=
  bool_decide (is_Some (fs w !! path)).

Definition set_fs (f : gmap string (list Byte.byte) -> gmap string (list Byte.byte))
  (w : world) : world :=
  {| fs := f (fs w); gets := gets w; sleeps := sleeps w; reported := reported w;
     torch_events := torch_events w |}.

Definition time_sleep (seconds : Z) : M world unit :=
  modify (fun w =>
    {| fs := fs w; gets := gets w; sleeps := sleeps w ++ [seconds];
       reported := reported w; torch_events := torch_events w |}).

Definition report (name : string) (progress : Z) : M world unit :=
  modify (fun w =>
    {| fs := fs w; gets := gets w; sleeps := sleeps w;
       reported := reported w ++ [(name, progress)]; torch_events := torch_events w |}).

Definition count_get (w : world) : world :=
  {| fs := fs w; gets := S (gets w); sleeps := sleeps w; reported := reported w;
     torch_events := torch_events w |}.

Definition emit (ev : torch_event) : M world unit :=
  modify (fun w =>
    {| fs := fs w; gets := gets w; sleeps := sleeps w; reported := reported w;
       torch_events := torch_events w ++ [ev] |}).

(** [open(path, 'wb')], [f.write(data)] and [os.remove(path)]. *)
Definition open_wb (path : string) : M world unit :=
  modify (set_fs (fun f => <[path := []]> f)).
Definition file_write (path : string) (data : list Byte.byte) : M world unit :=
  modify (set_fs (fun f => <[path := default [] (f !! path) ++ data]> f)).
Definition os_remove (path : string) : M world unit :=
  modify (set_fs (fun f => delete path f)).

(** ** Paths: the functions of [os.path] the code calls (POSIX flavour) *)

(** The part of [p] after its last slash, when it has one. *)
Fixpoint after_last_sep (p : string) : option string :=
  match p with
  | EmptyString => None
  | String c rest =>
      match after_last_sep rest with
      | Some t => Some t
      | None => if Ascii.eqb c "/" then Some rest else None
      end
  end.

(** [os.path.basename] *)
Definition basename (p : string) : string := default p (after_last_sep p).

(** [p[:i]] for [i = p.rfind('/') + 1]: [p] up to its last slash. *)
Definition head_of (p : string) : string :=
  substring 0 (String.length p - String.length (basename p)) p.

Fixpoint all_chars (c : ascii) (s : string) : bool :=
  match s with
  | EmptyString => true
  | String a rest => Ascii.eqb a c && all_chars c rest
  end.

(** [s.rstrip('/')] *)
Fixpoint rstrip_sep (s : string) : string :=
  match s with
  | EmptyString => EmptyString
  | String c rest =>
      match rstrip_sep rest with
      | EmptyString => if Ascii.eqb c "/" then EmptyString else String c EmptyString
      | r => String c r
      end
  end.

(** [os.path.dirname] *)
Definition dirname (p : string) : string :=
  let head := head_of p in
  if negb (String.eqb head "") && negb (all_chars "/" head)
  then rstrip_sep head else head.

(** A name cut at its last dot: what precedes the dot, and the rest from
    the dot on. *)
Fixpoint split_last_dot (s : string) : option (string * string) :=
  match s with
  | EmptyString => None
  | String c rest =>
      match split_last_dot rest with
      | Some (root, ext) => Some (String c root, ext)
      | None => if Ascii.eqb c "." then Some (EmptyString, s) else None
      end
  end.

(** [os.path.splitext]: the extension starts at the last dot of the last
    component, unless only dots precede it there. *)
Definition splitext (p : string) : string * string :=
  match split_last_dot (basename p) with
  | Some (root, ext) =>
      if all_chars "." root then (p, EmptyString)
      else ((head_of p ++ root)%string, ext)
  | None => (p, EmptyString)
  end.

Definition ends_with_sep (s : string) : bool :=
  negb (String.eqb s (rstrip_sep s)).

(** [os.path.join(a, b)] *)
Definition os_path_join (a b : string) : string :=
  if String.prefix "/" b then b
  else if String.eqb a "" || ends_with_sep a then (a ++ b)%string
  else (a ++ "/" ++ b)%string.

(** [os.makedirs(path, exist_ok=True)] in a world where a directory can
    always be created: only the empty path, which names none, fails. *)
Definition os_makedirs (path : string) : M world unit :=
  if String.eqb path "" then raise (Builtin "FileNotFoundError") else ret tt.

(** [os.path.join(models_dir, f"{model_name}.pth")] *)
Definition model_file (models_dir model_name : string) : string :=
  os_path_join models_dir (model_name ++ ".pth")%string.

(** [response.raise_for_status()]: a 4xx or 5xx status raises [HTTPError]. *)
Definition raise_for_status (r : response) : exn + response :=
  if (400 <=? status_code r) && (status_code r <? 600)
  then inl (Requests HTTPErrorC) else inr r.

(* ===================================================================== *)
(** * utils/downloader.py *)
(* ===================================================================== *)

Section Downloader.

Local Open Scope monad_scope.

(** The remote side: what the [n]-th call of [session.get] (counted over
    the whole run) returns for a URL. *)
Variable net : string -> nat -> get_outcome.

Variable models_dir : string.

(** [session.get(model_url, ...)] *)
Definition session_get (model_url : string) : M world response :=
  fun w =>
    match net model_url (gets w) with
    | GetRaises c => (inl (Requests c), count_get w)
    | GetReturns r => (inr r, count_get w)
    end.

(** One attempt: the body of the inner [try]. *)
Definition one_attempt (model_url : string) : M world (option response) :=
  response <- session_get model_url ;;
  response <- lift_result (raise_for_status response) ;;
  ret (Some response).

(** The retry loop, [for attempt in range(retries)]: leave with the
    response at the first success; after a failure sleep and double the
    delay, unless this was the last attempt, whose exception is re-raised.
    [None] is the loop running out without a response. *)
Fixpoint retry_loop (attempts : list Z) (retries retry_delay : Z)
  (model_url : string) : M world (option response) :=
  match attempts with
  | [] => ret None
  | attempt :: rest =>
      try_except
        (one_attempt model_url)
        (fun e =>
           if attempt <? retries - 1
           then time_sleep retry_delay ;;
                retry_loop rest retries (retry_delay * 2) model_url
           else raise e)
  end.

(** The loop over [response.iter_content(block_size)]: write the chunk,
    count it, report the percentage when a callback is given and the total
    size is known. *)
Fixpoint write_chunks (model_name model_path : string) (callback : bool)
  (total_size downloaded : Z) (cs : list (list Byte.byte)) : M world Z :=
  match cs with
  | [] => ret downloaded
  | data :: cs' =>
      file_write model_path data ;;
      let downloaded := downloaded + Z.of_nat (length data) in
      (if callback && (0 <? total_size) then
         match PyFloat.percent downloaded total_size with
         | None => raise (Builtin "OverflowError")
         | Some progress => report model_name progress
         end
       else ret tt) ;;
      write_chunks model_name model_path callback total_size downloaded cs'
  end.

(** The body of the [try] of [download_model]. *)
Definition download_body (model_name model_url model_path : string) (callback : bool)
  : M world string :=
  let retries := 3 in
  let retry_delay := 2 in
  got <- retry_loop (py_range 0 retries 1) retries retry_delay model_url ;;
  match got with
  | None => raise (Builtin "UnboundLocalError")
  | Some response =>
      let total_size := default 0 (content_length response) in
      open_wb model_path ;;
      write_chunks model_name model_path callback total_size 0 (chunks response) ;;
      match stream_error response with
      | Some c => raise (Requests c)
      | None =>
          (if callback then report model_name 100 else ret tt) ;;
          ret model_path
      end
  end.

(** The four [except] clauses differ in the message only. *)
Definition download_error_message (e : exn) : string :=
  match e with
  | Requests HTTPErrorC => "HTTP error downloading model"
  | Requests ConnectionErrorC => "Connection error downloading model"
  | Requests TimeoutC => "Timeout downloading model"
  | _ => "Error downloading model"
  end.

(** What every [except] clause does: remove the partially downloaded file
    if it exists, raise a [NetworkError]. *)
Definition download_failed (model_path : string) (e : exn) : M world string :=
  there <- gets_of (path_exists model_path) ;;
  (if there : bool then os_remove model_path else ret tt) ;;
  raise (NetworkError (download_error_message e) e).

(** [ModelDownloader.download_model] *)
Definition download_model (model_name model_url : string) (callback : bool)
  : M world string :=
  decorated "download_model"
    (let model_path := model_file models_dir model_name in
     there <- gets_of (path_exists model_path) ;;
     if there : bool then
       (if callback then report model_name 100 else ret tt) ;;
       ret model_path
     else
       try_except (download_body model_name model_url model_path callback)
                  (download_failed model_path)).

(** [ModelDownloader.get_model_path] *)
Definition get_model_path (model_name : string) : string :=
  model_file models_dir model_name.

End Downloader.

(* ===================================================================== *)
(** * models/model_manager.py *)
(* ===================================================================== *)

(** [str.lower] and the substring test [needle in haystack], on ASCII. *)
Definition lower_ascii (a : ascii) : ascii :=
  let n := nat_of_ascii a in
  if ((65 <=? n) && (n <=? 90))%nat then ascii_of_nat (n + 32) else a.

Fixpoint lower (s : string) : string :=
  match s with
  | EmptyString => EmptyString
  | String a s' => String (lower_ascii a) (lower s')
  end.

Fixpoint contains (needle haystack : string) : bool :=
  String.prefix needle haystack ||
  match haystack with
  | EmptyString => false
  | String _ rest => contains needle rest
  end.

(** The entry of one model in [available_models]; a [dict]. *)
Abbreviation model_info := (gmap string json).

(** The fields of [ModelManager] that change. *)
Record ModelManager := {
  loaded_model : option torch_model;
  current_model_name : option string
}.

(** The manager together with the world it acts on. *)
Record mstate := {
  manager : ModelManager;
  env : world
}.

(** A computation on the world, run from inside the manager. *)
Definition in_world {A} (m : M world A) : M mstate A :=
  fun s => let (r, w) := m (env s) in (r, {| manager := manager s; env := w |}).

Definition set_manager (mm : ModelManager) : M mstate unit :=
  modify (fun s => {| manager := mm; env := env s |}).

Section Manager.

Local Open Scope monad_scope.

Variable net : string -> nat -> get_outcome.
Variable models_dir : string.

(** [config["available_models"]] *)
Variable available_models : gmap string model_info.

(** [torch.load] on the bytes of a file: the parameter sets it holds, by
    key, or the exception of a corrupt file. *)
Variable unpickle : list Byte.byte -> exn + gmap string state_dict.

(** [load_state_dict(..., strict=True)] succeeds exactly when the parameter
    set fits the architecture. *)
Variable fits : architecture -> state_dict -> bool.

(** Whether [from models.swinir_model import SwinIR] succeeds. *)
Variable swinir_importable : bool.

(** [config.get_model_info] *)
Definition get_model_info (model_name : string) : option model_info :=
  available_models !! model_name.

(** Truth value of what [get_model_info] returned: [None] and the empty
    dict are false. *)
Definition truthy_info (i : option model_info) : bool :=
  match i with
  | None => false
  | Some d => negb (bool_decide (d = ∅))
  end.

(** Truth value of [model_info.get("url")]. *)
Definition truthy_json (j : option json) : bool :=
  match j with
  | None => false
  | Some (JNum z) => negb (z =? 0)
  | Some (JStr s) => negb (String.eqb s "")
  end.

(** [model_info.get("scale", 4)] *)
Definition get_scale (info : model_info) : json :=
  default (JNum 4) (info !! "scale").

(** [torch.load(model_path, map_location=self.device)] *)
Definition torch_load (model_name model_path : string) : M world (gmap string state_dict) :=
  emit (Deserialized model_name model_path) ;;
  content <- gets_of (fun w => fs w !! model_path) ;;
  match content with
  | None => raise (Builtin "FileNotFoundError")
  | Some bytes => lift_result (unpickle bytes)
  end.

(** [loadnet[key]] *)
Definition dict_getitem (loadnet : gmap string state_dict) (key : string)
  : M world state_dict :=
  match loadnet !! key with
  | None => raise (Builtin "KeyError")
  | Some sd => ret sd
  end.

(** [model.load_state_dict(sd, strict=True)] *)
Definition load_state_dict (model_name : string) (a : architecture) (key : string)
  (sd : state_dict) : M world unit :=
  if fits a sd then emit (StateDictLoaded model_name key)
  else raise (Builtin "RuntimeError").

(** [ModelManager.unload_model], with [del] and [torch.cuda.empty_cache()]
    taken to return, so that its [except] clause is never entered. *)
Definition unload_model : M mstate unit :=
  decorated "unload_model"
    (self <- gets_of manager ;;
     match loaded_model self with
     | Some _ =>
         in_world (emit (Released (current_model_name self))) ;;
         set_manager {| loaded_model := None; current_model_name := None |}
     | None => ret tt
     end).

(** [ModelManager.download_model] *)
Definition manager_download_model (model_name : string) (callback : bool)
  : M mstate string :=
  decorated "download_model"
    (let info := get_model_info model_name in
     if negb (truthy_info info) then raise (ModelError "Unknown model" None) else
     let model_url := default ∅ info !! "url" in
     if negb (truthy_json model_url)
     then raise (ModelError "No URL specified for model" None) else
     let url := match model_url with Some (JStr u) => u | _ => "" end in
     try_except
       (in_world (download_model net models_dir model_name url callback))
       (fun e => raise (ModelError "Failed to download model" (Some e)))).

(** [ModelManager._load_realesrgan_model] *)
Definition load_realesrgan_model (model_name model_path : string) (info : model_info)
  : M world torch_model :=
  decorated "_load_realesrgan_model"
    (try_except
       (let scale := get_scale info in
        let a := if contains "anime" model_name
                 then RRDBNet 6 scale else RRDBNet 23 scale in
        emit (Built model_name a) ;;
        loadnet <- torch_load model_name model_path ;;
        let keyname := if bool_decide (is_Some (loadnet !! "params_ema"))
                       then "params_ema" else "params" in
        sd <- dict_getitem loadnet keyname ;;
        load_state_dict model_name a keyname sd ;;
        emit (MovedToDevice model_name) ;;
        ret {| arch := a; params := sd |})
       (fun e => raise (ModelError "Error loading RealESRGAN model" (Some e)))).

(** [ModelManager._load_swinir_model] *)
Definition load_swinir_model (model_name model_path : string) (info : model_info)
  : M world torch_model :=
  decorated "_load_swinir_model"
    (try_except
       ((if swinir_importable then ret tt
         else raise (ModelError "SwinIR model requires additional dependencies"
                                (Some (Builtin "ImportError")))) ;;
        let scale := get_scale info in
        let a := SwinIR scale in
        emit (Built model_name a) ;;
        loadnet <- torch_load model_name model_path ;;
        sd <- dict_getitem loadnet "params" ;;
        load_state_dict model_name a "params" sd ;;
        emit (MovedToDevice model_name) ;;
        ret {| arch := a; params := sd |})
       (fun e =>
          match e with
          | Upscaler ModelErrorC _ _ => raise e
          | _ => raise (ModelError "Error loading SwinIR model" (Some e))
          end)).

(** [ModelManager.load_model], from [# Get model info] on: what a call
    does once no model is held. *)
Definition load_from_disk (model_name : string) : M mstate torch_model :=
  let info := get_model_info model_name in
  if negb (truthy_info info) then raise (ModelError "Unknown model" None) else
  let model_info := default ∅ info in
  let model_path := get_model_path models_dir model_name in
  there <- in_world (gets_of (path_exists model_path)) ;;
  model_path <- (if there : bool then ret model_path
                 else manager_download_model model_name false) ;;
  try_except
    (model <-
       (if contains "realesrgan" (lower model_name)
        then in_world (load_realesrgan_model model_name model_path model_info)
        else if contains "swinir" (lower model_name)
        then in_world (load_swinir_model model_name model_path model_info)
        else raise (ModelError "Unsupported model type" None)) ;;
     set_manager {| loaded_model := Some model;
                    current_model_name := Some model_name |} ;;
     ret model)
    (fun e => raise (ModelError "Error loading model" (Some e))).

(** [ModelManager.load_model] *)
Definition load_model (model_name : string) : M mstate torch_model :=
  decorated "load_model"
    (self <- gets_of manager ;;
     match loaded_model self with
     | Some m =>
         if bool_decide (current_model_name self = Some model_name)
         then ret m
         else unload_model ;; load_from_disk model_name
     | None => load_from_disk model_name
     end).

End Manager.

(** The models that hold device memory after a sequence of device events,
    starting from [held]: a release frees what the manager held, a
    deserialization onto the device and a move to the device make the named
    model resident. *)
Definition device_step (held : gset string) (ev : torch_event) : gset string :=
  match ev with
  | Released (Some n) => held ∖ {[ n ]}
  | Released None => held
  | Deserialized n _ => held ∪ {[ n ]}
  | MovedToDevice n => held ∪ {[ n ]}
  | Built _ _ | StateDictLoaded _ _ => held
  end.

Definition resident (held : gset string) (evs : list torch_event) : gset string :=
  fold_left device_step evs held.

(** What the manager itself holds. *)
Definition held_by (self : ModelManager) : gset string :=
  match loaded_model self, current_model_name self with
  | Some _, Some n => {[ n ]}
  | _, _ => ∅
  end.

Definition deserializations (evs : list torch_event) : nat :=
  length (List.filter (fun ev => match ev with Deserialized _ _ => true | _ => false end) evs).

(* ===================================================================== *)
(** * Notions the properties are stated with *)
(* ===================================================================== *)

(** The cells of the tile grid in the order the loops visit them, [y] outer
    and [x] inner; a cell is the pair [(y, x)] of its origin. *)
Definition grid (self : ImageProcessor) (img : ndarray Z) : list (Z * Z) :=
  list_prod (py_range 0 (dim0 img) (tile_size self))
            (py_range 0 (dim1 img) (tile_size self)).

(** Whether the placement of the tile at [(x, y)] writes the canvas pixel of
    row [i] and column [j]: the region [setslice] assigns for
    [output[out_y1:out_y2, out_x1:out_x2]]. *)
Definition dest_covers (self : ImageProcessor) (img : ndarray Z) (scale x y i j : Z) : bool :=
  in_slice (out_y1 scale y) (out_y2 self img scale y) (dim0 img * scale) i &&
  in_slice (out_x1 scale x) (out_x2 self img scale x) (dim1 img * scale) j.

(** The canvas [np.zeros((output_h, output_w, c))] of a run. *)
Definition blank_canvas (img : ndarray Z) (scale : Z) : ndarray Z :=
  Ndarray (dim0 img * scale) (dim1 img * scale) (dim2 img) (fun _ _ _ => 0).

(** Processing the tile at [(x, y)] raises [e]. *)
Definition tile_raises (self : ImageProcessor) (model : tensor -> exn + tensor)
  (img : ndarray Z) (scale x y : Z) (e : exn) : Prop :=
  place_tile self model img scale x y (blank_canvas img scale) = inl e.

(** An image of [dtype=uint8]. *)
Definition is_uint8 (img : ndarray Z) : Prop :=
  forall i j k, in_shape img i j k -> 0 <= item img i j k <= 255.

(** The identity model: the output tensor is the input tensor. *)
Definition identity_model (t : tensor) : exn + tensor := inr t.

Fixpoint nondecreasing (l : list Z) : Prop :=
  match l with
  | a :: (b :: _) as l' => a <= b /\ nondecreasing l'
  | _ => True
  end.

(** A concrete run: nearest-neighbour magnification as the model. *)
Definition nearest_model (scale : Z) (t : tensor) : exn + tensor :=
  inr (Ndarray (dim0 t) (dim1 t * scale) (dim2 t * scale)
         (fun k i j => item t k (i / scale) (j / scale))).

Definition gradient_image (h w : Z) : ndarray Z :=
  Ndarray h w 3 (fun i j k => (i + 2 * j + 5 * k) mod 256).

Definition scenario_600x400 : (exn + ndarray Z) * list event :=
  process_image_with_tiling {| tile_size := 256; tile_padding := 16 |}
    (nearest_model 2) (gradient_image 400 600) 2 true.

(** What a run does to the canvas and what it emits, cell after cell. *)
Section Expected.

Variable self : ImageProcessor.
Variable model : tensor -> exn + tensor.
Variable img : ndarray Z.
Variable scale : Z.
Variable callback : bool.
Variable total_tiles : Z.

(** The canvas after the iteration on one tile: the tile placed, or the
    canvas as it was when the processing raised. *)
Definition next_output (x y : Z) (out : ndarray Z) : ndarray Z :=
  match place_tile self model img scale x y out with
  | inr out' => out'
  | inl _ => out
  end.

(** The canvas after a sequence of iterations. *)
Definition outputs_after (cells : list (Z * Z)) (out : ndarray Z) : ndarray Z :=
  fold_left (fun o cell => next_output (snd cell) (fst cell) o) cells out.

(** The events of the iterations on [cells], the first of which is the
    iteration number [done + 1]. *)
Fixpoint expected_events (cells : list (Z * Z)) (done : Z) : list event :=
  match cells with
  | [] => []
  | (y, x) :: rest =>
      [TileStarted x y]
      ++ match place_tile self model img scale x y (blank_canvas img scale) with
         | inl e => [TileError x y e]
         | inr _ => []
         end
      ++ (if callback then
            match PyFloat.percent (done + 1) total_tiles with
            | Some p => [Callback p]
            | None => []
            end
          else [])
      ++ expected_events rest (done + 1)
  end.

End Expected.

(** [total_tiles] as the function computes it. *)
Definition total_tiles_of (self : ImageProcessor) (img : ndarray Z) : Z :=
  (dim1 img + tile_size self - 1) / tile_size self
  * ((dim0 img + tile_size self - 1) / tile_size self).

(** The values the callback receives during [n] iterations that follow
    [done] completed ones. *)
Fixpoint progress_from (total_tiles : Z) (n : nat) (done : Z) : list Z :=
  match n with
  | O => []
  | S n' =>
      match PyFloat.percent (done + 1) total_tiles with
      | Some p => [p]
      | None => []
      end ++ progress_from total_tiles n' (done + 1)
  end.

(** What [postprocess_image] makes of what [preprocess_image] made of one
    channel value. *)
Definition pixel_roundtrip (v : Z) : Z :=
  Np.uint8_of_f32
    (SFmul Np.prec Np.emax
       (Np.clip01 (SFdiv Np.prec Np.emax (Np.f32_of_int v) Np.f32_255)) Np.f32_255).

(** An attempt fails in transport: [session.get] raised, or the status makes
    [raise_for_status] raise. *)
Definition transport_failure (o : get_outcome) : bool :=
  match o with
  | GetRaises _ => true
  | GetReturns r => (400 <=? status_code r) && (status_code r <? 600)
  end.

(** The device events of a complete load of one model, in order. *)
Definition load_events (name : string) (a : architecture) (path key : string)
  : list torch_event :=
  [Built name a; Deserialized name path; StateDictLoaded name key; MovedToDevice name].

(** A weight file that holds both parameter sets, a configuration that
    lists a SwinIR model, and a disk where the file of that model is. *)
Definition ema_set : state_dict := {[ "conv_first.weight" := [1] ]}.
Definition standard_set : state_dict := {[ "conv_first.weight" := [2] ]}.
Definition both_sets : gmap string state_dict :=
  {[ "params_ema" := ema_set; "params" := standard_set ]}.

Definition swinir_config : gmap string model_info :=
  {[ "swinir-large" := {[ "scale" := JNum 4; "url" := JStr "https://example.org/swinir.pth" ]} ]}.

Definition realesrgan_config : gmap string model_info :=
  {[ "realesrgan-x4plus" :=
       {[ "scale" := JNum 4; "url" := JStr "https://example.org/realesrgan.pth" ]} ]}.

Definition disk_with (path : string) : mstate :=
  {| manager := {| loaded_model := None; current_model_name := None |};
     env := {| fs := {[ path := [] ]}; gets := 0; sleeps := []; reported := [];
               torch_events := [] |} |}.

Definition no_network (url : string) (n : nat) : get_outcome :=
  GetRaises ConnectionErrorC.

(** Small concrete inputs: a processor with tiles of 2 and padding 1, the
    processor of the 600x400 scenario, a model that cannot take a tile one
    column wide, a manager that holds a model, a world with no file and a
    server that always answers 503. *)
Definition small_processor : ImageProcessor :=
  {| tile_size := 2; tile_padding := 1 |}.

Definition unpadded_processor : ImageProcessor :=
  {| tile_size := 2; tile_padding := 0 |}.

Definition scenario_processor : ImageProcessor :=
  {| tile_size := 256; tile_padding := 16 |}.

Definition wide_processor : ImageProcessor :=
  {| tile_size := 256; tile_padding := 32 |}.

Definition narrow_tile_fails (t : tensor) : exn + tensor :=
  if dim2 t =? 1 then inl (Builtin "RuntimeError") else inr t.

Definition holding (name : string) (m : torch_model) (s : mstate) : mstate :=
  {| manager := {| loaded_model := Some m; current_model_name := Some name |};
     env := env s |}.

Definition fresh_world : world :=
  {| fs := ∅; gets := 0; sleeps := []; reported := []; torch_events := [] |}.

Definition always_503 (url : string) (n : nat) : get_outcome :=
  GetReturns {| status_code := 503; content_length := None; chunks := [];
                stream_error := None |}.

(* ===================================================================== *)
(** * The value of a float, and rounding *)
(* ===================================================================== *)

(** Floats are read as rationals: [m * 2^e]. *)
Definition pow2 (e : Z) : Q := (2 # 1) ^ e.

(** [x] in units of [2^c]. *)
Definition scaled (x : Q) (c : Z) : Q := (x * pow2 (- c))%Q.

Definition F2Q (m e : Z) : Q := (inject_Z m * pow2 e)%Q.

(** The value of a float that is a number. *)
Definition SF2Q (f : spec_float) : option Q :=
  match f with
  | S754_zero _ => Some 0%Q
  | S754_finite s m e => Some (if s then - F2Q (Z.pos m) e else F2Q (Z.pos m) e)%Q
  | S754_infinity _ | S754_nan => None
  end.

(** [x] lies in the interval [[m, m+1)] of units [2^e], at the place [l]
    says: on [m], below, at or above the middle. *)
Definition located (m e : Z) (l : location) (x : Q) : Prop :=
  let y := scaled x e in
  match l with
  | loc_Exact => (y == inject_Z m)%Q
  | loc_Inexact Lt => (inject_Z m < y /\ y < inject_Z m + (1 # 2))%Q
  | loc_Inexact Eq => (y == inject_Z m + (1 # 2))%Q
  | loc_Inexact Gt => (inject_Z m + (1 # 2) < y /\ y < inject_Z m + 1)%Q
  end.

(** Nearest integer, ties to even: [M] is [x] in units of [2^c] rounded. *)
Definition rne_at (c : Z) (x : Q) (M : Z) : Prop :=
  let y := scaled x c in
  (inject_Z M - (1 # 2) <= y /\ y <= inject_Z M + (1 # 2))%Q /\
  ((y == inject_Z M - (1 # 2) \/ y == inject_Z M + (1 # 2))%Q -> Z.even M = true).

(** [c] is the exponent of the format's unit at [x]. *)
Definition cexp_of (prec emax : Z) (x : Q) (c : Z) : Prop :=
  SpecFloat.emin prec emax <= c /\ (x < pow2 (c + prec))%Q /\ (c = SpecFloat.emin prec emax \/ (pow2 (c + prec - 1) <= x)%Q).

(** [v] is [x] rounded to the format, to nearest with ties to even. *)
Definition rounds_to (prec emax : Z) (x v : Q) : Prop :=
  exists c M, cexp_of prec emax x c /\ rne_at c x M /\ (v == F2Q M c)%Q.

(** A float that is zero or positive, within the exponent range. *)
Definition nonneg_finite (prec emax : Z) (f : spec_float) : Prop :=
  f = S754_zero false \/
  exists m e, f = S754_finite false m e /\ e <= emax - prec.

(** The values [downloaded] takes during the loop over the chunks. *)
Fixpoint downloaded_after (downloaded : Z) (cs : list (list Byte.byte)) : list Z :=
  match cs with
  | [] => []
  | data :: cs' =>
      (downloaded + Z.of_nat (length data))
        :: downloaded_after (downloaded + Z.of_nat (length data)) cs'
  end.

(** The world after more device events. *)
Definition with_events (w : world) (evs : list torch_event) : world :=
  {| fs := fs w; gets := gets w; sleeps := sleeps w; reported := reported w;
     torch_events := torch_events w ++ evs |}.

(** More concrete inputs: a processor whose tile size is 0, a state with no
    model and no file, servers that answer the first request with a body of
    two chunks (with and without a [content-length], and with a stream that
    breaks), and a configuration that lists a model of an unknown kind. *)
Definition zero_tile_processor : ImageProcessor :=
  {| tile_size := 0; tile_padding := 0 |}.

Definition fresh_state : mstate :=
  {| manager := {| loaded_model := None; current_model_name := None |};
     env := fresh_world |}.

Definition two_chunks : list (list Byte.byte) :=
  [[Byte.x01; Byte.x02]; [Byte.x03]].

Definition serves_file (url : string) (n : nat) : get_outcome :=
  GetReturns {| status_code := 200; content_length := None; chunks := two_chunks;
                stream_error := None |}.

Definition serves_file_with_length (url : string) (n : nat) : get_outcome :=
  GetReturns {| status_code := 200; content_length := Some 3; chunks := two_chunks;
                stream_error := None |}.

Definition breaks_off (url : string) (n : nat) : get_outcome :=
  GetReturns {| status_code := 200; content_length := None; chunks := two_chunks;
                stream_error := Some ConnectionErrorC |}.

Definition other_config : gmap string model_info :=
  {[ "waifu2x" := {[ "scale" := JNum 2; "url" := JStr "https://example.org/waifu2x.pth" ]} ]}.

(* ===================================================================== *)
(** * utils/image_processor.py: image files *)
(* ===================================================================== *)

Section ImageFiles.

Local Open Scope monad_scope.

(** What PIL makes of the bytes of a file ([Image.open], [verify],
    [convert('RGB')], then [np.array]): an array of shape (h, w, 3), or the
    exception raised on the way. *)
Variable decode_image : list Byte.byte -> exn + ndarray Z.

(** [Image.fromarray(img).save(path)]: the bytes written for the format the
    extension of [path] names, or the exception raised. *)
Variable encode_image : string -> ndarray Z -> exn + list Byte.byte.

(** The two [except] clauses of [load_image] differ in the message only. *)
Definition load_error_message (e : exn) : string :=
  match e with
  | Builtin name =>
      if String.eqb name "UnidentifiedImageError"
      then "Unidentified image format" else "Error loading image"
  | _ => "Error loading image"
  end.

(** [ImageProcessor.load_image], with the conversion to an array that its
    caller applies to the result. *)
Definition load_image (image_path : string) : M world (ndarray Z) :=
  decorated "load_image"
    (content <- gets_of (fun w => fs w !! image_path) ;;
     match content with
     | None => raise (Upscaler ImageProcessingErrorC "Image file not found" None)
     | Some bytes =>
         match decode_image bytes with
         | inr img => ret img
         | inl e => raise (ImageProcessingError (load_error_message e) e)
         end
     end).

(** [ImageProcessor.save_image] on a [uint8] array. *)
Definition save_image (img : ndarray Z) (output_path : string) : M world string :=
  decorated "save_image"
    (try_except
       (os_makedirs (dirname output_path) ;;
        bytes <- lift_result (encode_image output_path img) ;;
        modify (set_fs (fun f => <[output_path := bytes]> f)) ;;
        ret output_path)
       (fun e => raise (ImageProcessingError "Error saving image" e))).

End ImageFiles.

(* ===================================================================== *)
(** * models/upscaler.py *)
(* ===================================================================== *)

(** The upscaler: its model manager with the world, and the calls its
    progress callbacks have received. *)
Record ustate := {
  mst : mstate;
  progress_calls : list Z;
  batch_calls : list (Z * Z * Z)
}.

Definition in_manager {A} (m : M mstate A) : M ustate A :=
  fun u => let (r, s) := m (mst u) in
           (r, {| mst := s; progress_calls := progress_calls u;
                  batch_calls := batch_calls u |}).

Definition with_mst (u : ustate) (s : mstate) : ustate :=
  {| mst := s; progress_calls := progress_calls u; batch_calls := batch_calls u |}.

(** A progress callback that records its argument, as the signal of the
    user interface does, and the batch mode's callback that does nothing. *)
Definition record_progress (progress : Z) : M ustate unit :=
  modify (fun u => {| mst := mst u; progress_calls := progress_calls u ++ [progress];
                      batch_calls := batch_calls u |}).

Definition record_batch_progress (progress current total : Z) : M ustate unit :=
  modify (fun u => {| mst := mst u; progress_calls := progress_calls u;
                      batch_calls := batch_calls u ++ [(progress, current, total)] |}).

Definition dummy_callback (_ : Z) : M ustate unit := ret tt.

(** A callback that returns and leaves the manager and the files alone. *)
Definition callback_returns (callback : Z -> M ustate unit) : Prop :=
  forall v u, fst (callback v u) = inr tt /\
              mst (snd (callback v u)) = mst u /\
              batch_calls (snd (callback v u)) = batch_calls u.

(** The literal [0.8]: the binary64 number nearest to 8/10. *)
Definition float_0_8 : spec_float :=
  SFdiv PyFloat.prec PyFloat.emax (PyFloat.exact 8) (PyFloat.exact 10).

(** [10 + int(progress * 0.8)]; [None] is the [OverflowError] of a product
    that is not finite. *)
Definition adjusted_progress (progress : Z) : option Z :=
  match PyFloat.int_of_float
          (SFmul PyFloat.prec PyFloat.emax (PyFloat.of_int progress) float_0_8) with
  | Some t => Some (10 + t)
  | None => None
  end.

(** The calls of the callback a run of the tiling loop makes, in order. *)
Fixpoint replay_callbacks (callback : Z -> M ustate unit) (evs : list event)
  : M ustate unit :=
  match evs with
  | [] => ret tt
  | Callback progress :: evs' =>
      bind (callback progress) (fun _ => replay_callbacks callback evs')
  | _ :: evs' => replay_callbacks callback evs'
  end.

(** The calls the batch callback receives during [k] iterations from the
    image number [i]: [(int(i / total * 100), i, total)]. *)
Fixpoint batch_reports (total i : Z) (k : nat) : list (Z * Z * Z) :=
  match k with
  | O => []
  | S k' =>
      match PyFloat.percent i total with
      | Some progress => [(progress, i, total)]
      | None => []
      end ++ batch_reports total (i + 1) k'
  end.

(** The paths of the calls of a trace that returned, in order. *)
Definition returned_paths (trace : list (string * (exn + string))) : list string :=
  flat_map (fun call => match snd call with inr p => [p] | inl _ => [] end) trace.

(** The scale as [process_image_with_tiling] takes it from [upscale_image].
    With a string, [h * scale] is a string and [np.zeros] raises [TypeError]
    before any tile, which the function wraps as it wraps every exception;
    nothing happens between [model_info.get('scale', 4)] and that point. *)
Definition tiling_scale (info : model_info) : exn + Z :=
  match get_scale info with
  | JNum z => inr z
  | JStr _ =>
      inl (ImageProcessingError "Error processing image with tiling" (Builtin "TypeError"))
  end.

Section Upscaler.

Local Open Scope monad_scope.

Variable net : string -> nat -> get_outcome.
Variable models_dir : string.
Variable available_models : gmap string model_info.
Variable unpickle : list Byte.byte -> exn + gmap string state_dict.
Variable fits : architecture -> state_dict -> bool.
Variable swinir_importable : bool.

(** [config.get('default_model')] and [config.get_output_dir()] *)
Variable default_model : option string.
Variable config_output_dir : string.

Variable image_processor : ImageProcessor.
Variable decode_image : list Byte.byte -> exn + ndarray Z.
Variable encode_image : string -> ndarray Z -> exn + list Byte.byte.

(** The forward pass of a loaded model. *)
Variable forward : torch_model -> tensor -> exn + tensor.

(** [progress_wrapper], the callback [upscale_image] hands to the tiling
    loop. *)
Definition progress_wrapper (progress_callback : option (Z -> M ustate unit))
  (progress : Z) : M ustate unit :=
  match progress_callback with
  | Some callback =>
      match adjusted_progress progress with
      | Some adjusted => callback adjusted
      | None => raise (Builtin "OverflowError")
      end
  | None => ret tt
  end.

(** [image_processor.process_image_with_tiling(model, img_np, scale,
    callback=progress_wrapper)] inside the upscaler: the callback is called
    as the loop goes, and an exception it raises leaves the loop through its
    outer [except]. *)
Definition run_tiling (model : torch_model) (img : ndarray Z) (scale : Z)
  (callback : Z -> M ustate unit) : M ustate (ndarray Z) :=
  let run := process_image_with_tiling image_processor (forward model) img scale true in
  try_except (replay_callbacks callback (snd run))
    (fun e => raise (ImageProcessingError "Error processing image with tiling" e)) ;;
  lift_result (fst run).

(** [f"{filename}_upscaled{ext}"] in the output directory. *)
Definition upscaled_path (output_dir image_path : string) : string :=
  let (filename, ext) := splitext (basename image_path) in
  os_path_join output_dir (filename ++ "_upscaled" ++ ext).

Definition call_if_given (progress_callback : option (Z -> M ustate unit))
  (progress : Z) : M ustate unit :=
  match progress_callback with
  | Some callback => callback progress
  | None => ret tt
  end.

(** [Upscaler.upscale_image] *)
Definition upscale_image (image_path : string) (output_path model_name : option string)
  (progress_callback : option (Z -> M ustate unit)) : M ustate string :=
  decorated "upscale_image"
    (try_except
       (let model_name :=
          match model_name with Some n => Some n | None => default_model end in
        let model_info :=
          match model_name with
          | Some n => get_model_info available_models n
          | None => None
          end in
        if negb (truthy_info model_info)
        then raise (Upscaler UpscalerErrorC "Unknown model" None) else
        model <- in_manager
                   (load_model net models_dir available_models unpickle fits
                      swinir_importable (default "" model_name)) ;;
        img <- in_manager (in_world (load_image decode_image image_path)) ;;
        call_if_given progress_callback 10 ;;
        scale <- lift_result (tiling_scale (default ∅ model_info)) ;;
        output <- run_tiling model img scale (progress_wrapper progress_callback) ;;
        let output_path :=
          match output_path with
          | Some p => p
          | None => upscaled_path config_output_dir image_path
          end in
        in_manager (in_world (save_image encode_image output output_path)) ;;
        call_if_given progress_callback 100 ;;
        ret output_path)
       (fun e => raise (Upscaler UpscalerErrorC "Error upscaling image" (Some e)))).

(** The loop of [upscale_batch] over [enumerate(image_paths)]. *)
Fixpoint batch_loop (output_dir : string) (model_name : option string)
  (progress_callback : option (Z -> Z -> Z -> M ustate unit)) (total_images : Z)
  (i : Z) (image_paths : list string) (output_paths : list string)
  : M ustate (list string) :=
  match image_paths with
  | [] => ret output_paths
  | image_path :: rest =>
      let output_path := upscaled_path output_dir image_path in
      match progress_callback with
      | Some callback =>
          match PyFloat.percent i total_images with
          | Some batch_progress => callback batch_progress i total_images
          | None => raise (Builtin "ArithmeticError")
          end
      | None => ret tt
      end ;;
      output_paths <-
        try_except
          (output_path <- upscale_image image_path (Some output_path) model_name
                            (Some dummy_callback) ;;
           ret (output_paths ++ [output_path]))
          (fun _ => ret output_paths) ;;
      batch_loop output_dir model_name progress_callback total_images (i + 1) rest
        output_paths
  end.

(** The calls of [upscale_image] the loop of [upscale_batch] makes: every
    image with what its call returned or raised, each call starting in the
    state the one before it left. *)
Fixpoint batch_trace (output_dir : string) (model_name : option string)
  (progress_callback : option (Z -> Z -> Z -> M ustate unit)) (total_images : Z)
  (i : Z) (image_paths : list string) (u : ustate) : list (string * (exn + string)) :=
  match image_paths with
  | [] => []
  | image_path :: rest =>
      let reported :=
        match progress_callback with
        | Some callback =>
            match PyFloat.percent i total_images with
            | Some batch_progress => callback batch_progress i total_images
            | None => raise (Builtin "ArithmeticError")
            end
        | None => ret tt
        end u in
      let r := upscale_image image_path (Some (upscaled_path output_dir image_path))
                 model_name (Some dummy_callback) (snd reported) in
      (image_path, fst r)
      :: batch_trace output_dir model_name progress_callback total_images (i + 1) rest
           (snd r)
  end.

(** [Upscaler.upscale_batch] *)
Definition upscale_batch (image_paths : list string) (output_dir model_name : option string)
  (progress_callback : option (Z -> Z -> Z -> M ustate unit)) : M ustate (list string) :=
  decorated "upscale_batch"
    (try_except
       (let model_name :=
          match model_name with Some n => Some n | None => default_model end in
        let output_dir :=
          match output_dir with Some d => d | None => config_output_dir end in
        in_manager (in_world (os_makedirs output_dir)) ;;
        let total_images := Z.of_nat (length image_paths) in
        output_paths <- batch_loop output_dir model_name progress_callback total_images
                          0 image_paths [] ;;
        match progress_callback with
        | Some callback => callback 100 total_images total_images
        | None => ret tt
        end ;;
        ret output_paths)
       (fun e => raise (Upscaler UpscalerErrorC "Error in batch upscaling" (Some e)))).

End Upscaler.

(** Whether the character [c] occurs in [s]. *)
Fixpoint contains_char (c : ascii) (s : string) : bool :=
  match s with
  | EmptyString => false
  | String a rest => Ascii.eqb a c || contains_char c rest
  end.

(** Concrete inputs of the upscaler: a decoder that reads every file that
    is not empty as the 2x3 gradient, an encoder that writes one byte per
    row of the array, and a state whose disk holds the file of the model
    and one image. *)
Definition decode_gradient (bytes : list Byte.byte) : exn + ndarray Z :=
  match bytes with
  | [] => inl (Builtin "UnidentifiedImageError")
  | _ :: _ => inr (gradient_image 2 3)
  end.

Definition encode_rows (path : string) (img : ndarray Z) : exn + list Byte.byte :=
  inr (repeat Byte.x00 (Z.to_nat (dim0 img))).

Definition studio_state : ustate :=
  {| mst := {| manager := {| loaded_model := None; current_model_name := None |};
               env := {| fs := {[ "models/realesrgan-x4plus.pth" := [];
                                  "in/photo.png" := [Byte.x05] ]};
                         gets := 0; sleeps := []; reported := [];
                         torch_events := [] |} |};
     progress_calls := []; batch_calls := [] |}.

Definition offline_state : ustate :=
  {| mst := fresh_state; progress_calls := []; batch_calls := [] |}.

(* ********************************************************************* *)
(** * Proofs *)
(* ********************************************************************* *)

(* ===================================================================== *)
(** * Rounding: what the float operations compute *)
(* ===================================================================== *)

Lemma pow2_pos e : (0 < pow2 e)%Q.
Proof. apply Qpower_0_lt. reflexivity. Qed.

Lemma pow2_add a b : (pow2 (a + b) == pow2 a * pow2 b)%Q.
Proof. apply Qpower_plus. discriminate. Qed.

Lemma pow2_0 : (pow2 0 == 1)%Q.
Proof. reflexivity. Qed.

Lemma pow2_1 : (pow2 1 == 2)%Q.
Proof. reflexivity. Qed.

Lemma pow2_succ a : (pow2 (a + 1) == 2 * pow2 a)%Q.
Proof. rewrite pow2_add, pow2_1. ring. Qed.

Lemma pow2_opp a : (pow2 (- a) * pow2 a == 1)%Q.
Proof. rewrite <- pow2_add. replace (- a + a) with 0 by lia. reflexivity. Qed.

Lemma pow2_le a b : a <= b -> (pow2 a <= pow2 b)%Q.
Proof. intros. apply Qpower_le_compat_l; [assumption|]. discriminate. Qed.

Lemma pow2_lt a b : a < b -> (pow2 a < pow2 b)%Q.
Proof. intros. apply Qpower_lt_compat_l; [assumption|]. reflexivity. Qed.

Lemma pow2_lt_inv a b : (pow2 a < pow2 b)%Q -> a < b.
Proof. intros. eapply Qpower_lt_compat_l_inv; [eassumption|]. reflexivity. Qed.

Lemma pow2_Z a : 0 <= a -> (pow2 a == inject_Z (2 ^ a))%Q.
Proof. intros. symmetry. apply (Zpower_Qpower 2 a). assumption. Qed.

Lemma scaled_succ x c : (scaled x (c + 1) == scaled x c * (1 # 2))%Q.
Proof.
  unfold scaled. replace (- (c + 1)) with (- c + - (1)) by lia.
  rewrite pow2_add. change (pow2 (- (1))) with (1 # 2)%Q. ring.
Qed.

Lemma scaled_F2Q m c : (scaled (F2Q m c) c == inject_Z m)%Q.
Proof.
  unfold scaled, F2Q. rewrite <- Qmult_assoc.
  rewrite (Qmult_comm (pow2 c)), pow2_opp. ring.
Qed.

Lemma scaled_shift x c d : (scaled x (c + d) == scaled x c * pow2 (- d))%Q.
Proof.
  unfold scaled. replace (- (c + d)) with (- c + - d) by lia.
  rewrite pow2_add. ring.
Qed.

Lemma scaled_unscale x c : (x == scaled x c * pow2 c)%Q.
Proof. unfold scaled. rewrite <- Qmult_assoc, pow2_opp. ring. Qed.

Lemma Zlt_of_Q a b : (inject_Z a < inject_Z b)%Q -> a < b.
Proof. now rewrite <- Zlt_Qlt. Qed.
Lemma Zle_of_Q a b : (inject_Z a <= inject_Z b)%Q -> a <= b.
Proof. now rewrite <- Zle_Qle. Qed.
Lemma Q_of_Zle a b : a <= b -> (inject_Z a <= inject_Z b)%Q.
Proof. now rewrite <- Zle_Qle. Qed.
Lemma Q_of_Zlt a b : a < b -> (inject_Z a < inject_Z b)%Q.
Proof. now rewrite <- Zlt_Qlt. Qed.

(** * One step to the right *)

Lemma inject_Z_double p : (inject_Z (Z.pos p~0) == 2 * inject_Z (Z.pos p))%Q.
Proof. change (Z.pos p~0) with (2 * Z.pos p). rewrite inject_Z_mult. reflexivity. Qed.
Lemma inject_Z_double1 p : (inject_Z (Z.pos p~1) == 2 * inject_Z (Z.pos p) + 1)%Q.
Proof.
  change (Z.pos p~1) with (2 * Z.pos p + 1). rewrite inject_Z_plus, inject_Z_mult.
  reflexivity.
Qed.

Lemma shr_1_located (mrs : shr_record) (e : Z) (x : Q) :
  0 <= shr_m mrs ->
  located (shr_m mrs) e (loc_of_shr_record mrs) x ->
  located (shr_m (shr_1 mrs)) (e + 1) (loc_of_shr_record (shr_1 mrs)) x /\
  0 <= shr_m (shr_1 mrs).
Proof.
  destruct mrs as [m r s]. simpl shr_m. intros Hm.
  unfold located. pose proof (scaled_succ x e) as Hy.
  set (y := scaled x e) in *. set (y' := scaled x (e + 1)) in *.
  clearbody y y'.
  destruct m as [|p|p]; [| |lia].
  - destruct r, s; simpl; intros H; split; try lia;
      change (inject_Z 0) with 0%Q in *; lra.
  - destruct p as [p|p|]; destruct r, s; simpl; intros H; split; try lia;
      rewrite ?inject_Z_double, ?inject_Z_double1 in H;
      change (inject_Z 1) with 1%Q in *; change (inject_Z 0) with 0%Q in *; lra.
Qed.

Lemma iter_shr_located (x : Q) (p : positive) :
  forall (mrs : shr_record) (e : Z),
    0 <= shr_m mrs ->
    located (shr_m mrs) e (loc_of_shr_record mrs) x ->
    located (shr_m (SpecFloat.iter_pos shr_1 p mrs)) (e + Z.pos p)
            (loc_of_shr_record (SpecFloat.iter_pos shr_1 p mrs)) x /\
    0 <= shr_m (SpecFloat.iter_pos shr_1 p mrs).
Proof.
  induction p as [p IH|p IH|]; intros mrs e Hm Hl; cbn [SpecFloat.iter_pos].
  - destruct (shr_1_located mrs e x Hm Hl) as [H1 N1].
    destruct (IH _ _ N1 H1) as [H2 N2].
    destruct (IH _ _ N2 H2) as [H3 N3].
    replace (e + Z.pos p~1) with (e + 1 + Z.pos p + Z.pos p) by lia. now split.
  - destruct (IH _ _ Hm Hl) as [H2 N2].
    destruct (IH _ _ N2 H2) as [H3 N3].
    replace (e + Z.pos p~0) with (e + Z.pos p + Z.pos p) by lia. now split.
  - now apply shr_1_located.
Qed.

Lemma loc_of_shr_record_of_loc (m : Z) (l : location) :
  loc_of_shr_record (shr_record_of_loc m l) = l /\ shr_m (shr_record_of_loc m l) = m.
Proof. destruct l as [|[]]; split; reflexivity. Qed.

Lemma digits2_bounds (p : positive) :
  2 ^ (Z.pos (digits2_pos p) - 1) <= Z.pos p < 2 ^ Z.pos (digits2_pos p).
Proof.
  induction p as [p IH|p IH|]; cbn [digits2_pos].
  - rewrite Pos2Z.inj_succ.
    replace (Z.succ (Z.pos (digits2_pos p)) - 1) with (Z.succ (Z.pos (digits2_pos p) - 1))
      by lia.
    rewrite !Z.pow_succ_r by lia. lia.
  - rewrite Pos2Z.inj_succ.
    replace (Z.succ (Z.pos (digits2_pos p)) - 1) with (Z.succ (Z.pos (digits2_pos p) - 1))
      by lia.
    rewrite !Z.pow_succ_r by lia. lia.
  - simpl. lia.
Qed.

Lemma inject_Z_succ (m : Z) : (inject_Z (m + 1) == inject_Z m + 1)%Q.
Proof. rewrite inject_Z_plus. reflexivity. Qed.

Lemma round_nearest_even_spec (M c : Z) (l : location) (x : Q) :
  located M c l x ->
  rne_at c x (round_nearest_even M l) /\
  M <= round_nearest_even M l <= M + 1 /\
  (l = loc_Exact -> round_nearest_even M l = M).
Proof.
  unfold located, rne_at. set (y := scaled x c). clearbody y.
  destruct l as [|[]]; cbn [round_nearest_even]; intros H.
  - split; [|split; [lia|reflexivity]]. split; [lra|]. intros [T|T]; lra.
  - split; [|split; [|discriminate]].
    + destruct (Z.even M) eqn:Ev.
      * split; [lra|]. intros _. exact Ev.
      * rewrite inject_Z_succ. split; [lra|]. intros _.
        rewrite Z.add_1_r, Z.even_succ, <- Z.negb_even, Ev. reflexivity.
    + destruct (Z.even M); lia.
  - split; [|split; [lia|discriminate]]. split; [lra|]. intros [T|T]; lra.
  - split; [|split; [lia|discriminate]]. rewrite inject_Z_succ.
    split; [lra|]. intros [T|T]; lra.
Qed.

Lemma scaled_le (x y : Q) (c : Z) : (x <= y)%Q -> (scaled x c <= scaled y c)%Q.
Proof.
  intros H. unfold scaled. apply Qmult_le_compat_r; [exact H|].
  apply Qlt_le_weak, pow2_pos.
Qed.

Lemma scaled_lt (x y : Q) (c : Z) : (x < y)%Q -> (scaled x c < scaled y c)%Q.
Proof.
  intros H. unfold scaled. apply Qmult_lt_compat_r; [apply pow2_pos|exact H].
Qed.

Lemma scaled_pow2 (g c : Z) : (scaled (pow2 g) c == pow2 (g - c))%Q.
Proof. unfold scaled. rewrite <- pow2_add. reflexivity. Qed.

(** Rounding in one and the same unit is monotone. *)
Lemma rne_at_mono (c : Z) (x y : Q) (M N : Z) :
  rne_at c x M -> rne_at c y N -> (x <= y)%Q -> M <= N.
Proof.
  unfold rne_at. intros [[Hx1 Hx2] Tx] [[Hy1 Hy2] Ty] Hxy.
  pose proof (scaled_le x y c Hxy) as Hs.
  set (sx := scaled x c) in *. set (sy := scaled y c) in *. clearbody sx sy.
  destruct (Z_le_gt_dec M N) as [|Hgt]; [assumption|exfalso].
  assert (N + 1 <= M) as H1 by lia.
  pose proof (Q_of_Zle _ _ H1) as H1q. rewrite inject_Z_succ in H1q.
  assert (sx == inject_Z M - (1 # 2))%Q as E1 by lra.
  assert (sy == inject_Z N + (1 # 2))%Q as E2 by lra.
  assert (M <= N + 1) as H2 by (apply Zle_of_Q; rewrite inject_Z_succ; lra).
  specialize (Tx (or_introl E1)). specialize (Ty (or_intror E2)).
  assert (M = N + 1) as -> by lia.
  rewrite Z.add_1_r, Z.even_succ, <- Z.negb_even, Ty in Tx. discriminate.
Qed.

Lemma located_range (m e : Z) (l : location) (x : Q) :
  located m e l x -> (inject_Z m <= scaled x e /\ scaled x e < inject_Z m + 1)%Q.
Proof.
  unfold located. set (y := scaled x e). clearbody y.
  destruct l as [|[]]; intros H; lra.
Qed.

(** A value that is a whole number of units is located on that number. *)
Lemma located_integer (m e K : Z) (l : location) (x : Q) :
  located m e l x -> (scaled x e == inject_Z K)%Q -> m = K.
Proof.
  intros H HK. apply located_range in H. rewrite HK in H. destruct H as [H1 H2].
  rewrite <- inject_Z_succ in H2. apply Zle_of_Q in H1. apply Zlt_of_Q in H2. lia.
Qed.

Lemma Zle_of_half (a b : Z) : (inject_Z a <= inject_Z b + (1 # 2))%Q -> a <= b.
Proof.
  intros H. assert (inject_Z a < inject_Z (b + 1))%Q as H'.
  { rewrite inject_Z_succ. lra. }
  apply Zlt_of_Q in H'. lia.
Qed.

Lemma Zdigits2_bounds (m : Z) :
  0 < m -> 2 ^ (Zdigits2 m - 1) <= m < 2 ^ Zdigits2 m.
Proof. destruct m as [|p|p]; try lia. intros _. apply digits2_bounds. Qed.

Lemma Zdigits2_pos (m : Z) : 0 < m -> 0 < Zdigits2 m.
Proof. destruct m; simpl; lia. Qed.

Lemma Zdigits2_le (m : Z) (k : Z) : 0 < m -> 0 <= k -> m < 2 ^ k -> Zdigits2 m <= k.
Proof.
  intros Hm Hk Hlt. pose proof (Zdigits2_bounds m Hm) as [H1 _].
  pose proof (Zdigits2_pos m Hm).
  destruct (Z_le_gt_dec (Zdigits2 m) k) as [|Hgt]; [assumption|exfalso].
  assert (2 ^ k <= 2 ^ (Zdigits2 m - 1)) by (apply Z.pow_le_mono_r; lia). lia.
Qed.

Lemma located_mag (m e : Z) (l : location) (x : Q) :
  0 < m -> located m e l x ->
  (pow2 (Zdigits2 m + e - 1) <= x /\ x < pow2 (Zdigits2 m + e))%Q.
Proof.
  intros Hm H. apply located_range in H.
  pose proof (Zdigits2_bounds m Hm) as [D1 D2].
  pose proof (Zdigits2_pos m Hm) as Dp.
  apply Q_of_Zle in D1. assert (m + 1 <= 2 ^ Zdigits2 m) as D2' by lia.
  apply Q_of_Zle in D2'. rewrite inject_Z_succ in D2'.
  rewrite <- pow2_Z in D1, D2' by lia.
  rewrite (scaled_unscale x e) at 1 2.
  replace (Zdigits2 m + e - 1) with ((Zdigits2 m - 1) + e) by lia.
  rewrite !pow2_add. pose proof (pow2_pos e).
  set (u := pow2 e) in *. set (y := scaled x e) in *.
  set (a := pow2 (Zdigits2 m - 1)) in *. set (b := pow2 (Zdigits2 m)) in *.
  clearbody u y a b. split.
  - apply Qmult_le_compat_r; lra.
  - apply Qmult_lt_compat_r; lra.
Qed.

Lemma Zdigits2_pow2 (k : Z) : 0 <= k -> Zdigits2 (2 ^ k) = k + 1.
Proof.
  intros Hk. assert (0 < 2 ^ k) as Hp by (apply Z.pow_pos_nonneg; lia).
  pose proof (Zdigits2_bounds _ Hp) as [H1 H2]. pose proof (Zdigits2_pos _ Hp).
  apply Z.pow_le_mono_r_iff in H1; [|lia|lia].
  apply Z.pow_lt_mono_r_iff in H2; [|lia|lia]. lia.
Qed.

Lemma Zdigits2_ge (m j : Z) : 0 <= j -> 2 ^ j <= m -> j + 1 <= Zdigits2 m.
Proof.
  intros Hj H. assert (0 < m) as Hm by (pose proof (Z.pow_pos_nonneg 2 j); lia).
  pose proof (Zdigits2_bounds m Hm) as [_ H2]. pose proof (Zdigits2_pos m Hm).
  assert (2 ^ j < 2 ^ Zdigits2 m) as H3 by lia.
  apply Z.pow_lt_mono_r_iff in H3; lia.
Qed.

(** The place of a quotient [q + r/n] between [q] and [q + 1], as
    [new_location] finds it from the remainder. *)
Lemma new_location_located (n q r e : Z) (x : Q) :
  0 < n -> 0 <= r < n ->
  (scaled x e * inject_Z n == inject_Z q * inject_Z n + inject_Z r)%Q ->
  located q e (new_location n r) x.
Proof.
  intros Hn Hr Hy. unfold located. set (y := scaled x e) in *. clearbody y.
  pose proof (Q_of_Zlt _ _ Hn) as Hnq. change (inject_Z 0) with 0%Q in Hnq.
  assert (forall a b : Q, (a * inject_Z n < b * inject_Z n)%Q -> (a < b)%Q) as cancel.
  { intros a b H. apply Qmult_lt_r in H; assumption. }
  assert (r = 0 -> (y == inject_Z q)%Q) as Hexact.
  { intros ->. apply (Qmult_inj_r _ _ (inject_Z n)); [lra|].
    rewrite Hy. change (inject_Z 0) with 0%Q. ring. }
  assert (0 < r -> (inject_Z q < y)%Q) as Hlow.
  { intros H. apply Q_of_Zlt in H. change (inject_Z 0) with 0%Q in H. apply cancel. lra. }
  assert (y < inject_Z q + 1)%Q as Hhigh.
  { assert (inject_Z r < inject_Z n)%Q as Hrn by (apply Q_of_Zlt; lia). apply cancel. lra. }
  assert (2 * r < n -> (y < inject_Z q + (1 # 2))%Q) as Hlt.
  { intros H. apply Q_of_Zlt in H. rewrite inject_Z_mult in H.
    change (inject_Z 2) with 2%Q in H. apply cancel. lra. }
  assert (n < 2 * r -> (inject_Z q + (1 # 2) < y)%Q) as Hgt.
  { intros H. apply Q_of_Zlt in H. rewrite inject_Z_mult in H.
    change (inject_Z 2) with 2%Q in H. apply cancel. lra. }
  unfold new_location. destruct (Z.even n) eqn:Ev.
  - unfold new_location_even. destruct (Z.eqb_spec r 0) as [Hr0|Hr0]; [now apply Hexact|].
    destruct (Z.compare_spec (2 * r) n) as [Heq|H|H].
    + apply (Qmult_inj_r _ _ (inject_Z n)); [lra|].
      rewrite Hy, <- Heq, inject_Z_mult. change (inject_Z 2) with 2%Q. ring.
    + split; [apply Hlow; lia|now apply Hlt].
    + split; [now apply Hgt|exact Hhigh].
  - unfold new_location_odd. destruct (Z.eqb_spec r 0) as [Hr0|Hr0]; [now apply Hexact|].
    assert (n <> 2 * r) as Hodd.
    { intros ->. rewrite Z.even_mul in Ev. discriminate. }
    destruct (Z.compare_spec (2 * r + 1) n) as [Heq|H|H].
    + split; [apply Hlow; lia|apply Hlt; lia].
    + split; [apply Hlow; lia|apply Hlt; lia].
    + split; [apply Hgt; lia|exact Hhigh].
Qed.

(** The integer part of a positive float is the floor of its value. *)
Lemma trunc_spec (m : positive) (e : Z) :
  exists t, PyFloat.trunc (S754_finite false m e) = Some t /\
            (inject_Z t <= F2Q (Z.pos m) e /\ F2Q (Z.pos m) e < inject_Z t + 1)%Q.
Proof.
  unfold PyFloat.trunc. eexists. split; [reflexivity|].
  destruct (Z.leb_spec 0 e) as [He|He].
  - unfold F2Q. rewrite pow2_Z, <- inject_Z_mult by lia. lra.
  - assert (0 < 2 ^ (- e)) as HD by (apply Z.pow_pos_nonneg; lia).
    pose proof (Z.mul_div_le (Z.pos m) (2 ^ (- e)) HD) as H1.
    pose proof (Z.mul_succ_div_gt (Z.pos m) (2 ^ (- e)) HD) as H2.
    set (t := Z.pos m / 2 ^ (- e)) in *.
    pose proof (Q_of_Zlt _ _ HD) as HDq. change (inject_Z 0) with 0%Q in HDq.
    assert (F2Q (Z.pos m) e * inject_Z (2 ^ (- e)) == inject_Z (Z.pos m))%Q as Hv.
    { unfold F2Q. rewrite <- pow2_Z by lia. rewrite <- Qmult_assoc.
      rewrite (Qmult_comm (pow2 e)), pow2_opp. ring. }
    apply Q_of_Zle in H1. apply Q_of_Zlt in H2.
    rewrite inject_Z_mult in H1, H2. unfold Z.succ in H2. rewrite inject_Z_succ in H2.
    rewrite <- Hv in H1, H2.
    set (v := F2Q (Z.pos m) e) in *. set (D := inject_Z (2 ^ (- e))) in *.
    set (T := inject_Z t) in *. clearbody v D T. split.
    + apply Qmult_le_r with (z := D); [exact HDq|]. lra.
    + apply Qmult_lt_r with (z := D); [exact HDq|]. lra.
Qed.

Section Format.

Variables prec emax : Z.
Hypothesis prec_gt_1 : 1 < prec.
Hypothesis prec_lt_emax : prec < emax.

Abbreviation emin := (SpecFloat.emin prec emax).
Abbreviation fexp := (SpecFloat.fexp prec emax).
Abbreviation cexp := (cexp_of prec emax).
Abbreviation rounds := (rounds_to prec emax).
Abbreviation nonneg := (nonneg_finite prec emax).

Lemma cexp_of_mono (x y : Q) (c1 c2 : Z) :
  cexp x c1 -> cexp y c2 -> (x <= y)%Q -> c1 <= c2.
Proof.
  intros (E1 & U1 & L1) (E2 & U2 & L2) Hxy.
  destruct L1 as [->|L1]; [assumption|].
  assert (pow2 (c1 + prec - 1) < pow2 (c2 + prec))%Q as H by lra.
  apply pow2_lt_inv in H. lia.
Qed.

Lemma rne_at_upper (c : Z) (x : Q) (M : Z) :
  rne_at c x M -> (x < pow2 (c + prec))%Q -> M <= 2 ^ prec.
Proof.
  intros [[H1 H2] _] Hx. apply (scaled_lt _ _ c) in Hx.
  rewrite scaled_pow2 in Hx. replace (c + prec - c) with prec in Hx by lia.
  rewrite pow2_Z in Hx by lia. apply Zle_of_half. lra.
Qed.

Lemma rne_at_lower (c : Z) (x : Q) (M : Z) :
  rne_at c x M -> (pow2 (c + prec - 1) <= x)%Q -> 2 ^ (prec - 1) <= M.
Proof.
  intros [[H1 H2] _] Hx. apply (scaled_le _ _ c) in Hx.
  rewrite scaled_pow2 in Hx. replace (c + prec - 1 - c) with (prec - 1) in Hx by lia.
  rewrite pow2_Z in Hx by lia. apply Zle_of_half. lra.
Qed.

Lemma F2Q_le (M N c : Z) : M <= N -> (F2Q M c <= F2Q N c)%Q.
Proof.
  intros H. unfold F2Q. apply Qmult_le_compat_r; [now apply Q_of_Zle|].
  apply Qlt_le_weak, pow2_pos.
Qed.

Lemma F2Q_pow2 (k c : Z) : 0 <= k -> (F2Q (2 ^ k) c == pow2 (k + c))%Q.
Proof. intros. unfold F2Q. rewrite <- pow2_Z by assumption. now rewrite pow2_add. Qed.

(** Rounding is monotone. *)
Theorem rounds_to_mono (x y v w : Q) :
  rounds x v -> rounds y w -> (x <= y)%Q -> (v <= w)%Q.
Proof.
  intros (c1 & M1 & C1 & R1 & ->) (c2 & M2 & C2 & R2 & ->) Hxy.
  pose proof (cexp_of_mono x y c1 c2 C1 C2 Hxy) as Hc.
  destruct (Z.eq_dec c1 c2) as [<-|Hne].
  - apply F2Q_le. eapply rne_at_mono; eassumption.
  - destruct C1 as (E1 & U1 & L1). destruct C2 as (E2 & U2 & L2).
    destruct L2 as [->|L2]; [lia|].
    pose proof (rne_at_upper c1 x M1 R1 U1) as HM1.
    pose proof (rne_at_lower c2 y M2 R2 L2) as HM2.
    apply (F2Q_le _ _ c1) in HM1. apply (F2Q_le _ _ c2) in HM2.
    rewrite F2Q_pow2 in HM1, HM2 by lia.
    assert (pow2 (prec + c1) <= pow2 (prec - 1 + c2))%Q by (apply pow2_le; lia).
    lra.
Qed.

Lemma fexp_ge_emin (g : Z) : emin <= fexp g.
Proof. unfold SpecFloat.fexp. lia. Qed.

Lemma emin_neg : emin < 0.
Proof. unfold SpecFloat.emin. lia. Qed.

(** The shift to the unit of the format keeps the value located. *)
Lemma shr_fexp_spec (m e : Z) (l : location) (x : Q) :
  0 <= m -> located m e l x ->
  let r := shr_fexp prec emax m e l in
  located (shr_m (fst r)) (snd r) (loc_of_shr_record (fst r)) x /\
  0 <= shr_m (fst r) /\
  snd r = Z.max e (fexp (Zdigits2 m + e)) /\
  (snd r = e -> shr_m (fst r) = m /\ loc_of_shr_record (fst r) = l).
Proof.
  intros Hm Hl r. subst r. unfold shr_fexp, shr.
  destruct (loc_of_shr_record_of_loc m l) as [Hloc Hsm].
  destruct (fexp (Zdigits2 m + e) - e) as [|p|p] eqn:E; cbn [fst snd].
  - rewrite Hloc, Hsm. split; [assumption|]. split; [assumption|]. split; [lia|auto].
  - destruct (iter_shr_located x p (shr_record_of_loc m l) e) as [H1 H2].
    + now rewrite Hsm.
    + now rewrite Hloc, Hsm.
    + split; [assumption|]. split; [assumption|]. split; lia.
  - rewrite Hloc, Hsm. split; [assumption|]. split; [assumption|]. split; [lia|auto].
Qed.

(** The unit of the format at a value located with enough digits. *)
Lemma located_cexp (m e : Z) (l : location) (x : Q) :
  0 <= m -> (0 < x)%Q -> located m e l x ->
  (m = 0 -> e <= emin) ->
  cexp x (Z.max emin (fexp (Zdigits2 m + e))).
Proof.
  intros Hm Hx Hl H0. pose proof emin_neg.
  destruct (Z.eq_dec m 0) as [->|Hne].
  - specialize (H0 eq_refl). cbn [Zdigits2]. rewrite Z.add_0_l.
    unfold SpecFloat.fexp.
    replace (Z.max emin (Z.max (e - prec) emin)) with emin by lia.
    split; [lia|]. split; [|now left].
    apply located_range in Hl. destruct Hl as [_ Hl].
    change (inject_Z 0) with 0%Q in Hl.
    rewrite (scaled_unscale x e).
    assert (scaled x e * pow2 e < 1 * pow2 e)%Q as H1.
    { apply Qmult_lt_compat_r; [apply pow2_pos|lra]. }
    assert (pow2 e <= pow2 (emin + prec))%Q by (apply pow2_le; lia). lra.
  - destruct (located_mag m e l x ltac:(lia) Hl) as [L U].
    unfold SpecFloat.fexp.
    set (g := Zdigits2 m + e) in *.
    replace (Z.max emin (Z.max (g - prec) emin)) with (Z.max (g - prec) emin) by lia.
    split; [lia|]. split.
    + assert (pow2 g <= pow2 (Z.max (g - prec) emin + prec))%Q by (apply pow2_le; lia).
      lra.
    + destruct (Z_le_gt_dec (g - prec) emin) as [Hle|Hgt]; [left; lia|right].
      replace (Z.max (g - prec) emin + prec - 1) with (g - 1) by lia. exact L.
Qed.

Lemma rounds_to_eq (x v v' : Q) : rounds x v -> (v == v')%Q -> rounds x v'.
Proof.
  intros (c & M & C & R & E) H. exists c, M. split; [exact C|]. split; [exact R|].
  apply (Qeq_trans _ v); [apply Qeq_sym; exact H|exact E].
Qed.

(** Where rounding takes place, and that the renormalisation which follows
    has at most one step to make. *)
Lemma rounding_step (m e : Z) (l : location) (x : Q) (M e1 : Z) (l1 : location) :
  0 <= m -> (0 < x)%Q -> located m e l x ->
  (l = loc_Exact \/ e <= fexp (Zdigits2 m + e)) ->
  (x < pow2 (emax - 1))%Q -> e <= emax - prec ->
  located M e1 l1 x -> 0 <= M ->
  e1 = Z.max e (fexp (Zdigits2 m + e)) ->
  (e1 = e -> M = m /\ l1 = l) ->
  let M' := round_nearest_even M l1 in
  rounds x (F2Q M' e1) /\ 0 <= M' /\ emin <= e1 /\
  ((fexp (Zdigits2 M' + e1) <= e1 /\ e1 <= emax - prec) \/
   (M' = 2 ^ prec /\ fexp (Zdigits2 M' + e1) = e1 + 1 /\ e1 + 1 <= emax - prec)).
Proof.
  intros Hm Hx Hl Hpre Hmax He L1 N1 E1 Same1 M'.
  destruct (round_nearest_even_spec M e1 l1 x L1) as (R & Rb & Rex). fold M' in R, Rb, Rex.
  pose proof emin_neg as Hemin. pose proof (fexp_ge_emin (Zdigits2 m + e)) as Hfe.
  split; [|split; [lia|split; [lia|]]].
  - destruct (Z_le_gt_dec e (fexp (Zdigits2 m + e))) as [Hle|Hgt].
    + pose proof (located_cexp m e l x Hm Hx Hl) as C.
      rewrite Z.max_r in C by lia.
      replace e1 with (fexp (Zdigits2 m + e)) by lia.
      exists (fexp (Zdigits2 m + e)), M'. split; [|split; [|reflexivity]].
      * apply C. intros ->. cbn [Zdigits2] in Hle. unfold SpecFloat.fexp in Hle. lia.
      * replace (fexp (Zdigits2 m + e)) with e1 by lia. exact R.
    + destruct Hpre as [->|Hpre]; [|lia].
      destruct (Same1 ltac:(lia)) as [-> ->].
      assert (M' = m) as -> by (now apply Rex).
      assert (e1 = e) as -> by lia.
      assert (0 < m) as Hm0.
      { destruct (Z.eq_dec m 0) as [->|]; [|lia]. exfalso.
        unfold located in Hl. change (inject_Z 0) with 0%Q in Hl.
        rewrite (scaled_unscale x e), Hl in Hx. lra. }
      pose proof (located_cexp m e loc_Exact x Hm Hx Hl ltac:(lia)) as C.
      rewrite Z.max_r in C by lia.
      set (c0 := fexp (Zdigits2 m + e)) in *.
      assert (scaled x c0 == inject_Z (m * 2 ^ (e - c0)))%Q as Hs.
      { replace c0 with (e + (c0 - e)) at 1 by lia. rewrite scaled_shift.
        unfold located in Hl. rewrite Hl, inject_Z_mult.
        replace (- (c0 - e)) with (e - c0) by lia. now rewrite pow2_Z by lia. }
      exists c0, (m * 2 ^ (e - c0)). split; [exact C|]. split.
      * unfold rne_at. rewrite Hs. split; [lra|]. intros [T|T]; lra.
      * unfold F2Q. rewrite inject_Z_mult, <- pow2_Z by lia.
        rewrite <- Qmult_assoc, <- pow2_add. now replace (e - c0 + c0) with e by lia.
  - destruct (Z_le_gt_dec e (fexp (Zdigits2 m + e))) as [Hle|Hgt].
    + pose proof (located_cexp m e l x Hm Hx Hl) as C.
      rewrite Z.max_r in C by lia.
      assert (e1 = fexp (Zdigits2 m + e)) as E1' by lia.
      destruct C as (C1 & C2 & C3).
      { intros ->. cbn [Zdigits2] in Hle. unfold SpecFloat.fexp in Hle. lia. }
      rewrite <- E1' in C1, C2, C3.
      pose proof (rne_at_upper e1 x M' R C2) as HM'.
      assert (e1 + 1 <= emax - prec) as Hup.
      { destruct C3 as [->|C3]; [unfold SpecFloat.emin; lia|].
        assert (pow2 (e1 + prec - 1) < pow2 (emax - 1))%Q as H by lra.
        apply pow2_lt_inv in H. lia. }
      destruct (Z.eq_dec M' (2 ^ prec)) as [HeqM|HneM].
      * right. split; [exact HeqM|]. split; [|exact Hup].
        rewrite HeqM, Zdigits2_pow2 by lia. unfold SpecFloat.fexp. lia.
      * left. split; [|lia].
        destruct (Z.eq_dec M' 0) as [->|Hn0].
        -- cbn [Zdigits2]. unfold SpecFloat.fexp. lia.
        -- pose proof (Zdigits2_le M' prec ltac:(lia) ltac:(lia) ltac:(lia)).
           unfold SpecFloat.fexp. lia.
    + destruct Hpre as [->|Hpre]; [|lia].
      destruct (Same1 ltac:(lia)) as [-> ->].
      assert (M' = m) as -> by (now apply Rex).
      assert (e1 = e) as -> by lia.
      left. split; lia.
Qed.

(** The renormalisation after rounding keeps the value. *)
Lemma renormalise (M' e1 : Z) :
  0 <= M' -> emin <= e1 ->
  ((fexp (Zdigits2 M' + e1) <= e1 /\ e1 <= emax - prec) \/
   (M' = 2 ^ prec /\ fexp (Zdigits2 M' + e1) = e1 + 1 /\ e1 + 1 <= emax - prec)) ->
  let r := shr_fexp prec emax M' e1 loc_Exact in
  0 <= shr_m (fst r) /\ snd r <= emax - prec /\
  (F2Q (shr_m (fst r)) (snd r) == F2Q M' e1)%Q.
Proof.
  intros HM He Hcase r.
  assert (located M' e1 loc_Exact (F2Q M' e1)) as Hl by apply scaled_F2Q.
  pose proof (shr_fexp_spec M' e1 loc_Exact (F2Q M' e1) HM Hl) as S.
  cbv zeta in S. fold r in S. destruct S as (L2 & N2 & E2 & Same2).
  split; [exact N2|].
  destruct Hcase as [[Hf Hb]|(HeqM & Hf & Hb)].
  - assert (snd r = e1) as E by lia. destruct (Same2 E) as [-> _].
    rewrite E. split; [exact Hb|reflexivity].
  - assert (snd r = e1 + 1) as E by lia. rewrite E in *. split; [exact Hb|].
    assert (shr_m (fst r) = 2 ^ (prec - 1)) as ->.
    { eapply located_integer; [exact L2|].
      rewrite scaled_succ, scaled_F2Q, HeqM.
      replace prec with (Z.succ (prec - 1)) at 1 by lia.
      rewrite Z.pow_succ_r, inject_Z_mult by lia.
      change (inject_Z 2) with 2%Q. ring. }
    rewrite HeqM, !F2Q_pow2 by lia. now replace (prec - 1 + (e1 + 1)) with (prec + e1) by lia.
Qed.

(** What [binary_round_aux] returns for a positive value located with
    enough digits and below the overflow threshold: a float, zero or
    positive, whose value is that value rounded. *)
Theorem binary_round_aux_spec (m e : Z) (l : location) (x : Q) :
  0 <= m -> (0 < x)%Q -> located m e l x ->
  (l = loc_Exact \/ e <= fexp (Zdigits2 m + e)) ->
  (x < pow2 (emax - 1))%Q -> e <= emax - prec ->
  exists v,
    SF2Q (binary_round_aux prec emax false m e l) = Some v /\
    rounds x v /\
    nonneg (binary_round_aux prec emax false m e l).
Proof.
  intros Hm Hx Hl Hpre Hmax He. unfold binary_round_aux.
  pose proof (shr_fexp_spec m e l x Hm Hl) as S1. cbv zeta in S1.
  destruct (shr_fexp prec emax m e l) as [mrs1 e1]. cbn [fst snd] in S1.
  destruct S1 as (L1 & N1 & E1 & Same1).
  pose proof (rounding_step m e l x _ _ _ Hm Hx Hl Hpre Hmax He L1 N1 E1 Same1) as R.
  cbv zeta in R. destruct R as (Rto & RN & Remin & Rcase).
  pose proof (renormalise _ _ RN Remin Rcase) as S2. cbv zeta in S2.
  destruct (shr_fexp prec emax _ e1 loc_Exact) as [mrs2 e2]. cbn [fst snd] in S2.
  destruct S2 as (N2 & B2 & V2).
  destruct (shr_m mrs2) as [|p|p]; [| |lia].
  - exists 0%Q. split; [reflexivity|]. split; [|now left].
    eapply rounds_to_eq; [exact Rto|]. rewrite <- V2. unfold F2Q.
    change (inject_Z 0) with 0%Q. ring.
  - destruct (Z.leb_spec e2 (emax - prec)); [|lia].
    exists (F2Q (Z.pos p) e2). split; [reflexivity|]. split.
    + eapply rounds_to_eq; [exact Rto|]. now rewrite V2.
    + right. eauto.
Qed.

Lemma fexp_mono (a b : Z) : a <= b -> fexp a <= fexp b.
Proof. unfold SpecFloat.fexp. lia. Qed.

(** The quotient and remainder [SFdiv] starts from, for two exact
    integers [k <= n]: [k / n] located with enough digits. *)
Lemma div_core_spec (k n : positive) :
  Z.pos k <= Z.pos n ->
  let r := SFdiv_core_binary prec emax (Z.pos k) 0 (Z.pos n) 0 in
  0 <= fst (fst r) /\
  located (fst (fst r)) (snd (fst r)) (snd r) (inject_Z (Z.pos k) / inject_Z (Z.pos n)) /\
  snd (fst r) <= fexp (Zdigits2 (fst (fst r)) + snd (fst r)) /\
  snd (fst r) <= 0.
Proof.
  intros Hkn r. subst r. unfold SFdiv_core_binary. cbv zeta.
  pose proof emin_neg as Hemin.
  set (d1 := Zdigits2 (Z.pos k)). set (d2 := Zdigits2 (Z.pos n)).
  pose proof (Zdigits2_bounds (Z.pos k) ltac:(lia)) as [K1 K2]. fold d1 in K1, K2.
  pose proof (Zdigits2_bounds (Z.pos n) ltac:(lia)) as [N1 N2]. fold d2 in N1, N2.
  pose proof (Zdigits2_pos (Z.pos k) ltac:(lia)) as D1p. fold d1 in D1p.
  pose proof (Zdigits2_pos (Z.pos n) ltac:(lia)) as D2p. fold d2 in D2p.
  assert (d1 <= d2) as Hd.
  { subst d1. apply Zdigits2_le; lia. }
  replace (d1 + 0 - (d2 + 0)) with (d1 - d2) by lia. change (0 - 0) with 0.
  set (c := fexp (d1 - d2)).
  assert (emin <= c /\ d1 - d2 - prec <= c /\ c < 0 /\
          (c = emin \/ c = d1 - d2 - prec)) as (C1 & C2 & C3 & C4).
  { subst c. unfold SpecFloat.fexp. lia. }
  rewrite Z.min_l by lia.
  destruct (0 - c) as [|s|s] eqn:Es; [lia| |lia].
  rewrite Z.shiftl_mul_pow2 by lia.
  set (S := Z.pos s) in *. assert (S = - c) as HS by lia.
  assert (0 < 2 ^ S) as HpS by (apply Z.pow_pos_nonneg; lia).
  pose proof (Z_div_mod (Z.pos k * 2 ^ S) (Z.pos n) ltac:(lia)) as Hdm.
  destruct (Z.div_eucl (Z.pos k * 2 ^ S) (Z.pos n)) as [q rem].
  destruct Hdm as [Hdiv Hrem]. cbn [fst snd].
  assert (0 <= q) as Hq by nia.
  split; [exact Hq|]. split; [|split; [|lia]].
  - apply new_location_located; [lia|lia|].
    unfold scaled. rewrite <- HS.
    rewrite pow2_Z by lia.
    rewrite <- !inject_Z_mult, <- inject_Z_plus.
    replace (q * Z.pos n + rem) with (Z.pos k * 2 ^ S) by lia.
    rewrite inject_Z_mult. field.
    intros H. apply (inject_Z_injective (Z.pos n) 0) in H. lia.
  - destruct (Z.eq_dec q 0) as [->|Hq0].
    + (* no digit in the quotient: the exponent is the smallest one *)
      cbn [Zdigits2]. rewrite Z.add_0_l.
      destruct C4 as [C4|C4]; [unfold SpecFloat.fexp; lia|exfalso].
      assert (2 ^ d2 <= Z.pos k * 2 ^ S) as Hbig.
      { replace S with ((prec - 1) + (d2 - d1 + 1)) by lia.
        rewrite Z.pow_add_r by lia.
        assert (2 ^ d2 = 2 ^ (d1 - 1) * 2 ^ (d2 - d1 + 1)) as ->.
        { rewrite <- Z.pow_add_r by lia. f_equal. lia. }
        assert (0 < 2 ^ (prec - 1)) by (apply Z.pow_pos_nonneg; lia).
        assert (0 < 2 ^ (d2 - d1 + 1)) by (apply Z.pow_pos_nonneg; lia).
        set (A := 2 ^ (prec - 1)) in *. set (B := 2 ^ (d2 - d1 + 1)) in *.
        apply Z.le_trans with (Z.pos k * B).
        - apply Z.mul_le_mono_nonneg_r; lia.
        - rewrite Z.mul_assoc. apply Z.mul_le_mono_nonneg_r; [lia|]. nia. }
      lia.
    + apply fexp_mono.
      destruct (Z_le_gt_dec (d1 - d2 + S) 0) as [Hle|Hgt].
      * pose proof (Zdigits2_pos q ltac:(lia)). lia.
      * assert (d1 - d2 + S <= Zdigits2 q); [|lia].
        replace (d1 - d2 + S) with ((d1 - d2 + S - 1) + 1) by lia.
        apply Zdigits2_ge; [lia|].
        assert (2 ^ (d1 - d2 + S - 1) * 2 ^ d2 <= Z.pos k * 2 ^ S) as Hbig.
        { rewrite <- Z.pow_add_r by lia.
          replace (d1 - d2 + S - 1 + d2) with ((d1 - 1) + S) by lia.
          rewrite Z.pow_add_r by lia. nia. }
        assert (0 < 2 ^ (d1 - d2 + S - 1)) by (apply Z.pow_pos_nonneg; lia).
        nia.
Qed.

Lemma pow2_emax_big : (2 <= pow2 (emax - 1))%Q.
Proof. rewrite <- pow2_1. apply pow2_le. lia. Qed.

(** [k / n] for two exact integers [0 < k <= n]. *)
Theorem SFdiv_exact_spec (k n : positive) :
  Z.pos k <= Z.pos n ->
  exists v,
    SF2Q (SFdiv prec emax (S754_finite false k 0) (S754_finite false n 0)) = Some v /\
    rounds (inject_Z (Z.pos k) / inject_Z (Z.pos n)) v /\
    nonneg (SFdiv prec emax (S754_finite false k 0) (S754_finite false n 0)).
Proof.
  intros Hkn. unfold SFdiv.
  pose proof (div_core_spec k n Hkn) as H. cbv zeta in H.
  destruct (SFdiv_core_binary prec emax (Z.pos k) 0 (Z.pos n) 0) as [[q e'] l].
  cbn [fst snd] in H. destruct H as (Hq & Hl & Hc & He).
  assert (0 < inject_Z (Z.pos n))%Q as Hn by (apply (Q_of_Zlt 0); lia).
  assert (0 < inject_Z (Z.pos k))%Q as Hk by (apply (Q_of_Zlt 0); lia).
  pose proof pow2_emax_big.
  apply binary_round_aux_spec; [exact Hq| |exact Hl|now right| |lia].
  - apply Qlt_shift_div_l; [exact Hn|]. lra.
  - assert (inject_Z (Z.pos k) / inject_Z (Z.pos n) <= 1)%Q; [|lra].
    apply Qle_shift_div_r; [exact Hn|]. apply Q_of_Zle in Hkn. lra.
Qed.

(** The product of two positive floats, the second of which has an
    exponent of at most 0. *)
Theorem SFmul_spec (mx my : positive) (ex ey : Z) :
  ex <= emax - prec -> ey <= 0 ->
  (F2Q (Z.pos mx) ex * F2Q (Z.pos my) ey < pow2 (emax - 1))%Q ->
  exists v,
    SF2Q (SFmul prec emax (S754_finite false mx ex) (S754_finite false my ey)) = Some v /\
    rounds (F2Q (Z.pos mx) ex * F2Q (Z.pos my) ey) v /\
    nonneg (SFmul prec emax (S754_finite false mx ex) (S754_finite false my ey)).
Proof.
  intros Hex Hey Hmax. unfold SFmul. cbn [xorb].
  assert (forall (p : positive) (e : Z), 0 < F2Q (Z.pos p) e)%Q as Hpos.
  { intros p e. unfold F2Q. apply Qmult_lt_0_compat; [apply (Q_of_Zlt 0); lia|].
    apply pow2_pos. }
  apply binary_round_aux_spec; [lia| | |now left|exact Hmax|lia].
  - apply Qmult_lt_0_compat; apply Hpos.
  - unfold located, scaled, F2Q.
    change (Z.pos (mx * my)) with (Z.pos mx * Z.pos my). rewrite inject_Z_mult.
    replace (- (ex + ey)) with (- ex + - ey) by lia. rewrite pow2_add.
    pose proof (pow2_opp ex) as H1. pose proof (pow2_opp ey) as H2.
    set (a := pow2 ex) in *. set (a' := pow2 (- ex)) in *.
    set (b := pow2 ey) in *. set (b' := pow2 (- ey)) in *.
    transitivity (inject_Z (Z.pos mx) * inject_Z (Z.pos my) * (a' * a) * (b' * b))%Q;
      [ring|]. rewrite H1, H2. ring.
Qed.

End Format.

(** * binary64: the percentage of the progress reports *)

Abbreviation rounds64 := (rounds_to PyFloat.prec PyFloat.emax).

Lemma prec64_gt_1 : 1 < PyFloat.prec.
Proof. reflexivity. Qed.

Lemma prec64_lt_emax : PyFloat.prec < PyFloat.emax.
Proof. reflexivity. Qed.

Lemma of_int_100 : PyFloat.of_int 100 = S754_finite false 7036874417766400 (-46).
Proof. vm_compute. reflexivity. Qed.

Lemma F2Q_100 : (F2Q 7036874417766400 (-46) == 100)%Q.
Proof. vm_compute. reflexivity. Qed.

(** 1 and 100 are binary64 numbers. *)
Lemma rounds64_1 : rounds64 1 1.
Proof.
  exists (-52), (2 ^ 52). split; [|split].
  - split; [vm_compute; discriminate|]. split; [reflexivity|].
    right. vm_compute. discriminate.
  - unfold rne_at. assert (scaled 1 (-52) == inject_Z (2 ^ 52))%Q as -> by reflexivity.
    split; [lra|]. intros [T|T]; lra.
  - reflexivity.
Qed.

Lemma rounds64_100 : rounds64 100 100.
Proof.
  exists (-46), 7036874417766400. split; [|split].
  - split; [vm_compute; discriminate|]. split; [reflexivity|].
    right. vm_compute. discriminate.
  - unfold rne_at.
    assert (scaled 100 (-46) == inject_Z 7036874417766400)%Q as -> by reflexivity.
    split; [lra|]. intros [T|T]; lra.
  - reflexivity.
Qed.

Lemma rounds64_mono (x y v w : Q) :
  rounds64 x v -> rounds64 y w -> (x <= y)%Q -> (v <= w)%Q.
Proof. apply rounds_to_mono. exact prec64_gt_1. Qed.

(** What [int(k / n * 100)] computes for [1 <= k <= n]: the quotient
    rounded, its product with 100 rounded, and the floor of that. *)
Lemma percent_spec (k n : Z) :
  1 <= k <= n ->
  exists p vq vp,
    PyFloat.percent k n = Some p /\
    rounds64 (inject_Z k / inject_Z n) vq /\
    (0 <= vq)%Q /\ (0 <= vp)%Q /\
    ((vq == 0)%Q /\ (vp == 0)%Q \/ (0 < vq)%Q /\ rounds64 (vq * 100) vp) /\
    (inject_Z p <= vp /\ vp < inject_Z p + 1)%Q.
Proof.
  intros Hkn. unfold PyFloat.percent, PyFloat.int_truediv, PyFloat.mul_int,
    PyFloat.int_of_float.
  destruct (Z.eqb_spec n 0) as [|_]; [lia|].
  destruct k as [|k|k]; try lia. destruct n as [|n|n]; try lia. cbn [PyFloat.exact].
  destruct (SFdiv_exact_spec _ _ prec64_gt_1 prec64_lt_emax k n ltac:(lia))
    as (vq & Hvq & Rq & Fq).
  rewrite of_int_100.
  assert (rounds64 1 1) as R1 by exact rounds64_1.
  assert (inject_Z (Z.pos k) / inject_Z (Z.pos n) <= 1)%Q as Hle1.
  { apply Qle_shift_div_r; [apply (Q_of_Zlt 0); lia|].
    assert (inject_Z (Z.pos k) <= inject_Z (Z.pos n))%Q by (apply Q_of_Zle; lia). lra. }
  pose proof (rounds64_mono _ _ _ _ Rq R1 Hle1) as Hvq1.
  destruct Fq as [Fq|(mq & eq & Fq & Heq)]; rewrite Fq in *.
  - injection Hvq as <-. exists 0, 0%Q, 0%Q.
    split; [reflexivity|]. split; [exact Rq|].
    split; [lra|]. split; [lra|]. split; [left; split; reflexivity|].
    change (inject_Z 0) with 0%Q. lra.
  - injection Hvq as <-.
    assert (0 < F2Q (Z.pos mq) eq)%Q as Hqpos.
    { unfold F2Q. apply Qmult_lt_0_compat; [apply (Q_of_Zlt 0); lia|apply pow2_pos]. }
    assert (F2Q (Z.pos mq) eq * F2Q 7036874417766400 (-46)
            < pow2 (PyFloat.emax - 1))%Q as Hmax.
    { rewrite F2Q_100.
      assert (pow2 7 <= pow2 (PyFloat.emax - 1))%Q as H7 by (apply pow2_le; vm_compute; discriminate).
      assert (pow2 7 == 128)%Q as E7 by reflexivity. lra. }
    destruct (SFmul_spec _ _ prec64_gt_1 prec64_lt_emax mq 7036874417766400 eq (-46)
                Heq ltac:(lia) Hmax) as (vp & Hvp & Rp & Fp).
    assert (rounds64 (F2Q (Z.pos mq) eq * 100) vp) as Rp'.
    { destruct Rp as (c & M & C & R & E). exists c, M.
      assert (F2Q (Z.pos mq) eq * F2Q 7036874417766400 (-46)
              == F2Q (Z.pos mq) eq * 100)%Q as Ex by (rewrite F2Q_100; reflexivity).
      unfold cexp_of, rne_at, scaled in *. rewrite <- Ex. auto. }
    assert (0 <= vp)%Q as Hvp0.
    { destruct Fp as [Fp|(mp & ep & Fp & _)]; rewrite Fp in Hvp; injection Hvp as <-;
        [lra|]. unfold F2Q. apply Qmult_le_0_compat; [apply (Q_of_Zle 0); lia|].
      apply Qlt_le_weak, pow2_pos. }
    destruct Fp as [Fp|(mp & ep & Fp & _)]; rewrite Fp in *.
    + injection Hvp as <-. exists 0, (F2Q (Z.pos mq) eq), 0%Q.
      split; [reflexivity|]. split; [exact Rq|]. split; [lra|]. split; [lra|].
      split; [right; split; assumption|]. change (inject_Z 0) with 0%Q. lra.
    + injection Hvp as <-. destruct (trunc_spec mp ep) as (t & Ht & Hfloor).
      exists t, (F2Q (Z.pos mq) eq), (F2Q (Z.pos mp) ep).
      split; [exact Ht|]. split; [exact Rq|]. split; [lra|]. split; [exact Hvp0|].
      split; [right; split; assumption|exact Hfloor].
Qed.

Lemma percent_defined (k n : Z) :
  1 <= k <= n -> exists p, PyFloat.percent k n = Some p.
Proof.
  intros H. destruct (percent_spec k n H) as (p & _ & _ & Hp & _). now exists p.
Qed.

(** The percentage never decreases as tiles are counted. *)
Lemma percent_mono (k1 k2 n p1 p2 : Z) :
  1 <= k1 <= k2 -> k2 <= n ->
  PyFloat.percent k1 n = Some p1 -> PyFloat.percent k2 n = Some p2 -> p1 <= p2.
Proof.
  intros H12 H2n E1 E2.
  destruct (percent_spec k1 n ltac:(lia)) as (q1 & vq1 & vp1 & E1' & R1 & Q1 & P1 & C1 & F1).
  destruct (percent_spec k2 n ltac:(lia)) as (q2 & vq2 & vp2 & E2' & R2 & Q2 & P2 & C2 & F2).
  rewrite E1 in E1'. injection E1' as <-. rewrite E2 in E2'. injection E2' as <-.
  assert (0 < inject_Z n)%Q as Hn by (apply (Q_of_Zlt 0); lia).
  assert (inject_Z k1 / inject_Z n <= inject_Z k2 / inject_Z n)%Q as Hx.
  { unfold Qdiv. apply Qmult_le_compat_r; [apply Q_of_Zle; lia|].
    apply Qlt_le_weak, Qinv_lt_0_compat, Hn. }
  pose proof (rounds64_mono _ _ _ _ R1 R2 Hx) as Hq.
  assert (vp1 <= vp2)%Q as Hp.
  { destruct C1 as [[Z1 Z1']|[N1 Rp1]]; [lra|].
    destruct C2 as [[Z2 Z2']|[N2 Rp2]]; [lra|].
    apply (rounds64_mono _ _ _ _ Rp1 Rp2). lra. }
  assert (inject_Z p1 < inject_Z (p2 + 1))%Q as H by (rewrite inject_Z_succ; lra).
  apply Zlt_of_Q in H. lia.
Qed.

(** The last tile is reported as 100. *)
Lemma percent_full (n : Z) : 1 <= n -> PyFloat.percent n n = Some 100.
Proof.
  intros Hn.
  destruct (percent_spec n n ltac:(lia)) as (p & vq & vp & E & R & Q0 & P0 & C & F).
  rewrite E. f_equal.
  assert (0 < inject_Z n)%Q as Hnq by (apply (Q_of_Zlt 0); lia).
  assert (inject_Z n / inject_Z n == 1)%Q as H1 by (field; lra).
  assert (vq == 1)%Q as Hvq.
  { apply Qle_antisym.
    - apply (rounds64_mono _ _ _ _ R rounds64_1). lra.
    - apply (rounds64_mono _ _ _ _ rounds64_1 R). lra. }
  destruct C as [[Z1 _]|[_ Rp]]; [lra|].
  assert (vp == 100)%Q as Hvp.
  { apply Qle_antisym.
    - apply (rounds64_mono _ _ _ _ Rp rounds64_100). lra.
    - apply (rounds64_mono _ _ _ _ rounds64_100 Rp). lra. }
  assert (p < 101) as Ha by (apply Zlt_of_Q; change (inject_Z 101) with 101%Q; lra).
  assert (100 < p + 1) as Hb
      by (apply Zlt_of_Q; rewrite inject_Z_succ; change (inject_Z 100) with 100%Q; lra).
  lia.
Qed.

(* ===================================================================== *)
(** * Lists, ranges and loops *)
(* ===================================================================== *)

Lemma filter_none {A} (P : A -> bool) (l : list A) :
  (forall a, In a l -> P a = false) -> List.filter P l = [].
Proof.
  induction l as [|a l IH]; intros H; simpl; [reflexivity|].
  rewrite (H a (or_introl eq_refl)). apply IH. intros b Hb. apply H. now right.
Qed.

Lemma filter_seq_unique (P : nat -> bool) (n i0 : nat) :
  (i0 < n)%nat ->
  (forall i, (i < n)%nat -> P i = true <-> i = i0) ->
  List.filter P (seq 0 n) = [i0].
Proof.
  revert i0. induction n as [|n IH]; intros i0 Hlt HP; [lia|].
  rewrite seq_S, List.filter_app. simpl.
  destruct (Nat.eq_dec i0 n) as [->|Hne].
  - rewrite (proj2 (HP n (Nat.lt_succ_diag_r n)) eq_refl).
    rewrite filter_none; [reflexivity|].
    intros i Hi. apply in_seq in Hi.
    destruct (P i) eqn:E; [|reflexivity].
    apply HP in E; lia.
  - destruct (P n) eqn:E.
    + apply HP in E; lia.
    + rewrite app_nil_r. apply IH; [lia|].
      intros i Hi. apply HP. lia.
Qed.

Lemma filter_list_prod {A B} (P : A -> bool) (Q : B -> bool) (la : list A) (lb : list B) :
  List.filter (fun ab => P (fst ab) && Q (snd ab)) (list_prod la lb)
  = list_prod (List.filter P la) (List.filter Q lb).
Proof.
  induction la as [|a la IH]; simpl; [reflexivity|].
  rewrite List.filter_app, IH, filter_map_swap. simpl.
  destruct (P a); simpl.
  - reflexivity.
  - now rewrite filter_false.
Qed.

Lemma py_range_In (n T x : Z) :
  1 <= T -> In x (py_range 0 n T) <-> exists i, 0 <= i /\ x = i * T /\ x < n.
Proof.
  intros HT. unfold py_range.
  destruct (Z.ltb_spec 0 T) as [_|]; [|lia].
  rewrite in_map_iff. split.
  - intros (k & <- & Hk). apply in_seq in Hk. exists (Z.of_nat k).
    split; [lia|]. split; [lia|].
    assert (Z.of_nat k + 1 <= (n - 0 + T - 1) / T) as Hlt by lia.
    pose proof (Z.mul_div_le (n - 0 + T - 1) T ltac:(lia)). nia.
  - intros (i & Hi & -> & Hlt). exists (Z.to_nat i). split; [lia|].
    apply in_seq. split; [lia|]. simpl.
    assert (i + 1 <= (n - 0 + T - 1) / T); [|lia].
    apply Z.div_le_lower_bound; nia.
Qed.

(** On the origins of the grid, the slice a tile is placed into is the
    interval the claim describes. *)
Lemma in_slice_origin (n T s x p : Z) :
  1 <= T -> 1 <= s -> 0 <= x < n ->
  in_slice (x * s) (Z.min (n * s) (x * s + T * s)) (n * s) p = true
  <-> x * s <= p < Z.min n (x + T) * s.
Proof.
  intros HT Hs Hx. unfold in_slice, slice_start, slice_len, slice_bound.
  assert (0 <= x * s) by nia.
  assert (x * s < n * s) by nia.
  assert (Z.min n (x + T) * s = Z.min (n * s) (x * s + T * s)) as -> by nia.
  destruct (Z.ltb_spec (x * s) 0); [lia|].
  destruct (Z.ltb_spec (Z.min (n * s) (x * s + T * s)) 0); [nia|].
  rewrite andb_true_iff, Z.leb_le, Z.ltb_lt. lia.
Qed.

Lemma range_cover_unique (n T s p : Z) :
  1 <= T -> 1 <= s -> 0 <= p < n * s ->
  List.filter (fun x => in_slice (x * s) (Z.min (n * s) (x * s + T * s)) (n * s) p)
              (py_range 0 n T)
  = [p / (T * s) * T].
Proof.
  intros HT Hs Hp.
  assert (0 < T * s) as HTs by nia.
  pose proof (Z.div_pos p (T * s) ltac:(lia) HTs) as Hq0.
  pose proof (Z.mul_div_le p (T * s) HTs) as Hq1.
  pose proof (Z.mul_succ_div_gt p (T * s) HTs) as Hq2.
  set (q := p / (T * s)) in *.
  assert (q * T < n) as Hqn by nia.
  unfold py_range. destruct (Z.ltb_spec 0 T) as [_|]; [|lia].
  rewrite filter_map_swap.
  rewrite (filter_seq_unique _ _ (Z.to_nat q)).
  - simpl. f_equal. lia.
  - assert (q + 1 <= (n - 0 + T - 1) / T); [|lia].
    apply Z.div_le_lower_bound; nia.
  - intros i Hi. simpl.
    assert (Z.of_nat i + 1 <= (n - 0 + T - 1) / T) as Hlt by lia.
    pose proof (Z.mul_div_le (n - 0 + T - 1) T ltac:(lia)).
    rewrite !Z.add_0_l.
    rewrite in_slice_origin by nia.
    assert (Z.min n (Z.of_nat i * T + T) * s = Z.min (n * s) ((Z.of_nat i + 1) * (T * s)))
      as -> by nia.
    split.
    + intros [H1 H2].
      assert (Z.of_nat i = q); [|lia].
      assert (Z.of_nat i < q + 1) by nia.
      assert (q < Z.of_nat i + 1) by nia. lia.
    + intros ->. rewrite Z2Nat.id by lia. nia.
Qed.

Lemma for_loop_app {I S E} (body : I -> S -> E + S) (l1 l2 : list I) (s : S) :
  for_loop body (l1 ++ l2) s =
  match for_loop body l1 s with
  | inl e => inl e
  | inr s' => for_loop body l2 s'
  end.
Proof.
  revert s. induction l1 as [|i l1 IH]; intros s; simpl; [reflexivity|].
  destruct (body i s); [reflexivity|apply IH].
Qed.

Lemma for_loop_map {I J S E} (f : I -> J) (body : J -> S -> E + S) (l : list I) (s : S) :
  for_loop body (map f l) s = for_loop (fun i => body (f i)) l s.
Proof.
  revert s. induction l as [|i l IH]; intros s; simpl; [reflexivity|].
  destruct (body (f i) s); [reflexivity|apply IH].
Qed.

(** Two nested loops are one loop over the pairs, in row-major order. *)
Lemma for_loop_nested {S E} (body : Z -> Z -> S -> E + S) (ys xs : list Z) (s : S) :
  for_loop (fun y => for_loop (body y) xs) ys s
  = for_loop (fun c => body (fst c) (snd c)) (list_prod ys xs) s.
Proof.
  revert s. induction ys as [|y ys IH]; intros s; simpl; [reflexivity|].
  rewrite for_loop_app, for_loop_map. simpl.
  destruct (for_loop (body y) xs s); [reflexivity|apply IH].
Qed.

(* ===================================================================== *)
(** * The destination rectangles *)
(* ===================================================================== *)

Section Partition.

Variable self : ImageProcessor.
Variable img : ndarray Z.
Variable scale : Z.

Hypothesis tile_size_pos : 1 <= tile_size self.
Hypothesis scale_pos : 1 <= scale.

Lemma grid_In (x y : Z) :
  In (y, x) (grid self img) <->
  (exists i, 0 <= i /\ y = i * tile_size self /\ y < dim0 img) /\
  (exists i, 0 <= i /\ x = i * tile_size self /\ x < dim1 img).
Proof.
  unfold grid. rewrite in_prod_iff, !py_range_In by assumption. reflexivity.
Qed.

Lemma dest_covers_spec (x y i j : Z) :
  In (y, x) (grid self img) ->
  dest_covers self img scale x y i j = true <->
  y * scale <= i < Z.min (dim0 img) (y + tile_size self) * scale /\
  x * scale <= j < Z.min (dim1 img) (x + tile_size self) * scale.
Proof.
  rewrite grid_In. intros [(a & Ha & -> & Hy) (b & Hb & -> & Hx)].
  unfold dest_covers, out_y1, out_y2, out_x1, out_x2.
  rewrite andb_true_iff, !in_slice_origin by nia. reflexivity.
Qed.

Lemma cover_unique (i j : Z) :
  0 <= i < dim0 img * scale -> 0 <= j < dim1 img * scale ->
  List.filter (fun cell => dest_covers self img scale (snd cell) (fst cell) i j)
              (grid self img)
  = [(i / (tile_size self * scale) * tile_size self,
      j / (tile_size self * scale) * tile_size self)].
Proof.
  intros Hi Hj. unfold grid, dest_covers, out_y1, out_y2, out_x1, out_x2.
  rewrite (filter_list_prod
             (fun y => in_slice (y * scale)
                         (Z.min (dim0 img * scale) (y * scale + tile_size self * scale))
                         (dim0 img * scale) i)
             (fun x => in_slice (x * scale)
                         (Z.min (dim1 img * scale) (x * scale + tile_size self * scale))
                         (dim1 img * scale) j)).
  rewrite !range_cover_unique by assumption. reflexivity.
Qed.

End Partition.

(* ===================================================================== *)
(** * Placing one tile *)
(* ===================================================================== *)

Lemma setslice_shape (a : ndarray Z) (y1 y2 x1 x2 : Z) (v a' : ndarray Z) :
  setslice a y1 y2 x1 x2 v = inr a' -> shape a' = shape a.
Proof.
  unfold setslice. destruct (_ && _); [|discriminate].
  intros [= <-]. reflexivity.
Qed.

Lemma setslice_item (a : ndarray Z) (y1 y2 x1 x2 : Z) (v a' : ndarray Z) (i j k : Z) :
  setslice a y1 y2 x1 x2 v = inr a' ->
  item a' i j k =
  if in_slice y1 y2 (dim0 a) i && in_slice x1 x2 (dim1 a) j
  then item v (bindex (dim0 v) (i - slice_start y1 (dim0 a)))
              (bindex (dim1 v) (j - slice_start x1 (dim1 a)))
              (bindex (dim2 v) k)
  else item a i j k.
Proof.
  unfold setslice. destruct (_ && _ && _); [|discriminate].
  intros [= <-]. reflexivity.
Qed.

(** Whether an assignment raises depends on the shape of the target only. *)
Lemma setslice_same_shape (a b : ndarray Z) (y1 y2 x1 x2 : Z) (v : ndarray Z) :
  shape a = shape b ->
  match setslice a y1 y2 x1 x2 v, setslice b y1 y2 x1 x2 v with
  | inl e, inl e' => e = e'
  | inr a', inr b' =>
      forall i j k,
        in_slice y1 y2 (dim0 a) i && in_slice x1 x2 (dim1 a) j = true ->
        item a' i j k = item b' i j k
  | _, _ => False
  end.
Proof.
  unfold shape. intros [= H0 H1 H2]. unfold setslice.
  rewrite H0, H1, H2. destruct (_ && _ && _); [|reflexivity].
  intros i j k Hin. simpl. rewrite Hin. reflexivity.
Qed.

Section PlaceTile.

Variable self : ImageProcessor.
Variable model : tensor -> exn + tensor.
Variable img : ndarray Z.
Variable scale : Z.

Abbreviation blank := (blank_canvas img scale).
Abbreviation place := (place_tile self model img scale).

Lemma place_tile_shape (x y : Z) (out out' : ndarray Z) :
  place x y out = inr out' -> shape out' = shape out.
Proof.
  unfold place_tile. destruct (tile_part _ _ _ _ _ _); [discriminate|].
  apply setslice_shape.
Qed.

Lemma next_output_shape (x y : Z) (out : ndarray Z) :
  shape (next_output self model img scale x y out) = shape out.
Proof.
  unfold next_output. destruct (place x y out) eqn:E; [reflexivity|].
  eapply place_tile_shape, E.
Qed.

(** A placement leaves the pixels outside its rectangle as they were. *)
Lemma next_output_frame (x y : Z) (out : ndarray Z) (i j k : Z) :
  shape out = shape blank ->
  dest_covers self img scale x y i j = false ->
  item (next_output self model img scale x y out) i j k = item out i j k.
Proof.
  unfold shape. simpl. intros [= H0 H1 H2] Hc.
  unfold next_output, place_tile.
  destruct (tile_part _ _ _ _ _ _) as [e|part]; [reflexivity|].
  destruct (setslice _ _ _ _ _ _) as [e|out'] eqn:E; [reflexivity|].
  rewrite (setslice_item _ _ _ _ _ _ _ _ _ _ E), H0, H1.
  unfold dest_covers in Hc. now rewrite Hc.
Qed.

(** Whether a tile raises, and what it writes, do not depend on what the
    canvas holds. *)
Lemma place_tile_blank (x y : Z) (out : ndarray Z) :
  shape out = shape blank ->
  match place x y out, place x y blank with
  | inl e, inl e' => e = e'
  | inr o, inr o' =>
      forall i j k, dest_covers self img scale x y i j = true ->
                    item o i j k = item o' i j k
  | _, _ => False
  end.
Proof.
  intros Hs. unfold place_tile.
  destruct (tile_part _ _ _ _ _ _) as [e|part]; [reflexivity|].
  pose proof (setslice_same_shape out blank (out_y1 scale y) (out_y2 self img scale y)
                (out_x1 scale x) (out_x2 self img scale x) part Hs) as H.
  destruct (setslice out _ _ _ _ _), (setslice blank _ _ _ _ _); try exact H.
  intros i j k Hc. apply H.
  unfold shape in Hs. simpl in Hs. injection Hs as H0 H1 _.
  rewrite H0, H1. exact Hc.
Qed.

Lemma outputs_after_cons (cell : Z * Z) (cells : list (Z * Z)) (out : ndarray Z) :
  outputs_after self model img scale (cell :: cells) out =
  outputs_after self model img scale cells
    (next_output self model img scale (snd cell) (fst cell) out).
Proof. reflexivity. Qed.

Lemma outputs_after_shape (cells : list (Z * Z)) (out : ndarray Z) :
  shape (outputs_after self model img scale cells out) = shape out.
Proof.
  revert out. induction cells as [|cell cells IH]; intros out; [reflexivity|].
  rewrite outputs_after_cons, IH. apply next_output_shape.
Qed.

Lemma outputs_after_uncovered (cells : list (Z * Z)) (out : ndarray Z) (i j k : Z) :
  shape out = shape blank ->
  List.filter (fun cell => dest_covers self img scale (snd cell) (fst cell) i j) cells = [] ->
  item (outputs_after self model img scale cells out) i j k = item out i j k.
Proof.
  revert out. induction cells as [|cell cells IH]; intros out Hs Hf; [reflexivity|].
  simpl in Hf.
  destruct (dest_covers self img scale (snd cell) (fst cell) i j) eqn:Hc; [discriminate|].
  rewrite outputs_after_cons, IH.
  - now apply next_output_frame.
  - now rewrite next_output_shape.
  - exact Hf.
Qed.

(** A pixel that one cell covers ends as that cell's placement on the
    blank canvas leaves it. *)
Lemma outputs_after_covered (cells : list (Z * Z)) (out : ndarray Z) (x y i j k : Z) :
  shape out = shape blank ->
  List.filter (fun cell => dest_covers self img scale (snd cell) (fst cell) i j) cells
    = [(y, x)] ->
  item (outputs_after self model img scale cells out) i j k =
  match place x y blank with
  | inr o => item o i j k
  | inl _ => item out i j k
  end.
Proof.
  revert out. induction cells as [|cell cells IH]; intros out Hs Hf; [discriminate|].
  simpl in Hf. rewrite outputs_after_cons.
  destruct (dest_covers self img scale (snd cell) (fst cell) i j) eqn:Hc.
  - injection Hf as Hcell Hrest. destruct cell as [y' x']. simpl in *.
    injection Hcell as -> ->.
    rewrite outputs_after_uncovered by (try rewrite next_output_shape; assumption).
    unfold next_output.
    pose proof (place_tile_blank x y out Hs) as H.
    destruct (place x y out), (place x y blank); try contradiction; auto.
  - rewrite IH by (try rewrite next_output_shape; assumption).
    destruct (place x y blank); [|reflexivity].
    now apply next_output_frame.
Qed.

End PlaceTile.

Section TilingLoop.

Variable self : ImageProcessor.
Variable model : tensor -> exn + tensor.
Variable img : ndarray Z.
Variable scale : Z.
Variable callback : bool.
Variable total_tiles : Z.

Abbreviation blank' := (blank_canvas img scale).
Abbreviation place' := (place_tile self model img scale).

Lemma expected_events_cons (y x : Z) (cells : list (Z * Z)) (done : Z) :
  expected_events self model img scale callback total_tiles ((y, x) :: cells) done
  = expected_events self model img scale callback total_tiles [(y, x)] done ++ expected_events self model img scale callback total_tiles cells (done + 1).
Proof. cbn [expected_events]. now rewrite <- !app_assoc. Qed.

(** One iteration that does not raise: the first tile is placed, or the
    tile is not the first. *)
Lemma tile_iteration_spec (y x : Z) (st : tiling_state) :
  shape (output st) = shape blank' ->
  (tiles_processed st = 0 -> exists o, place' x y blank' = inr o) ->
  (callback = true ->
   exists p, PyFloat.percent (tiles_processed st + 1) total_tiles = Some p) ->
  tile_iteration self model img scale callback total_tiles y x st
  = inr {| output := next_output self model img scale x y (output st);
           tiles_processed := tiles_processed st + 1;
           events := events st ++ expected_events self model img scale callback total_tiles [(y, x)] (tiles_processed st) |}.
Proof.
  intros Hs Hfirst Hpct.
  pose proof (place_tile_blank self model img scale x y (output st) Hs) as Hpl.
  unfold tile_iteration, next_output. cbn [expected_events].
  destruct (place' x y (output st)) as [e|o] eqn:E1,
           (place' x y blank') as [e'|o'] eqn:E2; try contradiction.
  - subst e'. destruct (Z.eqb_spec (tiles_processed st) 0) as [H0|H0].
    { destruct (Hfirst H0) as [o Ho]. discriminate. }
    destruct callback.
    + destruct (Hpct eq_refl) as [p ->]. now rewrite <- ?app_assoc, ?app_nil_r.
    + now rewrite <- ?app_assoc, ?app_nil_r.
  - destruct callback.
    + destruct (Hpct eq_refl) as [p ->]. now rewrite <- ?app_assoc, ?app_nil_r.
    + now rewrite <- ?app_assoc, ?app_nil_r.
Qed.

Lemma tiling_loop_spec (cells : list (Z * Z)) (st : tiling_state) :
  shape (output st) = shape blank' ->
  0 <= tiles_processed st ->
  (tiles_processed st = 0 ->
   match cells with
   | [] => True
   | (y, x) :: _ => exists o, place' x y blank' = inr o
   end) ->
  (callback = true ->
   forall k, tiles_processed st < k <= tiles_processed st + Z.of_nat (length cells) ->
             exists p, PyFloat.percent k total_tiles = Some p) ->
  for_loop (fun cell => tile_iteration self model img scale callback total_tiles
                          (fst cell) (snd cell)) cells st
  = inr {| output := outputs_after self model img scale cells (output st);
           tiles_processed := tiles_processed st + Z.of_nat (length cells);
           events := events st ++ expected_events self model img scale callback total_tiles cells (tiles_processed st) |}.
Proof.
  revert st. induction cells as [|[y x] cells IH]; intros st Hs Hn Hfirst Hpct.
  - simpl. rewrite Z.add_0_r, app_nil_r. now destruct st.
  - cbn [for_loop fst snd].
    rewrite tile_iteration_spec; [|assumption..|].
    + rewrite IH; cbn [output tiles_processed events].
      * rewrite (expected_events_cons y x cells (tiles_processed st)), app_assoc.
        simpl length. do 2 f_equal. lia.
      * now rewrite next_output_shape.
      * lia.
      * intros H0. lia.
      * intros Hc k Hk. apply (Hpct Hc). simpl length. lia.
    + intros Hc. apply (Hpct Hc). simpl length. lia.
Qed.

End TilingLoop.

(* ===================================================================== *)
(** * A whole run of [process_image_with_tiling] *)
(* ===================================================================== *)

Lemma py_range_length (n T : Z) :
  1 <= T -> 0 <= n -> Z.of_nat (length (py_range 0 n T)) = (n + T - 1) / T.
Proof.
  intros HT Hn. unfold py_range. destruct (Z.ltb_spec 0 T); [|lia].
  rewrite length_map, length_seq, Z.sub_0_r.
  apply Z2Nat.id. apply Z.div_pos; lia.
Qed.

Lemma py_range_head (n T : Z) :
  1 <= T -> 1 <= n -> exists rest, py_range 0 n T = 0 :: rest.
Proof.
  intros HT Hn. unfold py_range. destruct (Z.ltb_spec 0 T); [|lia].
  assert (1 <= (n - 0 + T - 1) / T) as H1 by (apply Z.div_le_lower_bound; lia).
  destruct (Z.to_nat ((n - 0 + T - 1) / T)) as [|m] eqn:E; [lia|].
  simpl. eexists. reflexivity.
Qed.

Section Run.

Variable self : ImageProcessor.
Variable model : tensor -> exn + tensor.
Variable img : ndarray Z.
Variable scale : Z.
Variable callback : bool.

Hypothesis tile_size_pos : 1 <= tile_size self.
Hypothesis scale_nonneg : 0 <= scale.
Hypothesis rows_nonneg : 0 <= dim0 img.
Hypothesis cols_nonneg : 0 <= dim1 img.
Hypothesis chans_nonneg : 0 <= dim2 img.

Lemma grid_length : Z.of_nat (length (grid self img)) = total_tiles_of self img.
Proof.
  unfold grid, total_tiles_of. rewrite length_prod, Nat2Z.inj_mul.
  rewrite !py_range_length by assumption. lia.
Qed.

Lemma grid_head :
  1 <= dim0 img -> 1 <= dim1 img -> exists rest, grid self img = (0, 0) :: rest.
Proof.
  intros H0 H1. unfold grid.
  destruct (py_range_head (dim0 img) _ tile_size_pos H0) as [ys ->].
  destruct (py_range_head (dim1 img) _ tile_size_pos H1) as [xs ->].
  simpl. eexists. reflexivity.
Qed.

Lemma tiling_body_loop :
  tiling_body self model img scale callback
  = for_loop (fun cell => tile_iteration self model img scale callback
                            (total_tiles_of self img)
                            (fst cell) (snd cell))
             (grid self img)
             {| output := blank_canvas img scale; tiles_processed := 0; events := [] |}.
Proof.
  unfold tiling_body, np_zeros.
  destruct (Z.ltb_spec (dim0 img * scale) 0); [nia|].
  destruct (Z.ltb_spec (dim1 img * scale) 0); [nia|].
  destruct (Z.ltb_spec (dim2 img) 0); [lia|]. simpl.
  destruct (Z.eqb_spec (tile_size self) 0); [lia|].
  now rewrite for_loop_nested.
Qed.

(** A run whose first tile does not raise returns the canvas on which the
    tiles that did not raise are placed, after the events of every cell of
    the grid. *)
Lemma run_succeeds :
  (forall e, ~ tile_raises self model img scale 0 0 e) ->
  process_image_with_tiling self model img scale callback
  = (inr (outputs_after self model img scale (grid self img) (blank_canvas img scale)),
     expected_events self model img scale callback (total_tiles_of self img)
                     (grid self img) 0).
Proof.
  intros Hfirst. unfold process_image_with_tiling.
  rewrite tiling_body_loop, tiling_loop_spec; cbn [output tiles_processed events].
  - reflexivity.
  - reflexivity.
  - lia.
  - intros _. destruct (grid self img) as [|[y x] rest] eqn:E; [exact I|].
    assert (In (y, x) (grid self img)) as Hin by (rewrite E; now left).
    assert (1 <= dim0 img /\ 1 <= dim1 img) as [H0 H1].
    { apply grid_In in Hin; [|assumption].
      destruct Hin as [(a & ? & ? & ?) (b & ? & ? & ?)]. nia. }
    destruct (grid_head H0 H1) as [rest' E'].
    rewrite E in E'. injection E' as -> -> _.
    destruct (place_tile self model img scale 0 0 (blank_canvas img scale)) as [e|o] eqn:Ep.
    + now destruct (Hfirst e).
    + now exists o.
  - intros _ k Hk. apply percent_defined. rewrite <- grid_length. lia.
Qed.

(** A run whose first tile raises ends there, with that exception wrapped
    into an [ImageProcessingError]; the callback has not been called. *)
Lemma run_fails (e : exn) :
  1 <= dim0 img -> 1 <= dim1 img ->
  tile_raises self model img scale 0 0 e ->
  process_image_with_tiling self model img scale callback
  = (inl (ImageProcessingError "Error processing image with tiling" e),
     [TileStarted 0 0; TileError 0 0 e]).
Proof.
  intros H0 H1 He. unfold process_image_with_tiling.
  rewrite tiling_body_loop.
  destruct (grid_head H0 H1) as [rest ->].
  cbn [for_loop fst snd]. unfold tile_iteration. cbn [output tiles_processed events].
  unfold tile_raises in He. rewrite He. reflexivity.
Qed.

End Run.

(* ===================================================================== *)
(** * The events of a run *)
(* ===================================================================== *)

Lemma callback_values_app (l1 l2 : list event) :
  callback_values (l1 ++ l2) = callback_values l1 ++ callback_values l2.
Proof. apply flat_map_app. Qed.

Lemma tiles_started_app (l1 l2 : list event) :
  tiles_started (l1 ++ l2) = tiles_started l1 ++ tiles_started l2.
Proof. apply flat_map_app. Qed.

Section Events.

Variable self : ImageProcessor.
Variable model : tensor -> exn + tensor.
Variable img : ndarray Z.
Variable scale : Z.
Variable callback : bool.
Variable total_tiles : Z.

Abbreviation expected := (expected_events self model img scale callback total_tiles).

Lemma expected_events_app (l1 l2 : list (Z * Z)) (done : Z) :
  expected (l1 ++ l2) done
  = expected l1 done ++ expected l2 (done + Z.of_nat (length l1)).
Proof.
  revert done. induction l1 as [|[y x] l1 IH]; intros done.
  - simpl. now rewrite Z.add_0_r.
  - rewrite <- app_comm_cons.
    rewrite (expected_events_cons _ _ _ _ _ _ y x (l1 ++ l2)).
    rewrite (expected_events_cons _ _ _ _ _ _ y x l1).
    rewrite IH, <- app_assoc. do 3 f_equal. simpl length. lia.
Qed.

(** The callback values do not depend on the model: a tile that raised is
    counted and reported like one that was placed. *)
Lemma callback_values_expected (cells : list (Z * Z)) (done : Z) :
  callback_values (expected cells done)
  = if callback then progress_from total_tiles (length cells) done else [].
Proof.
  revert done. induction cells as [|[y x] cells IH]; intros done.
  - now destruct callback.
  - cbn [expected_events]. rewrite !callback_values_app, IH.
    destruct (place_tile _ _ _ _ _ _ _); destruct callback; simpl;
      try destruct (PyFloat.percent _ _); reflexivity.
Qed.

Lemma tiles_started_expected (cells : list (Z * Z)) (done : Z) :
  tiles_started (expected cells done) = map (fun cell => (snd cell, fst cell)) cells.
Proof.
  revert done. induction cells as [|[y x] cells IH]; intros done; [reflexivity|].
  cbn [expected_events]. rewrite !tiles_started_app, IH.
  destruct (place_tile _ _ _ _ _ _ _); destruct callback; simpl;
    try destruct (PyFloat.percent _ _); reflexivity.
Qed.

Lemma tile_error_expected (cells : list (Z * Z)) (done x y : Z) (e : exn) :
  In (TileError x y e) (expected cells done) <->
  In (y, x) cells /\ tile_raises self model img scale x y e.
Proof.
  revert done. induction cells as [|[y' x'] cells IH]; intros done.
  - simpl. tauto.
  - cbn [expected_events]. rewrite !in_app_iff, IH. unfold tile_raises. simpl.
    split.
    + intros [[H|[]]|[H|[H|H]]]; try discriminate.
      * destruct (place_tile _ _ _ _ x' y' _) eqn:E; simpl in H; [|tauto].
        destruct H as [[= -> -> ->]|[]]. auto.
      * destruct callback; [|destruct H].
        destruct (PyFloat.percent _ _); simpl in H; [|tauto].
        destruct H as [H|[]]. discriminate.
      * tauto.
    + intros [[[= -> ->]|H] He].
      * right. left. rewrite He. now left.
      * right. right. right. tauto.
Qed.

End Events.

Lemma progress_from_length (total : Z) (n : nat) (done : Z) :
  0 <= done -> done + Z.of_nat n <= total ->
  length (progress_from total n done) = n.
Proof.
  revert done. induction n as [|n IH]; intros done H0 Hle; [reflexivity|].
  cbn [progress_from].
  destruct (percent_defined (done + 1) total ltac:(lia)) as [p ->].
  simpl. f_equal. apply IH; lia.
Qed.

Lemma progress_from_lower (total : Z) (n : nat) (done p q : Z) :
  0 <= done -> done + Z.of_nat n <= total ->
  PyFloat.percent done total = Some p -> 1 <= done ->
  In q (progress_from total n done) -> p <= q.
Proof.
  revert done p. induction n as [|n IH]; intros done p H0 Hle Hp H1 Hin; [destruct Hin|].
  cbn [progress_from] in Hin.
  destruct (percent_defined (done + 1) total ltac:(lia)) as [p' Hp'].
  rewrite Hp' in Hin. destruct Hin as [<-|Hin].
  - eapply percent_mono; [| |exact Hp|exact Hp']; lia.
  - transitivity p'.
    + eapply percent_mono; [| |exact Hp|exact Hp']; lia.
    + eapply (IH (done + 1)); try eassumption; lia.
Qed.

Lemma progress_from_nondecreasing (total : Z) (n : nat) (done : Z) :
  0 <= done -> done + Z.of_nat n <= total ->
  nondecreasing (progress_from total n done).
Proof.
  revert done. induction n as [|n IH]; intros done H0 Hle; [exact I|].
  cbn [progress_from].
  destruct (percent_defined (done + 1) total ltac:(lia)) as [p Hp]. rewrite Hp.
  specialize (IH (done + 1) ltac:(lia) ltac:(lia)).
  simpl. destruct (progress_from total n (done + 1)) as [|q rest] eqn:E; [exact I|].
  split; [|exact IH].
  apply (progress_from_lower total n (done + 1) p q); try assumption; try lia.
  rewrite E. now left.
Qed.

Lemma progress_from_last (total : Z) (n : nat) (done : Z) :
  0 <= done -> done + Z.of_nat n = total -> (0 < n)%nat ->
  List.last (progress_from total n done) 0 = 100.
Proof.
  revert done. induction n as [|n IH]; intros done H0 Hle Hn; [lia|].
  cbn [progress_from].
  destruct (percent_defined (done + 1) total ltac:(lia)) as [p Hp]. rewrite Hp.
  destruct n as [|n].
  - simpl. replace (done + 1) with total in Hp by lia.
    rewrite percent_full in Hp by lia. congruence.
  - specialize (IH (done + 1) ltac:(lia) ltac:(lia) ltac:(lia)).
    pose proof (progress_from_length total (S n) (done + 1) ltac:(lia) ltac:(lia)) as Hlen.
    destruct (progress_from total (S n) (done + 1)) as [|q rest] eqn:E; [discriminate|].
    exact IH.
Qed.

(* ===================================================================== *)
(** * The identity model *)
(* ===================================================================== *)

(** Dividing a [uint8] by 255 and multiplying it back, in [float32], loses
    nothing: checked on the 256 values. *)
Lemma pixel_roundtrip_id (v : Z) : 0 <= v <= 255 -> pixel_roundtrip v = v.
Proof.
  intros Hv.
  assert (forallb (fun n => pixel_roundtrip (Z.of_nat n) =? Z.of_nat n) (seq 0 256) = true)
    as Hall by (vm_compute; reflexivity).
  rewrite forallb_forall in Hall.
  specialize (Hall (Z.to_nat v)). rewrite Z2Nat.id in Hall by lia.
  apply Z.eqb_eq, Hall, in_seq. lia.
Qed.

Section Identity.

Variable self : ImageProcessor.
Variable img : ndarray Z.

Hypothesis tile_size_pos : 1 <= tile_size self.
Hypothesis padding_nonneg : 0 <= tile_padding self.
Hypothesis img_uint8 : is_uint8 img.

Lemma slice_exact (a b n : Z) :
  0 <= a <= b -> b <= n -> slice_start a n = a /\ slice_len a b n = b - a.
Proof.
  intros Hab Hbn. unfold slice_start, slice_len, slice_bound.
  destruct (Z.ltb_spec a 0), (Z.ltb_spec b 0); lia.
Qed.

Lemma identity_place (x y : Z) :
  In (y, x) (grid self img) ->
  exists o,
    place_tile self identity_model img 1 x y (blank_canvas img 1) = inr o /\
    forall i j k,
      dest_covers self img 1 x y i j = true -> 0 <= k < dim2 img ->
      item o i j k = item img i j k.
Proof.
  intros Hin.
  pose proof (dest_covers_spec self img 1 tile_size_pos ltac:(lia) x y) as Hcov.
  pose proof Hin as Hg. apply grid_In in Hg; [|assumption].
  destruct Hg as [(a & Ha & Hya & Hy) (b & Hb & Hxb & Hx)].
  assert (0 <= y) as Hy0 by nia. assert (0 <= x) as Hx0 by nia.
  clear a b Ha Hb Hya Hxb.
  set (T := tile_size self) in *. set (P := tile_padding self) in *.
  unfold place_tile, tile_part, identity_model.
  unfold out_tile_y1, out_tile_y2, out_tile_x1, out_tile_x2, out_y2, out_x2, out_y1, out_x1.
  unfold non_pad_y2, non_pad_x2, non_pad_y1, non_pad_x1.
  unfold tile_y1, tile_y2, tile_x1, tile_x2. fold T P.
  rewrite !Z.mul_1_r.
  destruct (slice_exact (Z.max 0 (y - P)) (Z.min (dim0 img) (y + T + P)) (dim0 img))
    as [Sy1 Ly1]; [lia..|].
  destruct (slice_exact (Z.max 0 (x - P)) (Z.min (dim1 img) (x + T + P)) (dim1 img))
    as [Sx1 Lx1]; [lia..|].
  set (ty1 := Z.max 0 (y - P)) in *. set (ty2 := Z.min (dim0 img) (y + T + P)) in *.
  set (tx1 := Z.max 0 (x - P)) in *. set (tx2 := Z.min (dim1 img) (x + T + P)) in *.
  destruct (slice_exact (Z.max 0 (y - ty1))
              (Z.min (ty2 - ty1) (Z.max 0 (y - ty1) + T)) (ty2 - ty1))
    as [Sy2 Ly2]; [lia..|].
  destruct (slice_exact (Z.max 0 (x - tx1))
              (Z.min (tx2 - tx1) (Z.max 0 (x - tx1) + T)) (tx2 - tx1))
    as [Sx2 Lx2]; [lia..|].
  destruct (slice_exact y (Z.min (dim0 img) (y + T)) (dim0 img)) as [Sy3 Ly3]; [lia..|].
  destruct (slice_exact x (Z.min (dim1 img) (x + T)) (dim1 img)) as [Sx3 Lx3]; [lia..|].
  unfold setslice, blank_canvas, getslice, postprocess_image, preprocess_image,
    permute_1_2_0, permute_2_0_1, amap.
  cbn [dim0 dim1 dim2 item]. rewrite !Z.mul_1_r.
  rewrite Ly1, Lx1, Ly2, Lx2, Ly3, Lx3, Sy1, Sx1, Sy2, Sx2, Sy3, Sx3.
  unfold broadcasts.
  replace (Z.min (ty2 - ty1) (Z.max 0 (y - ty1) + T) - Z.max 0 (y - ty1))
    with (Z.min (dim0 img) (y + T) - y) by lia.
  replace (Z.min (tx2 - tx1) (Z.max 0 (x - tx1) + T) - Z.max 0 (x - tx1))
    with (Z.min (dim1 img) (x + T) - x) by lia.
  rewrite !Z.eqb_refl. cbn [orb andb].
  eexists. split; [reflexivity|].
  intros i j k Hc Hk. cbn [item].
  apply (Hcov i j Hin) in Hc. rewrite !Z.mul_1_r in Hc.
  unfold dest_covers, out_y1, out_y2, out_x1, out_x2 in *.
  assert (in_slice y (Z.min (dim0 img) (y + T)) (dim0 img) i = true) as ->.
  { unfold in_slice. rewrite Sy3, Ly3. apply andb_true_iff.
    rewrite Z.leb_le, Z.ltb_lt. lia. }
  assert (in_slice x (Z.min (dim1 img) (x + T)) (dim1 img) j = true) as ->.
  { unfold in_slice. rewrite Sx3, Lx3. apply andb_true_iff.
    rewrite Z.leb_le, Z.ltb_lt. lia. }
  cbn [andb].
  assert (bindex (Z.min (dim0 img) (y + T) - y) (i - y) = i - y) as ->.
  { unfold bindex. destruct (Z.eqb_spec (Z.min (dim0 img) (y + T) - y) 1); lia. }
  assert (bindex (Z.min (dim1 img) (x + T) - x) (j - x) = j - x) as ->.
  { unfold bindex. destruct (Z.eqb_spec (Z.min (dim1 img) (x + T) - x) 1); lia. }
  assert (bindex (dim2 img) k = k) as ->.
  { unfold bindex. destruct (Z.eqb_spec (dim2 img) 1); lia. }
  replace (ty1 + (Z.max 0 (y - ty1) + (i - y))) with i by lia.
  replace (tx1 + (Z.max 0 (x - tx1) + (j - x))) with j by lia.
  apply pixel_roundtrip_id, img_uint8. unfold in_shape. lia.
Qed.

End Identity.

(* ===================================================================== *)
(** * Properties of the tiling pipeline *)
(* ===================================================================== *)

Lemma covering_cell (self : ImageProcessor) (img : ndarray Z) (scale x y i j : Z) :
  1 <= tile_size self -> 1 <= scale ->
  In (y, x) (grid self img) ->
  dest_covers self img scale x y i j = true ->
  List.filter (fun cell => dest_covers self img scale (snd cell) (fst cell) i j)
              (grid self img) = [(y, x)].
Proof.
  intros HT Hs Hin Hc.
  pose proof (proj1 (dest_covers_spec self img scale HT Hs x y i j Hin) Hc) as Hij.
  assert (0 <= i < dim0 img * scale /\ 0 <= j < dim1 img * scale) as [Hi Hj].
  { apply grid_In in Hin; [|assumption].
    destruct Hin as [(a & ? & ? & ?) (b & ? & ? & ?)]. nia. }
  pose proof (cover_unique self img scale HT Hs i j Hi Hj) as Hu.
  assert (In (y, x) (List.filter
                       (fun cell => dest_covers self img scale (snd cell) (fst cell) i j)
                       (grid self img))) as Hf.
  { apply filter_In. split; assumption. }
  rewrite Hu in Hf. destruct Hf as [<-|[]]. exact Hu.
Qed.

(** What a placement that goes through writes: inside its rectangle the
    part of the model's output, outside nothing. *)
Lemma place_tile_writes (self : ImageProcessor) (model : tensor -> exn + tensor)
  (img : ndarray Z) (scale x y : Z) (out out' part : ndarray Z) (i j k : Z) :
  1 <= tile_size self -> 1 <= scale ->
  In (y, x) (grid self img) ->
  shape out = shape (blank_canvas img scale) ->
  tile_part self model img scale x y = inr part ->
  place_tile self model img scale x y out = inr out' ->
  item out' i j k =
  if dest_covers self img scale x y i j
  then item part (bindex (dim0 part) (i - y * scale))
                 (bindex (dim1 part) (j - x * scale)) (bindex (dim2 part) k)
  else item out i j k.
Proof.
  intros HT Hs Hin Hshape Hpart Hplace.
  apply grid_In in Hin; [|assumption].
  destruct Hin as [(a & Ha & -> & Hy) (b & Hb & -> & Hx)].
  unfold place_tile in Hplace. rewrite Hpart in Hplace.
  rewrite (setslice_item _ _ _ _ _ _ _ i j k Hplace).
  unfold shape in Hshape. cbn in Hshape. injection Hshape as -> -> _.
  unfold dest_covers, out_y1, out_x1.
  assert (forall v n, 0 <= v -> v * scale < n * scale ->
                      slice_start (v * scale) (n * scale) = v * scale) as Hstart.
  { intros v n Hv Hlt. unfold slice_start, slice_bound.
    destruct (Z.ltb_spec (v * scale) 0); nia. }
  rewrite !Hstart by nia. reflexivity.
Qed.

(** C1. For every width and height of at least 1, tile size of at least 1
    and scale of at least 1 (whatever the padding and the model): the
    placement of the tile at a grid origin [(x, y)] assigns to the canvas
    exactly the rectangle
    [x*scale, min(W, x+T)*scale) x [y*scale, min(H, y+T)*scale), where it
    writes the part of the model's output, and leaves every other pixel as
    it was; every pixel of the (W*scale) x (H*scale) canvas lies in the
    rectangle of exactly one cell of the grid, no gap and no overlap; and
    in the canvas a run returns every pixel holds what the placement of
    that one cell wrote (0, the initial value, if that tile failed): no
    other placement has touched it. *)
Theorem dest_rects_partition (self : ImageProcessor) (model : tensor -> exn + tensor)
  (img : ndarray Z) (scale : Z) :
  1 <= dim1 img -> 1 <= dim0 img -> 1 <= tile_size self -> 1 <= scale ->
  (forall x y i j,
      In (y, x) (grid self img) ->
      dest_covers self img scale x y i j = true <->
      y * scale <= i < Z.min (dim0 img) (y + tile_size self) * scale /\
      x * scale <= j < Z.min (dim1 img) (x + tile_size self) * scale) /\
  (forall x y out out' part i j k,
      In (y, x) (grid self img) ->
      shape out = shape (blank_canvas img scale) ->
      tile_part self model img scale x y = inr part ->
      place_tile self model img scale x y out = inr out' ->
      item out' i j k =
      if dest_covers self img scale x y i j
      then item part (bindex (dim0 part) (i - y * scale))
                     (bindex (dim1 part) (j - x * scale)) (bindex (dim2 part) k)
      else item out i j k) /\
  (forall i j,
      0 <= i < dim0 img * scale -> 0 <= j < dim1 img * scale ->
      exists x y,
        List.filter (fun cell => dest_covers self img scale (snd cell) (fst cell) i j)
                    (grid self img) = [(y, x)]) /\
  (forall callback out i j k,
      fst (process_image_with_tiling self model img scale callback) = inr out ->
      0 <= i < dim0 img * scale -> 0 <= j < dim1 img * scale -> 0 <= k < dim2 img ->
      exists x y,
        List.filter (fun cell => dest_covers self img scale (snd cell) (fst cell) i j)
                    (grid self img) = [(y, x)] /\
        item out i j k =
        match place_tile self model img scale x y (blank_canvas img scale) with
        | inr placed => item placed i j k
        | inl _ => 0
        end).
Proof.
  intros H1 H0 HT Hs. split; [|split; [|split]].
  - intros x y i j. now apply dest_covers_spec.
  - intros x y out out' part i j k. now apply place_tile_writes.
  - intros i j Hi Hj. eexists _, _. now apply cover_unique.
  - intros callback out i j k Hrun Hi Hj Hk.
    assert (forall e, ~ tile_raises self model img scale 0 0 e) as Hfirst.
    { intros e He.
      rewrite (run_fails self model img scale callback HT ltac:(lia) ltac:(lia)
                 ltac:(lia) ltac:(lia) e H0 H1 He) in Hrun.
      discriminate Hrun. }
    rewrite run_succeeds in Hrun by (try assumption; lia).
    cbn [fst] in Hrun. injection Hrun as <-.
    pose proof (cover_unique self img scale HT Hs i j Hi Hj) as Hcov.
    eexists _, _. split; [exact Hcov|].
    rewrite (outputs_after_covered _ _ _ _ _ _ _ _ _ _ _ eq_refl Hcov).
    destruct (place_tile _ _ _ _ _ _ _); reflexivity.
Qed.

(** C1 on the 600x400 image of the scenario, at scale 2: the pixel in the
    last row and last column lies in the rectangle of one cell. *)
Lemma dest_rects_partition_witness :
  (1 <= dim1 (gradient_image 400 600) /\ 1 <= dim0 (gradient_image 400 600) /\
   1 <= tile_size scenario_processor /\ 1 <= 2) /\
  exists x y,
    List.filter
      (fun cell => dest_covers scenario_processor (gradient_image 400 600) 2
                     (snd cell) (fst cell) 799 1199)
      (grid scenario_processor (gradient_image 400 600)) = [(y, x)].
Proof.
  split; [simpl; lia|].
  destruct (dest_rects_partition scenario_processor (nearest_model 2)
              (gradient_image 400 600) 2)
    as (_ & _ & H & _); [simpl; lia | simpl; lia | simpl; lia | lia |].
  apply H; simpl; lia.
Defined.

(** C2. With the identity model at scale 1, for every image of at least one
    row and one column, every tile size of at least 1 and every padding of
    at least 0 (dividing the dimensions or not), the run returns an array
    equal to the input at every pixel. *)
Theorem identity_model_reproduces_input
  (self : ImageProcessor) (img : ndarray Z) (callback : bool) :
  1 <= dim1 img -> 1 <= dim0 img -> 0 <= dim2 img ->
  1 <= tile_size self -> 0 <= tile_padding self ->
  is_uint8 img ->
  exists out,
    fst (process_image_with_tiling self identity_model img 1 callback) = inr out /\
    array_eq out img.
Proof.
  intros HW HH HC HT HP Hu8.
  rewrite run_succeeds; try lia.
  2:{ intros e He. unfold tile_raises in He.
      destruct (grid_head self img HT HH HW) as [rest Hg].
      destruct (identity_place self img HT HP Hu8 0 0) as (o & Ho & _).
      { rewrite Hg. now left. }
      congruence. }
  eexists. split; [reflexivity|]. split.
  - rewrite outputs_after_shape. unfold shape, blank_canvas. simpl.
    now rewrite !Z.mul_1_r.
  - intros i j k Hin. unfold in_shape in Hin.
    pose proof (outputs_after_shape self identity_model img 1 (grid self img)
                  (blank_canvas img 1)) as Hsh.
    unfold shape in Hsh. simpl in Hsh. injection Hsh as H0 H1 H2.
    rewrite H0, H1, H2, !Z.mul_1_r in Hin.
    destruct Hin as (Hi & Hj & Hk).
    pose proof (cover_unique self img 1 HT ltac:(lia) i j ltac:(lia) ltac:(lia)) as Hcov.
    rewrite (outputs_after_covered _ _ _ _ _ _ _ _ _ _ _ eq_refl Hcov).
    set (y := i / (tile_size self * 1) * tile_size self) in *.
    set (x := j / (tile_size self * 1) * tile_size self) in *.
    assert (In (y, x) (List.filter
                         (fun cell => dest_covers self img 1 (snd cell) (fst cell) i j)
                         (grid self img))) as Hf by (rewrite Hcov; now left).
    apply filter_In in Hf. destruct Hf as [Hg Hc]. simpl in Hc.
    destruct (identity_place self img HT HP Hu8 x y Hg) as (o & -> & Ho).
    now apply Ho.
Qed.

(** C2 on a 5x3 image with tiles of 2 and padding 1. *)
Lemma identity_model_reproduces_input_witness :
  is_uint8 (gradient_image 3 5) /\
  exists out,
    fst (process_image_with_tiling small_processor identity_model
           (gradient_image 3 5) 1 true) = inr out /\
    array_eq out (gradient_image 3 5).
Proof.
  assert (is_uint8 (gradient_image 3 5)) as Hu8.
  { intros i j k _. simpl.
    pose proof (Z.mod_pos_bound (i + 2 * j + 5 * k) 256). lia. }
  split; [exact Hu8|].
  apply (identity_model_reproduces_input small_processor (gradient_image 3 5) true);
    [simpl; lia | simpl; lia | simpl; lia | simpl; lia | simpl; lia | exact Hu8].
Defined.

(** C3. An exception on the first tile ends the run: it reaches the caller
    inside an [ImageProcessingError].  When the first tile does not raise the
    run returns a canvas, whatever the other tiles do: a tile that raises is
    logged, and the rectangle it should have filled holds zeros. *)
Theorem tile_failure_isolation
  (self : ImageProcessor) (model : tensor -> exn + tensor) (img : ndarray Z)
  (scale : Z) (callback : bool) :
  1 <= dim1 img -> 1 <= dim0 img -> 0 <= dim2 img ->
  1 <= tile_size self -> 1 <= scale ->
  (forall e,
      tile_raises self model img scale 0 0 e ->
      fst (process_image_with_tiling self model img scale callback)
      = inl (ImageProcessingError "Error processing image with tiling" e)) /\
  ((forall e, ~ tile_raises self model img scale 0 0 e) ->
   exists out,
     fst (process_image_with_tiling self model img scale callback) = inr out /\
     forall x y e,
       In (y, x) (grid self img) ->
       tile_raises self model img scale x y e ->
       In (TileError x y e) (snd (process_image_with_tiling self model img scale callback)) /\
       forall i j k, dest_covers self img scale x y i j = true -> item out i j k = 0).
Proof.
  intros HW HH HC HT Hs. split.
  - intros e He. rewrite (run_fails self model img scale callback) with (e := e);
      [reflexivity|lia..|assumption].
  - intros Hfirst. rewrite run_succeeds by (assumption || lia).
    eexists. split; [reflexivity|].
    intros x y e Hg He. split.
    + simpl. apply tile_error_expected. now split.
    + intros i j k Hc. simpl.
      rewrite (outputs_after_covered _ _ _ _ _ _ x y i j k eq_refl).
      * unfold tile_raises in He. rewrite He. reflexivity.
      * now apply covering_cell.
Qed.

(** C3 on a 3x1 image with tiles of 2: the second tile is one column wide
    and raises, the run returns, and the column of that tile holds zeros. *)
Lemma tile_failure_isolation_witness :
  (forall e, ~ tile_raises unpadded_processor narrow_tile_fails
                 (gradient_image 1 3) 1 0 0 e) /\
  tile_raises unpadded_processor narrow_tile_fails (gradient_image 1 3) 1 2 0
    (Builtin "RuntimeError") /\
  exists out,
    fst (process_image_with_tiling unpadded_processor narrow_tile_fails
           (gradient_image 1 3) 1 true) = inr out /\
    In (TileError 2 0 (Builtin "RuntimeError"))
       (snd (process_image_with_tiling unpadded_processor narrow_tile_fails
               (gradient_image 1 3) 1 true)) /\
    forall k, item out 0 2 k = 0.
Proof.
  assert (forall e, ~ tile_raises unpadded_processor narrow_tile_fails
                        (gradient_image 1 3) 1 0 0 e) as Hfirst.
  { intros e He. discriminate He. }
  assert (tile_raises unpadded_processor narrow_tile_fails (gradient_image 1 3) 1 2 0
            (Builtin "RuntimeError")) as Hsecond.
  { vm_compute. reflexivity. }
  split; [exact Hfirst|]. split; [exact Hsecond|].
  destruct (tile_failure_isolation unpadded_processor narrow_tile_fails
              (gradient_image 1 3) 1 true) as [_ H];
    [simpl; lia | simpl; lia | simpl; lia | simpl; lia | lia |].
  destruct (H Hfirst) as (out & Hout & Hrest).
  exists out. split; [exact Hout|].
  destruct (Hrest 2 0 (Builtin "RuntimeError")) as [Hin Hzero];
    [vm_compute; auto | exact Hsecond |].
  split; [exact Hin|].
  intros k. apply Hzero. vm_compute. reflexivity.
Defined.

(** C10. A tile that raises after the first one is counted and reported like
    any other: its error line is followed by a call of the callback with the
    percentage of its rank.  So in every run whose first tile does not raise
    the callback is called once per cell of the grid, with values that never
    decrease and end at 100, and two such runs (whichever of their later
    tiles raise) report the same values and return canvases of the same
    shape. *)
Theorem failed_tiles_count_as_processed
  (self : ImageProcessor) (model model' : tensor -> exn + tensor) (img : ndarray Z)
  (scale : Z) :
  1 <= dim1 img -> 1 <= dim0 img -> 0 <= dim2 img ->
  1 <= tile_size self -> 1 <= scale ->
  (forall e, ~ tile_raises self model img scale 0 0 e) ->
  (forall e, ~ tile_raises self model' img scale 0 0 e) ->
  let run := process_image_with_tiling self model img scale true in
  let run' := process_image_with_tiling self model' img scale true in
  (forall n x y e,
      nth_error (grid self img) n = Some (y, x) ->
      tile_raises self model img scale x y e ->
      exists before after p,
        snd run = before ++ [TileStarted x y; TileError x y e; Callback p] ++ after /\
        PyFloat.percent (Z.of_nat n + 1) (total_tiles_of self img) = Some p) /\
  length (callback_values (snd run)) = length (grid self img) /\
  nondecreasing (callback_values (snd run)) /\
  List.last (callback_values (snd run)) 0 = 100 /\
  callback_values (snd run) = callback_values (snd run') /\
  exists out out', fst run = inr out /\ fst run' = inr out' /\ shape out = shape out'.
Proof.
  intros HW HH HC HT Hs Hfirst Hfirst' run run'. subst run run'.
  rewrite !run_succeeds by (assumption || lia). cbn [fst snd].
  pose proof (grid_length self img HT ltac:(lia) ltac:(lia)) as Hlen.
  rewrite !callback_values_expected.
  split; [|split; [|split; [|split; [|split]]]].
  - intros n x y e Hn He.
    destruct (nth_error_split _ _ Hn) as (l1 & l2 & Hg & Hl1).
    assert (Z.of_nat n + 1 <= total_tiles_of self img) as Hle.
    { rewrite <- Hlen, Hg, length_app. simpl length. lia. }
    destruct (percent_defined (Z.of_nat n + 1) (total_tiles_of self img) ltac:(lia))
      as [p Hp].
    rewrite Hg, expected_events_app.
    rewrite (expected_events_cons _ _ _ _ _ _ y x l2).
    cbn [expected_events]. unfold tile_raises in He. rewrite He.
    rewrite Z.add_0_l, Hl1, Hp.
    eexists _, _, p. split; [|reflexivity].
    rewrite app_nil_r. reflexivity.
  - apply progress_from_length; lia.
  - apply progress_from_nondecreasing; lia.
  - apply progress_from_last; [lia|lia|].
    destruct (grid_head self img HT HH HW) as [rest ->]. simpl. lia.
  - reflexivity.
  - eexists _, _. split; [reflexivity|]. split; [reflexivity|].
    now rewrite !outputs_after_shape.
Qed.

(** C10 on the same 3x1 image: the run whose second tile raises and the run
    of the identity model report the same values. *)
Lemma failed_tiles_count_as_processed_witness :
  (forall e, ~ tile_raises unpadded_processor narrow_tile_fails
                 (gradient_image 1 3) 1 0 0 e) /\
  (forall e, ~ tile_raises unpadded_processor identity_model
                 (gradient_image 1 3) 1 0 0 e) /\
  tile_raises unpadded_processor narrow_tile_fails (gradient_image 1 3) 1 2 0
    (Builtin "RuntimeError") /\
  callback_values
    (snd (process_image_with_tiling unpadded_processor narrow_tile_fails
            (gradient_image 1 3) 1 true)) =
  callback_values
    (snd (process_image_with_tiling unpadded_processor identity_model
            (gradient_image 1 3) 1 true)).
Proof.
  assert (forall e, ~ tile_raises unpadded_processor narrow_tile_fails
                        (gradient_image 1 3) 1 0 0 e) as Hfirst.
  { intros e He. discriminate He. }
  assert (forall e, ~ tile_raises unpadded_processor identity_model
                        (gradient_image 1 3) 1 0 0 e) as Hfirst'.
  { intros e He. discriminate He. }
  split; [exact Hfirst|]. split; [exact Hfirst'|].
  split; [vm_compute; reflexivity|].
  pose proof (failed_tiles_count_as_processed unpadded_processor narrow_tile_fails
                identity_model (gradient_image 1 3) 1) as H.
  cbv zeta in H.
  destruct H as (_ & _ & _ & _ & Hsame & _);
    [simpl; lia | simpl; lia | simpl; lia | simpl; lia | lia
    | exact Hfirst | exact Hfirst' |].
  exact Hsame.
Defined.

(** C9. With an image 257 pixels wide, tiles of 256 and scale 4, the last
    column of the grid starts at 256 and its core is 1 pixel wide; whatever
    the padding, the crop taken from the output of a model that returns
    four times the width it was given is 4 pixels wide, and it is written
    to the 4 columns 1024..1027 of the canvas. *)
Theorem last_column_crop_width (self : ImageProcessor) (img : ndarray Z) :
  dim1 img = 257 -> tile_size self = 256 -> 0 <= tile_padding self ->
  List.last (py_range 0 (dim1 img) (tile_size self)) 0 = 256 /\
  Z.min (tile_size self) (dim1 img - 256) = 1 /\
  (forall (model : tensor -> exn + tensor) (y : Z) (part : ndarray Z),
      (forall t,
          model (preprocess_image
                   (getslice img (tile_y1 self y) (tile_y2 self img y)
                                 (tile_x1 self 256) (tile_x2 self img 256))) = inr t ->
          dim2 t = (tile_x2 self img 256 - tile_x1 self 256) * 4) ->
      tile_part self model img 4 256 y = inr part ->
      dim1 part = 1 * 4) /\
  (forall j,
      in_slice (out_x1 4 256) (out_x2 self img 4 256) (dim1 img * 4) j = true
      <-> 1024 <= j < 1024 + 1 * 4).
Proof.
  intros HW HT HP. rewrite HW, HT. split; [reflexivity|]. split; [reflexivity|]. split.
  - intros model y part Hcontract. unfold tile_part.
    destruct (model _) as [e|t] eqn:Em; [discriminate|].
    specialize (Hcontract t eq_refl).
    intros [= <-]. simpl.
    unfold out_tile_x1, out_tile_x2, non_pad_x2, non_pad_x1 in *.
    unfold tile_x1, tile_x2 in *. rewrite HW, HT in *. rewrite Hcontract.
    unfold slice_len, slice_bound.
    repeat match goal with |- context [?a <? ?b] => destruct (Z.ltb_spec a b) end; lia.
  - intros j. unfold in_slice, slice_start, slice_len, slice_bound, out_x1, out_x2.
    rewrite HW, HT. simpl. rewrite andb_true_iff, Z.leb_le, Z.ltb_lt. lia.
Qed.

(** C9 on a 257x10 image with padding 32 and nearest-neighbour
    magnification by 4 as the model. *)
Lemma last_column_crop_width_witness :
  (dim1 (gradient_image 10 257) = 257 /\ tile_size wide_processor = 256 /\
   0 <= tile_padding wide_processor) /\
  exists part,
    tile_part wide_processor (nearest_model 4) (gradient_image 10 257) 4 256 0
    = inr part /\
    dim1 part = 1 * 4.
Proof.
  split; [simpl; lia|].
  destruct (last_column_crop_width wide_processor (gradient_image 10 257))
    as (_ & _ & H & _); [reflexivity | reflexivity | simpl; lia |].
  destruct (tile_part wide_processor (nearest_model 4) (gradient_image 10 257) 4 256 0)
    as [e|part] eqn:E.
  - discriminate E.
  - exists part. split; [reflexivity|].
    apply (H (nearest_model 4) 0 part); [|exact E].
    intros t Ht. injection Ht as <-. vm_compute. reflexivity.
Defined.

(** C4, as the code computes it.  On a 600x400 image with tiles of 256 and
    scale 2, a run whose first tile does not raise visits the 3x2 cells in
    row-major order and reports 16, 33, 50, 66, 83, 100:
    [int(tiles_processed / total_tiles * 100)] truncates. *)
Theorem scenario_600x400_progress (model : tensor -> exn + tensor) (img : ndarray Z) :
  let self := {| tile_size := 256; tile_padding := 16 |} in
  dim0 img = 400 -> dim1 img = 600 -> 0 <= dim2 img ->
  (forall e, ~ tile_raises self model img 2 0 0 e) ->
  let run := process_image_with_tiling self model img 2 true in
  tiles_started (snd run) = [(0, 0); (256, 0); (512, 0); (0, 256); (256, 256); (512, 256)] /\
  callback_values (snd run) = [16; 33; 50; 66; 83; 100].
Proof.
  intros self H0 H1 HC Hfirst run. subst run.
  rewrite run_succeeds; try assumption; try (simpl; lia).
  cbn [snd]. rewrite tiles_started_expected, callback_values_expected.
  unfold grid, total_tiles_of. rewrite H0, H1. split; vm_compute; reflexivity.
Qed.

(** C4 as the code computes it, on the concrete run. *)
Lemma scenario_600x400_progress_witness :
  (forall e, ~ tile_raises scenario_processor (nearest_model 2)
                 (gradient_image 400 600) 2 0 0 e) /\
  tiles_started (snd scenario_600x400)
  = [(0, 0); (256, 0); (512, 0); (0, 256); (256, 256); (512, 256)] /\
  callback_values (snd scenario_600x400) = [16; 33; 50; 66; 83; 100].
Proof.
  assert (forall e, ~ tile_raises scenario_processor (nearest_model 2)
                        (gradient_image 400 600) 2 0 0 e) as Hfirst.
  { intros e He. discriminate He. }
  split; [exact Hfirst|].
  apply (scenario_600x400_progress (nearest_model 2) (gradient_image 400 600));
    [reflexivity | reflexivity | simpl; lia | exact Hfirst].
Defined.

(** C4, as the specification words it, fails on a concrete run: the values
    reported are not 17, 33, 50, 67, 83, 100. *)
Lemma scenario_600x400_not_as_specified :
  callback_values (snd scenario_600x400) <> [17; 33; 50; 67; 83; 100].
Proof. vm_compute. discriminate. Qed.

(* ===================================================================== *)
(** * The downloader *)
(* ===================================================================== *)

Section DownloaderFacts.

Variable net : string -> nat -> get_outcome.
Variable models_dir : string.

Lemma attempt_spec (url : string) (w : world) :
  (transport_failure (net url (gets w)) = true ->
   exists e, one_attempt net url w = (inl e, count_get w)) /\
  (transport_failure (net url (gets w)) = false ->
   exists r, one_attempt net url w = (inr (Some r), count_get w)).
Proof.
  unfold one_attempt, bind, session_get, lift_result, raise_for_status, ret, transport_failure.
  destruct (net url (gets w)) as [c|r]; split; intros H; try discriminate.
  - eexists. reflexivity.
  - rewrite H. eexists. reflexivity.
  - rewrite H. eexists. reflexivity.
Qed.

Lemma write_chunks_world (name path : string) (cb : bool) (total downloaded : Z)
  (cs : list (list Byte.byte)) (w : world) :
  let w' := snd (write_chunks name path cb total downloaded cs w) in
  gets w' = gets w /\ sleeps w' = sleeps w /\ torch_events w' = torch_events w.
Proof.
  revert downloaded w. induction cs as [|data cs IH]; intros downloaded w; simpl.
  - auto.
  - unfold bind at 1. unfold file_write, modify at 1. cbn [fst snd].
    unfold bind at 1.
    destruct (cb && (0 <? total)).
    + destruct (PyFloat.percent _ _).
      * unfold report, modify. cbn.
        match goal with |- context [write_chunks ?a ?b ?c ?d ?e ?f ?g] =>
          specialize (IH e g) end.
        cbn in IH. exact IH.
      * cbn. auto.
    + unfold ret. cbn.
      match goal with |- context [write_chunks ?a ?b ?c ?d ?e ?f ?g] =>
        specialize (IH e g) end.
      cbn in IH. exact IH.
Qed.

Lemma retry_loop_ok (a : Z) (rest : list Z) (retries d : Z) (url : string)
  (w w1 : world) (r : response) :
  one_attempt net url w = (inr (Some r), w1) ->
  retry_loop net (a :: rest) retries d url w = (inr (Some r), w1).
Proof.
  intros H. cbn [retry_loop]. unfold try_except.
  now rewrite H.
Qed.

Lemma retry_loop_failed (a : Z) (rest : list Z) (retries d : Z) (url : string)
  (w w1 : world) (e : exn) :
  one_attempt net url w = (inl e, w1) ->
  retry_loop net (a :: rest) retries d url w =
  if a <? retries - 1
  then retry_loop net rest retries (d * 2) url (snd (time_sleep d w1))
  else (inl e, w1).
Proof.
  intros H. cbn [retry_loop]. unfold try_except.
  rewrite H.
  destruct (a <? retries - 1); reflexivity.
Qed.

Abbreviation the_retry_loop url :=
  (retry_loop net (py_range 0 3 1) 3 2 url).

(** The retry loop: at most three attempts; 2 seconds of sleep after the
    first failure, 4 after the second, none after the third. *)
Lemma retry_loop_spec (url : string) (w : world) :
  let failed i := transport_failure (net url (gets w + i)%nat) in
  let r := the_retry_loop url w in
  fs (snd r) = fs w /\ torch_events (snd r) = torch_events w /\
  (failed 0%nat = false ->
   gets (snd r) = (gets w + 1)%nat /\ sleeps (snd r) = sleeps w /\
   exists resp, fst r = inr (Some resp)) /\
  (failed 0%nat = true -> failed 1%nat = false ->
   gets (snd r) = (gets w + 2)%nat /\ sleeps (snd r) = sleeps w ++ [2] /\
   exists resp, fst r = inr (Some resp)) /\
  (failed 0%nat = true -> failed 1%nat = true -> failed 2%nat = false ->
   gets (snd r) = (gets w + 3)%nat /\ sleeps (snd r) = sleeps w ++ [2; 4] /\
   exists resp, fst r = inr (Some resp)) /\
  (failed 0%nat = true -> failed 1%nat = true -> failed 2%nat = true ->
   gets (snd r) = (gets w + 3)%nat /\ sleeps (snd r) = sleeps w ++ [2; 4] /\
   exists e, fst r = inl e).
Proof.
  intros failed r. subst failed r. cbv beta.
  change (py_range 0 3 1) with [0; 1; 2].
  rewrite !Nat.add_0_r.
  replace (gets w + 1)%nat with (S (gets w)) by lia.
  replace (gets w + 2)%nat with (S (S (gets w))) by lia.
  replace (gets w + 3)%nat with (S (S (S (gets w)))) by lia.
  destruct (attempt_spec url w) as [F0 S0].
  destruct (transport_failure (net url (gets w))).
  2:{ destruct (S0 eq_refl) as [r0 H0]. rewrite (retry_loop_ok _ _ _ _ _ _ _ _ H0).
      cbn. repeat split; try discriminate; eauto. }
  destruct (F0 eq_refl) as [e0 H0]. rewrite (retry_loop_failed _ _ _ _ _ _ _ _ H0).
  change (0 <? 3 - 1) with true. cbv iota.
  destruct (attempt_spec url (snd (time_sleep 2 (count_get w)))) as [F1 S1].
  cbn [gets snd time_sleep modify count_get] in F1, S1.
  destruct (transport_failure (net url (S (gets w)))).
  2:{ destruct (S1 eq_refl) as [r1 H1]. rewrite (retry_loop_ok _ _ _ _ _ _ _ _ H1).
      cbn. repeat split; try discriminate; eauto. }
  destruct (F1 eq_refl) as [e1 H1]. rewrite (retry_loop_failed _ _ _ _ _ _ _ _ H1).
  change (1 <? 3 - 1) with true. cbv iota.
  destruct (attempt_spec url
              (snd (time_sleep (2 * 2) (count_get (snd (time_sleep 2 (count_get w)))))))
    as [F2 S2].
  cbn [gets snd time_sleep modify count_get] in F2, S2.
  destruct (transport_failure (net url (S (S (gets w))))).
  2:{ destruct (S2 eq_refl) as [r2 H2]. rewrite (retry_loop_ok _ _ _ _ _ _ _ _ H2).
      cbn. rewrite <- app_assoc. repeat split; try discriminate; eauto. }
  destruct (F2 eq_refl) as [e2 H2]. rewrite (retry_loop_failed _ _ _ _ _ _ _ _ H2).
  change (2 <? 3 - 1) with false. cbv iota.
  cbn. rewrite <- app_assoc. repeat split; try discriminate; eauto.
Qed.

(** What follows the retry loop touches neither the network nor the clock:
    the body of the [try] ends with the attempts and sleeps of the loop,
    and raises when the loop raised. *)
Lemma download_body_world (name url path : string) (cb : bool) (w : world) :
  let r := download_body net name url path cb w in
  let l := the_retry_loop url w in
  gets (snd r) = gets (snd l) /\ sleeps (snd r) = sleeps (snd l) /\
  torch_events (snd r) = torch_events w /\
  (forall e, fst l = inl e -> fst r = inl e).
Proof.
  intros r l. subst l.
  assert (r = download_body net name url path cb w) as Er by reflexivity.
  clearbody r. unfold download_body in Er.
  pose proof (retry_loop_spec url w) as Hev. cbv zeta in Hev.
  destruct Hev as (_ & Hev & _).
  unfold bind at 1 in Er.
  destruct (the_retry_loop url w) as [[e|[resp|]] w1]; cbn [fst snd] in *.
  - subst r. repeat split; auto. intros e' [= <-]. reflexivity.
  - unfold bind at 1, open_wb at 1, modify at 1 in Er. cbn [fst snd] in Er.
    unfold bind at 1 in Er.
    match type of Er with context [write_chunks ?a ?b ?c ?d ?e ?f ?g] =>
      pose proof (write_chunks_world a b c d e f g) as (Hg & Hs & Ht);
      destruct (write_chunks a b c d e f g) as [[e'|n] w3]
    end; cbn [fst snd set_fs gets sleeps torch_events] in *.
    + subst r. repeat split; cbn; try congruence; discriminate.
    + destruct (stream_error resp).
      * subst r. unfold raise. repeat split; cbn; try congruence; discriminate.
      * subst r. destruct cb; repeat split; cbn; try congruence; discriminate.
  - subst r. unfold raise. repeat split; cbn; try congruence; discriminate.
Qed.

(** [download_model] on a model whose file is not there. *)
Lemma download_model_new (name url : string) (cb : bool) (w : world) :
  path_exists (model_file models_dir name) w = false ->
  download_model net models_dir name url cb w =
  match download_body net name url (model_file models_dir name) cb w with
  | (inr p, w') => (inr p, w')
  | (inl e, w') =>
      (inl (NetworkError (download_error_message e) e),
       if path_exists (model_file models_dir name) w'
       then set_fs (fun f => delete (model_file models_dir name) f) w' else w')
  end.
Proof.
  intros Hnew.
  unfold download_model, decorated, bind, gets_of, try_except, download_failed.
  cbv beta iota zeta. rewrite Hnew.
  destruct (download_body _ _ _ _ _ _) as [[e|p] w']; [|reflexivity].
  unfold bind, gets_of, os_remove, modify, raise, ret.
  destruct (path_exists _ w'); reflexivity.
Qed.

(** A response whose body breaks off makes the body of the [try] raise,
    whatever was written before. *)
Lemma download_body_stream_error (name url path : string) (cb : bool) (w : world)
  (resp : response) (c : requests_class) :
  net url (gets w) = GetReturns resp ->
  transport_failure (net url (gets w)) = false ->
  stream_error resp = Some c ->
  exists e, fst (download_body net name url path cb w) = inl e.
Proof.
  intros Hnet Hok Hstream.
  assert (one_attempt net url w = (inr (Some resp), count_get w)) as Hone.
  { unfold one_attempt, bind, session_get, lift_result, raise_for_status, ret.
    unfold transport_failure in Hok. rewrite Hnet in Hok |- *. rewrite Hok.
    reflexivity. }
  unfold download_body. change (py_range 0 3 1) with [0; 1; 2].
  unfold bind at 1. rewrite (retry_loop_ok _ _ _ _ _ _ _ _ Hone).
  unfold bind at 1, open_wb at 1, modify at 1. unfold bind at 1.
  destruct (write_chunks _ _ _ _ _ _ _) as [[e|n] w3]; [eexists; reflexivity|].
  rewrite Hstream. eexists. reflexivity.
Qed.

(** C6, as the code has it.  [download_model] on a model whose file is not
    there yet.  The request is made at most three times: a second time
    after a first failure of the request (an exception of [session.get] or
    a 4xx/5xx status) and 2 seconds of sleep, a third time after a second
    failure and 4 more seconds; three failures make the call fail.  A
    request that is answered is the last one: when the body then breaks
    off, the call fails without another request or sleep.  And whenever the
    call fails, whatever the reason, it raises a [NetworkError] and leaves
    no file at the model's path. *)
Theorem download_retries_and_cleans_up
  (name url : string) (cb : bool) (w : world) :
  path_exists (model_file models_dir name) w = false ->
  let failed i := transport_failure (net url (gets w + i)%nat) in
  let r := download_model net models_dir name url cb w in
  (failed 0%nat = false ->
   gets (snd r) = (gets w + 1)%nat /\ sleeps (snd r) = sleeps w) /\
  (forall resp c,
      net url (gets w) = GetReturns resp -> failed 0%nat = false ->
      stream_error resp = Some c ->
      gets (snd r) = (gets w + 1)%nat /\ sleeps (snd r) = sleeps w /\
      exists e, fst r = inl e) /\
  (failed 0%nat = true -> failed 1%nat = false ->
   gets (snd r) = (gets w + 2)%nat /\ sleeps (snd r) = sleeps w ++ [2]) /\
  (failed 0%nat = true -> failed 1%nat = true ->
   gets (snd r) = (gets w + 3)%nat /\ sleeps (snd r) = sleeps w ++ [2; 4]) /\
  (failed 0%nat = true -> failed 1%nat = true -> failed 2%nat = true ->
   exists e, fst r = inl e) /\
  (forall e, fst r = inl e ->
             (exists msg cause, e = NetworkError msg cause) /\
             fs (snd r) !! model_file models_dir name = None).
Proof.
  intros Hnew failed r. subst failed r. cbv beta.
  rewrite (download_model_new name url cb w Hnew).
  pose proof (download_body_world name url (model_file models_dir name) cb w) as Hb.
  cbv zeta in Hb. destruct Hb as (Hg & Hs & _ & Hfail).
  pose proof (retry_loop_spec url w) as Hr. cbv zeta beta in Hr.
  destruct Hr as (_ & _ & R0 & R1 & R2 & R3).
  assert (forall res (w'' : world),
             gets w'' = gets (snd (download_body net name url
                                     (model_file models_dir name) cb w)) ->
             sleeps w'' = sleeps (snd (download_body net name url
                                         (model_file models_dir name) cb w)) ->
             (transport_failure (net url (gets w + 0)%nat) = false ->
              gets (snd (res : exn + string, w'')) = (gets w + 1)%nat /\
              sleeps (snd (res, w'')) = sleeps w) /\
             (transport_failure (net url (gets w + 0)%nat) = true ->
              transport_failure (net url (gets w + 1)%nat) = false ->
              gets (snd (res, w'')) = (gets w + 2)%nat /\
              sleeps (snd (res, w'')) = sleeps w ++ [2]) /\
             (transport_failure (net url (gets w + 0)%nat) = true ->
              transport_failure (net url (gets w + 1)%nat) = true ->
              gets (snd (res, w'')) = (gets w + 3)%nat /\
              sleeps (snd (res, w'')) = sleeps w ++ [2; 4])) as Hattempts.
  { intros res w'' Hg'' Hs''. cbn [snd]. rewrite Hg'', Hs'', Hg, Hs.
    split; [intros F0; destruct (R0 F0) as (? & ? & ?); auto|].
    split; [intros F0 F1; destruct (R1 F0 F1) as (? & ? & ?); auto|].
    intros F0 F1.
    destruct (transport_failure (net url (gets w + 2)%nat)) eqn:F2.
    - destruct (R3 F0 F1 eq_refl) as (? & ? & ?); auto.
    - destruct (R2 F0 F1 eq_refl) as (? & ? & ?); auto. }
  destruct (download_body net name url (model_file models_dir name) cb w)
    as [[e|p] w'] eqn:Ebody.
  - destruct (Hattempts (inl (NetworkError (download_error_message e) e))
                (if path_exists (model_file models_dir name) w'
                 then set_fs (fun f => delete (model_file models_dir name) f) w'
                 else w')) as (A0 & A1 & A2).
    { destruct (path_exists _ w'); reflexivity. }
    { destruct (path_exists _ w'); reflexivity. }
    split; [exact A0|].
    split; [intros resp c _ F0 _; destruct (A0 F0); cbn [fst]; eauto|].
    split; [exact A1|]. split; [exact A2|]. cbn [fst snd].
    split; [intros; eexists; reflexivity|].
    intros e0 [= <-]. split; [eexists _, _; reflexivity|].
    destruct (path_exists (model_file models_dir name) w') eqn:Ex.
    + cbn. apply lookup_delete_eq.
    + unfold path_exists in Ex. apply bool_decide_eq_false in Ex.
      now apply eq_None_not_Some.
  - destruct (Hattempts (inr p) w' eq_refl eq_refl) as (A0 & A1 & A2).
    split; [exact A0|].
    split.
    { intros resp c Hnet F0 Hstream. rewrite Nat.add_0_r in F0.
      destruct (download_body_stream_error name url (model_file models_dir name) cb w
                  resp c Hnet F0 Hstream) as [e He].
      rewrite Ebody in He. discriminate He. }
    split; [exact A1|]. split; [exact A2|].
    split; [|discriminate].
    intros F0 F1 F2. destruct (R3 F0 F1 F2) as (_ & _ & e & He).
    specialize (Hfail e He). discriminate.
Qed.

(** A download touches no device memory. *)
Lemma download_model_events (name url : string) (cb : bool) (w : world) :
  torch_events (snd (download_model net models_dir name url cb w)) = torch_events w.
Proof.
  destruct (path_exists (model_file models_dir name) w) eqn:Ex.
  - unfold download_model, decorated, bind, gets_of. cbv beta iota zeta.
    rewrite Ex. destruct cb; reflexivity.
  - rewrite (download_model_new name url cb w Ex).
    pose proof (download_body_world name url (model_file models_dir name) cb w) as Hb.
    cbv zeta in Hb. destruct Hb as (_ & _ & Ht & _).
    destruct (download_body _ _ _ _ _ _) as [[e|p] w']; cbn [fst snd] in *.
    + destruct (path_exists _ w'); exact Ht.
    + exact Ht.
Qed.

End DownloaderFacts.

(** C6 with a server that always answers 503 and an empty disk: three
    requests, sleeps of 2 and 4 seconds, a [NetworkError] and no file. *)
Lemma download_retries_and_cleans_up_witness :
  path_exists (model_file "models" "realesrgan-x4plus") fresh_world = false /\
  let r := download_model always_503 "models" "realesrgan-x4plus"
             "https://example.org/realesrgan.pth" true fresh_world in
  gets (snd r) = 3%nat /\ sleeps (snd r) = [2; 4] /\
  (exists e, fst r = inl e) /\
  (forall e, fst r = inl e ->
             (exists msg cause, e = NetworkError msg cause) /\
             fs (snd r) !! model_file "models" "realesrgan-x4plus" = None).
Proof.
  assert (path_exists (model_file "models" "realesrgan-x4plus") fresh_world = false)
    as Hnew by (vm_compute; reflexivity).
  split; [exact Hnew|].
  pose proof (download_retries_and_cleans_up always_503 "models" "realesrgan-x4plus"
                "https://example.org/realesrgan.pth" true fresh_world Hnew) as H.
  cbv zeta beta in H. destruct H as (_ & _ & _ & H3 & Hfail & Hclean).
  cbv zeta.
  destruct (H3 eq_refl eq_refl) as [Hg Hs].
  split; [exact Hg|]. split; [exact Hs|].
  split; [exact (Hfail eq_refl eq_refl eq_refl) | exact Hclean].
Defined.

(** C6 as it is worded does not hold: a connection error is not always
    retried.  When the server answers the first request and the connection
    breaks while the body is read, the call fails after that one request,
    without a sleep and without a second attempt. *)
Lemma stream_connection_error_gets_one_attempt :
  let r := download_model breaks_off "models" "realesrgan-x4plus"
             "https://example.org/realesrgan.pth" false fresh_world in
  path_exists (model_file "models" "realesrgan-x4plus") fresh_world = false /\
  (exists resp, breaks_off "https://example.org/realesrgan.pth" 0 = GetReturns resp /\
                status_code resp = 200 /\
                stream_error resp = Some ConnectionErrorC) /\
  fst r = inl (NetworkError "Connection error downloading model"
                 (Requests ConnectionErrorC)) /\
  gets (snd r) = 1%nat /\ sleeps (snd r) = [].
Proof.
  cbv zeta. split; [vm_compute; reflexivity|]. split.
  - eexists. split; [reflexivity|]. split; reflexivity.
  - vm_compute. repeat split.
Qed.

(* ===================================================================== *)
(** * The model manager *)
(* ===================================================================== *)

Ltac monad_unfold :=
  unfold decorated, try_except, bind, ret, raise, lift_result, gets_of, modify,
    emit, in_world, set_manager in *.

Section ManagerFacts.

Variable net : string -> nat -> get_outcome.
Variable models_dir : string.
Variable available_models : gmap string model_info.
Variable unpickle : list Byte.byte -> exn + gmap string state_dict.
Variable fits : architecture -> state_dict -> bool.
Variable swinir_importable : bool.

Lemma load_realesrgan_model_events (name path : string) (info : model_info) (w : world) :
  let r := load_realesrgan_model unpickle fits name path info w in
  exists evs a key,
    torch_events (snd r) = torch_events w ++ evs /\
    evs `prefix_of` load_events name a path key /\
    (forall m, fst r = inr m -> evs = load_events name a path key).
Proof.
  intros r. subst r.
  unfold load_realesrgan_model, torch_load, dict_getitem, load_state_dict.
  monad_unfold.
  set (scale := get_scale info). cbn.
  set (a := if contains "anime" name then RRDBNet 6 scale else RRDBNet 23 scale).
  destruct (fs w !! path) as [bytes|]; cbn.
  2:{ exists [Built name a; Deserialized name path], a, "".
      rewrite <- app_assoc. repeat split; [|discriminate].
      unfold load_events. repeat apply prefix_cons. apply prefix_nil. }
  destruct (unpickle bytes) as [e|loadnet]; cbn.
  { exists [Built name a; Deserialized name path], a, "".
    rewrite <- app_assoc. repeat split; [|discriminate].
    unfold load_events. repeat apply prefix_cons. apply prefix_nil. }
  set (key := if bool_decide (is_Some (loadnet !! "params_ema")) then _ else _).
  destruct (loadnet !! key) as [sd|]; cbn.
  2:{ exists [Built name a; Deserialized name path], a, "".
      rewrite <- app_assoc. repeat split; [|discriminate].
      unfold load_events. repeat apply prefix_cons. apply prefix_nil. }
  destruct (fits a sd); cbn.
  - exists (load_events name a path key), a, key.
    rewrite <- !app_assoc. repeat split; reflexivity.
  - exists [Built name a; Deserialized name path], a, "".
    rewrite <- app_assoc. repeat split; [|discriminate].
    unfold load_events. repeat apply prefix_cons. apply prefix_nil.
Qed.

Lemma load_swinir_model_events (name path : string) (info : model_info) (w : world) :
  let r := load_swinir_model unpickle fits swinir_importable name path info w in
  exists evs a,
    torch_events (snd r) = torch_events w ++ evs /\
    evs `prefix_of` load_events name a path "params" /\
    (forall m, fst r = inr m -> evs = load_events name a path "params").
Proof.
  intros r. subst r.
  unfold load_swinir_model, torch_load, dict_getitem, load_state_dict.
  monad_unfold.
  destruct swinir_importable; cbn.
  2:{ exists [], (SwinIR (JNum 0)). rewrite app_nil_r.
      repeat split; [apply prefix_nil|discriminate]. }
  set (scale := get_scale info). cbn.
  destruct (fs w !! path) as [bytes|]; cbn.
  2:{ exists [Built name (SwinIR scale); Deserialized name path], (SwinIR scale).
      rewrite <- app_assoc. repeat split; [|discriminate].
      unfold load_events. repeat apply prefix_cons. apply prefix_nil. }
  destruct (unpickle bytes) as [e|loadnet]; cbn.
  { exists [Built name (SwinIR scale); Deserialized name path], (SwinIR scale).
    destruct e as [?|?|[] ? ?]; cbn; rewrite <- app_assoc;
      (repeat split; [|discriminate]);
      unfold load_events; repeat apply prefix_cons; apply prefix_nil. }
  destruct (loadnet !! "params") as [sd|]; cbn.
  2:{ exists [Built name (SwinIR scale); Deserialized name path], (SwinIR scale).
      rewrite <- app_assoc. repeat split; [|discriminate].
      unfold load_events. repeat apply prefix_cons. apply prefix_nil. }
  destruct (fits (SwinIR scale) sd); cbn.
  - exists (load_events name (SwinIR scale) path "params"), (SwinIR scale).
    rewrite <- !app_assoc. repeat split; reflexivity.
  - exists [Built name (SwinIR scale); Deserialized name path], (SwinIR scale).
    rewrite <- app_assoc. repeat split; [|discriminate].
    unfold load_events. repeat apply prefix_cons. apply prefix_nil.
Qed.

Lemma manager_download_model_events (name : string) (cb : bool) (s : mstate) :
  let r := manager_download_model net models_dir available_models name cb s in
  torch_events (env (snd r)) = torch_events (env s) /\ manager (snd r) = manager s.
Proof.
  intros r. subst r. unfold manager_download_model. monad_unfold.
  destruct (negb (truthy_info _)); [split; reflexivity|].
  destruct (negb (truthy_json _)); [split; reflexivity|].
  match goal with |- context [download_model ?n ?d ?a ?u ?c ?w] =>
    pose proof (download_model_events n d a u c w) as Hev;
    destruct (download_model n d a u c w) as [[e|p] w']
  end; cbn in *; split; auto.
Qed.

Abbreviation load_from_disk' :=
  (load_from_disk net models_dir available_models unpickle fits swinir_importable).
Abbreviation load_model' :=
  (load_model net models_dir available_models unpickle fits swinir_importable).

(** The loader chosen from the model's name, run on the world of the
    manager. *)
Lemma dispatch_events (name path : string) (info : model_info) (s : mstate) :
  let r :=
    (if contains "realesrgan" (lower name)
     then in_world (load_realesrgan_model unpickle fits name path info)
     else if contains "swinir" (lower name)
     then in_world (load_swinir_model unpickle fits swinir_importable name path info)
     else raise (ModelError "Unsupported model type" None)) s in
  manager (snd r) = manager s /\
  exists evs a key,
    torch_events (env (snd r)) = torch_events (env s) ++ evs /\
    evs `prefix_of` load_events name a path key /\
    (forall m, fst r = inr m -> evs = load_events name a path key).
Proof.
  intros r. subst r.
  destruct (contains "realesrgan" (lower name)); [|destruct (contains "swinir" (lower name))].
  - pose proof (load_realesrgan_model_events name path info (env s)) as H.
    cbv zeta in H. unfold in_world.
    destruct (load_realesrgan_model _ _ _ _ _ _) as [r w]. cbn [fst snd manager env] in *.
    split; [reflexivity|exact H].
  - pose proof (load_swinir_model_events name path info (env s)) as H.
    cbv zeta in H. unfold in_world.
    destruct (load_swinir_model _ _ _ _ _ _ _) as [r w]. cbn [fst snd manager env] in *.
    split; [reflexivity|].
    destruct H as (evs & a & H). exists evs, a, "params". exact H.
  - unfold raise. cbn. split; [reflexivity|].
    exists [], (SwinIR (JNum 0)), "". rewrite app_nil_r.
    repeat split; [apply prefix_nil|discriminate].
Qed.

(** A load from disk: the device sees the events of one load, up to the
    point where it failed; a model is held afterwards exactly when the load
    succeeded. *)
Lemma load_from_disk_spec (name : string) (s : mstate) :
  let r := load_from_disk' name s in
  exists evs a path key,
    torch_events (env (snd r)) = torch_events (env s) ++ evs /\
    evs `prefix_of` load_events name a path key /\
    (forall m, fst r = inr m ->
               evs = load_events name a path key /\
               manager (snd r) = {| loaded_model := Some m;
                                    current_model_name := Some name |}) /\
    (forall e, fst r = inl e -> manager (snd r) = manager s).
Proof.
  intros r.
  assert (r = load_from_disk' name s) as Er by reflexivity. clearbody r.
  unfold load_from_disk in Er.
  destruct (negb (truthy_info _)).
  { subst r. unfold raise. cbn. exists [], (SwinIR (JNum 0)), "", "". rewrite app_nil_r.
    repeat split; try discriminate; try apply prefix_nil; auto. }
  unfold bind at 1 in Er. unfold in_world at 1, gets_of at 1 in Er. cbn [fst snd] in Er.
  assert (forall (path : string) (s1 : mstate),
             torch_events (env s1) = torch_events (env s) ->
             manager s1 = manager s ->
             r =
               try_except
                 (bind
                    (if contains "realesrgan" (lower name)
                     then in_world (load_realesrgan_model unpickle fits name path
                                      (default ∅ (get_model_info available_models name)))
                     else if contains "swinir" (lower name)
                     then in_world (load_swinir_model unpickle fits swinir_importable
                                      name path
                                      (default ∅ (get_model_info available_models name)))
                     else raise (ModelError "Unsupported model type" None))
                    (fun model =>
                       bind (set_manager {| loaded_model := Some model;
                                            current_model_name := Some name |})
                            (fun _ => ret model)))
                 (fun e => raise (ModelError "Error loading model" (Some e))) s1 ->
             exists evs a path key,
               torch_events (env (snd r)) = torch_events (env s) ++ evs /\
               evs `prefix_of` load_events name a path key /\
               (forall m, fst r = inr m ->
                          evs = load_events name a path key /\
                          manager (snd r) = {| loaded_model := Some m;
                                               current_model_name := Some name |}) /\
               (forall e, fst r = inl e -> manager (snd r) = manager s)) as Hload.
  { clear Er. intros path s1 Hev Hmg Er.
    pose proof (dispatch_events name path
                  (default ∅ (get_model_info available_models name)) s1) as H.
    cbv zeta in H.
    unfold try_except in Er. unfold bind at 1 in Er.
    match type of H with manager (snd ?d) = _ /\ _ => set (disp := d) in * end.
    clearbody disp. unfold bind, set_manager, modify, ret, raise in Er.
    destruct disp as [[e|m] s2]; subst r;
      cbn [fst snd manager env] in *; destruct H as (Hm & evs & a & key & Ht & Hp & Hs).
    - exists evs, a, path, key.
      rewrite Ht, Hev. repeat split; auto; try discriminate; intros; congruence.
    - exists evs, a, path, key. rewrite Ht, Hev.
      repeat split; auto; try discriminate; [eauto|congruence]. }
  destruct (path_exists (get_model_path models_dir name) (env s)).
  - unfold bind at 1, ret at 1 in Er. eapply Hload; [| |exact Er]; reflexivity.
  - unfold bind at 1 in Er.
    pose proof (manager_download_model_events name false
                  {| manager := manager s; env := env s |}) as H.
    cbv zeta in H.
    destruct (manager_download_model _ _ _ _ _ _) as [[e|p] s1];
      cbn [fst snd manager env] in *; destruct H as [Hev Hmg].
    + subst r. exists [], (SwinIR (JNum 0)), "", "". cbn [fst snd]. rewrite app_nil_r.
      repeat split; try discriminate; try apply prefix_nil; auto.
    + eapply Hload; [| |exact Er]; assumption.
Qed.

Lemma deserializations_prefix (evs : list torch_event) (name : string)
  (a : architecture) (path key : string) :
  evs `prefix_of` load_events name a path key -> (deserializations evs <= 1)%nat.
Proof.
  intros [k Hk]. unfold load_events in Hk.
  destruct evs as [|e1 [|e2 [|e3 [|e4 [|e5 evs]]]]]; cbn in Hk; simplify_eq;
    unfold deserializations; simpl; lia.
Qed.

(** During a load into an empty device only the model being loaded becomes
    resident. *)
Lemma resident_prefix (pre : list torch_event) (name : string)
  (a : architecture) (path key : string) :
  pre `prefix_of` load_events name a path key -> resident ∅ pre ⊆ {[ name ]}.
Proof.
  intros [k Hk]. unfold load_events in Hk.
  destruct pre as [|e1 [|e2 [|e3 [|e4 [|e5 pre]]]]]; cbn in Hk; simplify_eq; cbn;
    set_solver.
Qed.

Lemma load_model_unfold (name : string) (s : mstate) :
  load_model' name s =
  match loaded_model (manager s) with
  | Some m =>
      if bool_decide (current_model_name (manager s) = Some name)
      then (inr m, s)
      else
        let (r, s') :=
          load_from_disk' name
            {| manager := {| loaded_model := None; current_model_name := None |};
               env := snd (emit (Released (current_model_name (manager s))) (env s)) |} in
        (exception_handler "load_model" r, s')
  | None =>
      let (r, s') := load_from_disk' name s in (exception_handler "load_model" r, s')
  end.
Proof.
  unfold load_model, decorated. unfold bind at 1, gets_of at 1.
  destruct (loaded_model (manager s)) as [m|] eqn:Em; [|reflexivity].
  destruct (bool_decide _); [reflexivity|].
  unfold bind at 1, unload_model, decorated. unfold bind at 1, gets_of at 1.
  rewrite Em. reflexivity.
Qed.

(** C7. A call of [load_model] that returns a model leaves the manager
    holding that model under the requested name.  Unless the manager held
    the model of that name already, the call has built the network and
    deserialized one weight file, once, after releasing what was held: the
    device saw the events of one complete load.  A second call with the
    same name then returns the same model and changes nothing: no file is
    read again, so the two calls deserialize the weights once. *)
Theorem load_model_twice_deserializes_once
  (name : string) (s s1 : mstate) (m : torch_model) :
  load_model' name s = (inr m, s1) ->
  manager s1 = {| loaded_model := Some m; current_model_name := Some name |} /\
  (exists evs,
     torch_events (env s1) = torch_events (env s) ++ evs /\
     if bool_decide (is_Some (loaded_model (manager s)) /\
                     current_model_name (manager s) = Some name)
     then evs = []
     else deserializations evs = 1%nat /\
          exists a path key,
            evs = match loaded_model (manager s) with
                  | Some _ => [Released (current_model_name (manager s))]
                  | None => []
                  end ++ load_events name a path key) /\
  load_model' name s1 = (inr m, s1) /\
  torch_events (env (snd (load_model' name s1))) = torch_events (env s1).
Proof.
  rewrite load_model_unfold.
  assert (forall s0 evs0,
             torch_events (env s0) = torch_events (env s) ++ evs0 ->
             deserializations evs0 = 0%nat ->
             (let (r, s') := load_from_disk' name s0 in
              (exception_handler "load_model" r, s')) = (inr m, s1) ->
             manager s1 = {| loaded_model := Some m; current_model_name := Some name |} /\
             (exists evs,
                torch_events (env s1) = torch_events (env s) ++ evs /\
                deserializations evs = 1%nat /\
                exists a path key, evs = evs0 ++ load_events name a path key) /\
             load_model' name s1 = (inr m, s1)) as Hfresh.
  { intros s0 evs0 Hev0 Hd0 Hrun.
    pose proof (load_from_disk_spec name s0) as H. cbv zeta in H.
    destruct (load_from_disk' name s0) as [[e|m'] s']; cbn [fst snd] in *.
    { destruct e as [?|?|? ? ?]; discriminate. }
    injection Hrun as -> ->.
    destruct H as (evs & a & path & key & Ht & Hp & Hok & _).
    destruct (Hok m eq_refl) as [-> Hm].
    split; [exact Hm|]. split.
    - exists (evs0 ++ load_events name a path key).
      rewrite Ht, Hev0, <- app_assoc. split; [reflexivity|]. split; [|eauto].
      unfold deserializations in *. rewrite List.filter_app, length_app, Hd0.
      reflexivity.
    - rewrite load_model_unfold, Hm. cbn [loaded_model current_model_name].
      now rewrite bool_decide_eq_true_2. }
  destruct (loaded_model (manager s)) as [m0|] eqn:Em.
  - destruct (bool_decide (current_model_name (manager s) = Some name)) eqn:Ename.
    + intros [= <- <-]. apply bool_decide_eq_true in Ename.
      assert (load_model' name s = (inr m0, s)) as Hagain.
      { rewrite load_model_unfold, Em, bool_decide_eq_true_2 by exact Ename.
        reflexivity. }
      split; [destruct (manager s); cbn in *; congruence|]. split.
      * exists []. rewrite app_nil_r. split; [reflexivity|].
        rewrite bool_decide_eq_true_2; [reflexivity|]. split; [eauto|exact Ename].
      * rewrite Hagain. split; reflexivity.
    + intros Hrun. apply bool_decide_eq_false in Ename.
      eapply (Hfresh _ [Released (current_model_name (manager s))]) in Hrun;
        [|reflexivity..].
      destruct Hrun as (Hm & (evs & Hev & Hd & Hload) & Hagain).
      split; [exact Hm|]. split.
      * exists evs. split; [exact Hev|].
        rewrite bool_decide_eq_false_2 by (intros [_ H]; contradiction).
        split; [exact Hd|exact Hload].
      * rewrite Hagain. split; reflexivity.
  - intros Hrun.
    eapply (Hfresh s []) in Hrun; [|now rewrite app_nil_r|reflexivity].
    destruct Hrun as (Hm & (evs & Hev & Hd & Hload) & Hagain).
    split; [exact Hm|]. split.
    + exists evs. split; [exact Hev|].
      rewrite bool_decide_eq_false_2 by (intros [[? H] _]; discriminate).
      split; [exact Hd|exact Hload].
    + rewrite Hagain. split; reflexivity.
Qed.

(** C5. Loading [B] while the manager holds a different model [A]: the
    first thing the device sees is the release of [A], and everything done
    for [B] (building it, deserializing its weights, moving it to the
    device) comes after.  At every point of the call at most one model
    holds device memory, and the manager ends holding at most one. *)
Theorem swap_releases_before_loading
  (A B : string) (mA : torch_model) (s : mstate) :
  loaded_model (manager s) = Some mA ->
  current_model_name (manager s) = Some A ->
  A <> B ->
  let r := load_model' B s in
  exists evs a path key,
    torch_events (env (snd r)) = torch_events (env s) ++ Released (Some A) :: evs /\
    evs `prefix_of` load_events B a path key /\
    (forall pre, pre `prefix_of` (Released (Some A) :: evs) ->
                 size (resident (held_by (manager s)) pre) <= 1)%nat /\
    (size (held_by (manager (snd r))) <= 1)%nat.
Proof.
  intros Hm Hn Hne r. subst r.
  rewrite load_model_unfold, Hm, Hn.
  rewrite bool_decide_eq_false_2 by congruence.
  match goal with |- context [load_from_disk' B ?s0] =>
    pose proof (load_from_disk_spec B s0) as H; cbv zeta in H;
    destruct (load_from_disk' B s0) as [res s']
  end.
  cbn [fst snd env emit modify torch_events] in *.
  destruct H as (evs & a & path & key & Ht & Hp & Hok & Herr).
  exists evs, a, path, key.
  split; [now rewrite Ht, <- app_assoc|]. split; [exact Hp|]. split.
  - intros pre Hpre. unfold held_by. rewrite Hm, Hn.
    destruct pre as [|ev pre].
    + cbn. now rewrite size_singleton.
    + apply prefix_cons_inv_1 in Hpre as Hev. subst ev.
      apply prefix_cons_inv_2 in Hpre.
      assert (pre `prefix_of` load_events B a path key) as Hpre'
          by (etransitivity; eassumption).
      cbn. rewrite difference_diag_L.
      pose proof (resident_prefix pre B a path key Hpre') as Hsub.
      apply subseteq_size in Hsub. rewrite size_singleton in Hsub. exact Hsub.
  - unfold held_by.
    destruct (loaded_model (manager s')), (current_model_name (manager s'));
      rewrite ?size_singleton, ?size_empty; lia.
Qed.

End ManagerFacts.

(** C7 on a disk that holds the file of a RealESRGAN model. *)
Lemma load_model_twice_deserializes_once_witness :
  exists m s1,
    load_model no_network "models" realesrgan_config (fun _ => inr both_sets)
      (fun _ _ => true) true "realesrgan-x4plus"
      (disk_with "models/realesrgan-x4plus.pth") = (inr m, s1) /\
    manager s1 = {| loaded_model := Some m;
                    current_model_name := Some "realesrgan-x4plus" |} /\
    (exists evs,
       torch_events (env s1)
       = torch_events (env (disk_with "models/realesrgan-x4plus.pth")) ++ evs /\
       deserializations evs = 1%nat) /\
    load_model no_network "models" realesrgan_config (fun _ => inr both_sets)
      (fun _ _ => true) true "realesrgan-x4plus" s1 = (inr m, s1).
Proof.
  destruct (load_model no_network "models" realesrgan_config (fun _ => inr both_sets)
              (fun _ _ => true) true "realesrgan-x4plus"
              (disk_with "models/realesrgan-x4plus.pth")) as [[e|m] s1] eqn:E.
  - vm_compute in E. discriminate E.
  - exists m, s1. split; [reflexivity|].
    destruct (load_model_twice_deserializes_once no_network "models" realesrgan_config
                (fun _ => inr both_sets) (fun _ _ => true) true "realesrgan-x4plus"
                (disk_with "models/realesrgan-x4plus.pth") s1 m E)
      as (Hm & (evs & Hev & Hd) & Hagain & _).
    split; [exact Hm|]. split; [|exact Hagain].
    exists evs. split; [exact Hev|]. exact (proj1 Hd).
Defined.

(** C5 on a manager that holds a RealESRGAN model and is asked for a SwinIR
    model whose file is on the disk. *)
Lemma swap_releases_before_loading_witness :
  let s := holding "realesrgan-x4plus" {| arch := RRDBNet 23 (JNum 4); params := ema_set |}
             (disk_with "models/swinir-large.pth") in
  let r := load_model no_network "models" swinir_config (fun _ => inr both_sets)
             (fun _ _ => true) true "swinir-large" s in
  exists evs a path key,
    torch_events (env (snd r))
    = torch_events (env s) ++ Released (Some "realesrgan-x4plus") :: evs /\
    evs `prefix_of` load_events "swinir-large" a path key /\
    (forall pre, pre `prefix_of` (Released (Some "realesrgan-x4plus") :: evs) ->
                 size (resident (held_by (manager s)) pre) <= 1)%nat /\
    (size (held_by (manager (snd r))) <= 1)%nat.
Proof.
  apply (swap_releases_before_loading no_network "models" swinir_config
           (fun _ => inr both_sets) (fun _ _ => true) true
           "realesrgan-x4plus" "swinir-large"
           {| arch := RRDBNet 23 (JNum 4); params := ema_set |});
    [reflexivity | reflexivity | discriminate].
Defined.

(** C8, where the code departs from it: the SwinIR loader reads
    [loadnet['params']] whatever else the file holds, so from a file with
    both sets a SwinIR model gets the standard set, not the EMA set. *)
Theorem swinir_load_ignores_ema :
  fst (load_model no_network "models" swinir_config (fun _ => inr both_sets)
         (fun _ _ => true) true "swinir-large" (disk_with "models/swinir-large.pth"))
  = inr {| arch := SwinIR (JNum 4); params := standard_set |}
  /\ standard_set <> ema_set.
Proof.
  split; [vm_compute; reflexivity|].
  intros H. apply (f_equal (fun d => d !! "conv_first.weight")) in H.
  vm_compute in H. discriminate.
Qed.

(** The RealESRGAN loader does what C8 says: the EMA set is the one
    loaded. *)
Lemma realesrgan_load_prefers_ema :
  fst (load_model no_network "models" realesrgan_config (fun _ => inr both_sets)
         (fun _ _ => true) true "realesrgan-x4plus"
         (disk_with "models/realesrgan-x4plus.pth"))
  = inr {| arch := RRDBNet 23 (JNum 4); params := ema_set |}.
Proof. vm_compute. reflexivity. Qed.

(* ===================================================================== *)
(** * More on the percentage *)
(* ===================================================================== *)

(** The largest binary64 number below 1, and its product with 100. *)
Lemma rounds64_below_1 : rounds64 (1 - pow2 (-53)) (1 - pow2 (-53)).
Proof.
  exists (-53), (2 ^ 53 - 1). split; [|split].
  - split; [vm_compute; discriminate|]. split; [reflexivity|].
    right. vm_compute. discriminate.
  - unfold rne_at.
    assert (scaled (1 - pow2 (-53)) (-53) == inject_Z (2 ^ 53 - 1))%Q as -> by reflexivity.
    split; [lra|]. intros [T|T]; lra.
  - reflexivity.
Qed.

Lemma rounds64_below_100 :
  rounds64 ((1 - pow2 (-53)) * 100) (F2Q 7036874417766399 (-46)).
Proof.
  exists (-46), 7036874417766399. split; [|split].
  - split; [vm_compute; discriminate|]. split; [reflexivity|].
    right. vm_compute. discriminate.
  - unfold rne_at.
    assert (scaled ((1 - pow2 (-53)) * 100) (-46)
            == inject_Z 7036874417766399 + (7 # 32))%Q as -> by reflexivity.
    split; [lra|]. intros [T|T]; lra.
  - reflexivity.
Qed.

(** X8. before the last step the percentage is below 100. *)
Theorem percent_below_100 (k n p : Z) :
  1 <= k < n -> n <= 2 ^ 53 ->
  PyFloat.percent k n = Some p -> 0 <= p <= 99.
Proof.
  intros Hk Hn E.
  destruct (percent_spec k n ltac:(lia)) as (p' & vq & vp & E' & Rq & Q0 & P0 & C & F).
  rewrite E in E'. injection E' as <-.
  assert (0 < inject_Z n)%Q as Hnpos by (apply (Q_of_Zlt 0); lia).
  assert (inject_Z k / inject_Z n <= 1 - pow2 (-53))%Q as Hx.
  { apply Qle_shift_div_r; [exact Hnpos|].
    assert (inject_Z k <= inject_Z n - 1)%Q as H1.
    { assert (inject_Z (k + 1) <= inject_Z n)%Q as H0 by (apply Q_of_Zle; lia).
      rewrite inject_Z_succ in H0. lra. }
    assert (inject_Z n <= inject_Z (2 ^ 53))%Q as H2 by (apply Q_of_Zle; lia).
    assert (pow2 (-53) * inject_Z (2 ^ 53) == 1)%Q as H3 by reflexivity.
    assert (0 < pow2 (-53))%Q as H4 by apply pow2_pos.
    nra. }
  pose proof (rounds64_mono _ _ _ _ Rq rounds64_below_1 Hx) as Hq.
  assert (vp < 100)%Q as Hp.
  { destruct C as [[_ Z']|[N Rp]]; [lra|].
    assert (vq * 100 <= (1 - pow2 (-53)) * 100)%Q as Hy by lra.
    pose proof (rounds64_mono _ _ _ _ Rp rounds64_below_100 Hy) as Hv.
    assert (F2Q 7036874417766399 (-46) < 100)%Q by (vm_compute; reflexivity). lra. }
  split.
  - assert (inject_Z (-1) < inject_Z p)%Q as H.
    { change (inject_Z (-1)) with (-1)%Q. lra. }
    apply Zlt_of_Q in H. lia.
  - assert (inject_Z p < inject_Z 100)%Q as H.
    { change (inject_Z 100) with 100%Q. lra. }
    apply Zlt_of_Q in H. lia.
Qed.

(* ===================================================================== *)
(** * More on the percentage, from 0 *)
(* ===================================================================== *)

Lemma percent_zero (n : Z) : n <> 0 -> PyFloat.percent 0 n = Some 0.
Proof.
  intros Hn. unfold PyFloat.percent, PyFloat.int_truediv.
  destruct (Z.eqb_spec n 0); [contradiction|].
  destruct n; [contradiction| |]; reflexivity.
Qed.

Lemma percent_range (k n : Z) :
  0 <= k <= n -> 1 <= n -> exists p, PyFloat.percent k n = Some p /\ 0 <= p <= 100.
Proof.
  intros Hk Hn. destruct (Z.eq_dec k 0) as [->|Hk0].
  - exists 0. split; [apply percent_zero; lia|lia].
  - destruct (percent_spec k n ltac:(lia)) as (p & vq & vp & E & _ & _ & P0 & _ & F).
    exists p. split; [exact E|]. split.
    + assert (inject_Z (-1) < inject_Z p)%Q as H.
      { change (inject_Z (-1)) with (-1)%Q. lra. }
      apply Zlt_of_Q in H. lia.
    + apply (percent_mono k n n p 100); try lia; [exact E|apply percent_full; lia].
Qed.

Lemma percent_mono_from_0 (k1 k2 n p1 p2 : Z) :
  0 <= k1 <= k2 -> k2 <= n -> 1 <= n ->
  PyFloat.percent k1 n = Some p1 -> PyFloat.percent k2 n = Some p2 -> p1 <= p2.
Proof.
  intros H12 H2n Hn E1 E2. destruct (Z.eq_dec k1 0) as [->|Hk0].
  - rewrite percent_zero in E1 by lia. injection E1 as <-.
    destruct (percent_range k2 n ltac:(lia) Hn) as (p & E & Hp).
    rewrite E in E2. injection E2 as <-. lia.
  - apply (percent_mono k1 k2 n); try assumption; lia.
Qed.

(* ===================================================================== *)
(** * More on the downloader *)
(* ===================================================================== *)

Section DownloaderMore.

Variable net : string -> nat -> get_outcome.
Variable models_dir : string.

Lemma one_attempt_eq (url : string) (w : world) :
  one_attempt net url w =
  (match net url (gets w) with
   | GetRaises c => inl (Requests c)
   | GetReturns r =>
       if transport_failure (GetReturns r) then inl (Requests HTTPErrorC)
       else inr (Some r)
   end, count_get w).
Proof.
  unfold one_attempt, session_get, bind, lift_result, ret, raise_for_status.
  destruct (net url (gets w)) as [c|r]; [reflexivity|].
  cbn [transport_failure].
  destruct ((400 <=? status_code r) && (status_code r <? 600)); reflexivity.
Qed.

Lemma transport_failure_attempt (url : string) (w : world) :
  transport_failure (net url (gets w)) = true ->
  exists e, one_attempt net url w = (inl e, count_get w).
Proof.
  intros H. rewrite one_attempt_eq. destruct (net url (gets w)) as [c|r]; [eauto|].
  rewrite H. eauto.
Qed.

(** The retry loop returns the response of the first attempt that does not
    fail in transport. *)
Lemma retry_loop_first_success (url : string) (w : world) (got : option response) :
  fst (retry_loop net (py_range 0 3 1) 3 2 url w) = inr got ->
  exists resp n,
    got = Some resp /\ (n < 3)%nat /\
    (forall i, (i < n)%nat -> transport_failure (net url (gets w + i)%nat) = true) /\
    net url (gets w + n)%nat = GetReturns resp /\
    transport_failure (GetReturns resp) = false /\
    gets (snd (retry_loop net (py_range 0 3 1) 3 2 url w)) = (gets w + n + 1)%nat /\
    sleeps (snd (retry_loop net (py_range 0 3 1) 3 2 url w)) = sleeps w ++ firstn n [2; 4] /\
    fs (snd (retry_loop net (py_range 0 3 1) 3 2 url w)) = fs w /\
    reported (snd (retry_loop net (py_range 0 3 1) 3 2 url w)) = reported w.
Proof.
  change (py_range 0 3 1) with [0; 1; 2].
  remember (retry_loop net [0; 1; 2] 3 2 url w) as r eqn:Er.
  cbn [retry_loop] in Er. unfold try_except at 1 in Er. rewrite one_attempt_eq in Er.
  change (0 <? 3 - 1) with true in Er. change (1 <? 3 - 1) with true in Er.
  change (2 <? 3 - 1) with false in Er. cbv iota in Er.
  destruct (net url (gets w)) as [c0|r0] eqn:N0;
    [|destruct (transport_failure (GetReturns r0)) eqn:F0].
  3:{ subst r. cbn [fst snd]. intros [= <-]. exists r0, 0%nat.
      rewrite !Nat.add_0_r, app_nil_r.
      repeat split; try assumption; try lia; try (simpl; lia). }
  all: unfold bind at 1, time_sleep at 1, modify at 1 in Er; cbn [fst snd] in Er;
    unfold try_except at 1 in Er; rewrite one_attempt_eq in Er;
    cbn [gets count_get] in Er;
    (destruct (net url (S (gets w))) as [c1|r1] eqn:N1;
      [|destruct (transport_failure (GetReturns r1)) eqn:F1]).
  3,6:
    subst r; cbn [fst snd]; intros [= <-]; exists r1, 1%nat;
    replace (gets w + 1)%nat with (S (gets w)) by lia;
    (repeat split; try assumption; try lia; try reflexivity; try (simpl; lia);
     intros i Hi; assert (i = 0)%nat as -> by lia; rewrite Nat.add_0_r, N0;
     try reflexivity; exact F0).
  all: unfold bind at 1, time_sleep at 1, modify at 1 in Er; cbn [fst snd] in Er;
    unfold try_except at 1 in Er; rewrite one_attempt_eq in Er;
    cbn [gets count_get] in Er;
    (destruct (net url (S (S (gets w)))) as [c2|r2] eqn:N2;
      [|destruct (transport_failure (GetReturns r2)) eqn:F2]);
    unfold raise in Er; subst r; cbn [fst snd]; try discriminate.
  all: intros [= <-]; exists r2, 2%nat;
    replace (gets w + 2)%nat with (S (S (gets w))) by lia;
    (repeat split; try assumption; try lia; try reflexivity; try (simpl; lia);
     [intros i Hi; assert (i = 0 \/ i = 1)%nat as [-> | ->] by lia;
      [rewrite Nat.add_0_r, N0| replace (gets w + 1)%nat with (S (gets w)) by lia; rewrite N1];
      try reflexivity; assumption
     | simpl; rewrite <- app_assoc; reflexivity]).
Qed.

End DownloaderMore.

(* ===================================================================== *)
(** * More on the tiling pipeline *)
(* ===================================================================== *)

(** X1. [postprocess_image] undoes [preprocess_image] on a [uint8] image. *)
Theorem postprocess_preprocess_roundtrip (img : ndarray Z) :
  is_uint8 img -> array_eq (postprocess_image (preprocess_image img)) img.
Proof.
  intros Hu8. split; [reflexivity|].
  intros i j k Hin. unfold postprocess_image, preprocess_image, permute_1_2_0,
    permute_2_0_1, amap. cbn [item dim0 dim1 dim2].
  apply pixel_roundtrip_id, Hu8. exact Hin.
Qed.

(** A loop keeps what each of its iterations keeps. *)
Lemma for_loop_invariant {I S E} (P : S -> Prop) (body : I -> S -> E + S)
  (l : list I) (s s' : S) :
  (forall i s1 s2, body i s1 = inr s2 -> P s1 -> P s2) ->
  P s -> for_loop body l s = inr s' -> P s'.
Proof.
  intros Hbody. revert s. induction l as [|i l IH]; intros s Hs; simpl.
  - intros [= <-]. exact Hs.
  - destruct (body i s) as [e|s1] eqn:Eb; [discriminate|].
    apply IH. eapply Hbody; eassumption.
Qed.

Lemma tile_iteration_shape (self : ImageProcessor) (model : tensor -> exn + tensor)
  (img : ndarray Z) (scale : Z) (callback : bool) (total y x : Z)
  (st st' : tiling_state) :
  tile_iteration self model img scale callback total y x st = inr st' ->
  shape (output st') = shape (output st).
Proof.
  unfold tile_iteration.
  destruct (place_tile self model img scale x y (output st)) as [e|o] eqn:E.
  - destruct (tiles_processed st =? 0); [discriminate|].
    destruct callback; [destruct (PyFloat.percent _ _); [|discriminate]|];
      intros [= <-]; reflexivity.
  - apply place_tile_shape in E.
    destruct callback; [destruct (PyFloat.percent _ _); [|discriminate]|];
      intros [= <-]; exact E.
Qed.

(** X2. the canvas returned has the shape of the input scaled. *)
Theorem tiling_output_shape (self : ImageProcessor) (model : tensor -> exn + tensor)
  (img : ndarray Z) (scale : Z) (callback : bool) (out : ndarray Z) :
  fst (process_image_with_tiling self model img scale callback) = inr out ->
  shape out = (dim0 img * scale, dim1 img * scale, dim2 img).
Proof.
  unfold process_image_with_tiling.
  destruct (tiling_body self model img scale callback) as [[e evs]|st] eqn:E;
    [discriminate|].
  cbn [fst]. intros [= <-]. unfold tiling_body, np_zeros in E.
  destruct ((dim0 img * scale <? 0) || (dim1 img * scale <? 0) || (dim2 img <? 0));
    [discriminate|].
  destruct (tile_size self =? 0); [discriminate|].
  revert E.
  apply (for_loop_invariant
           (fun s => shape (output s) = (dim0 img * scale, dim1 img * scale, dim2 img)));
    [|reflexivity].
  intros y s1 s2 Ey Hs1. revert Ey.
  apply (for_loop_invariant
           (fun s => shape (output s) = (dim0 img * scale, dim1 img * scale, dim2 img)));
    [|exact Hs1].
  intros x s3 s4 Ex H. now rewrite (tile_iteration_shape _ _ _ _ _ _ _ _ _ _ Ex).
Qed.

Lemma grid_empty (self : ImageProcessor) (img : ndarray Z) :
  1 <= tile_size self -> dim0 img = 0 \/ dim1 img = 0 -> grid self img = [].
Proof.
  intros HT Hempty.
  unfold grid, py_range. destruct (Z.ltb_spec 0 (tile_size self)); [|lia].
  destruct Hempty as [-> | ->].
  - replace ((0 - 0 + tile_size self - 1) / tile_size self) with 0; [reflexivity|].
    symmetry. apply Z.div_small. lia.
  - replace ((0 - 0 + tile_size self - 1) / tile_size self) with 0.
    + simpl. induction (map _ _); [reflexivity|assumption].
    + symmetry. apply Z.div_small. lia.
Qed.

(** A run that returns is the run of the loop over the whole grid. *)
Lemma run_returns (self : ImageProcessor) (model : tensor -> exn + tensor)
  (img : ndarray Z) (scale : Z) (callback : bool) (out : ndarray Z) :
  1 <= tile_size self -> 0 <= scale ->
  0 <= dim0 img -> 0 <= dim1 img -> 0 <= dim2 img ->
  fst (process_image_with_tiling self model img scale callback) = inr out ->
  process_image_with_tiling self model img scale callback
  = (inr (outputs_after self model img scale (grid self img) (blank_canvas img scale)),
     expected_events self model img scale callback (total_tiles_of self img)
       (grid self img) 0).
Proof.
  intros HT Hs H0 H1 H2 Hrun.
  destruct (Z.eq_dec (dim0 img) 0) as [E0|N0];
    [|destruct (Z.eq_dec (dim1 img) 0) as [E1|N1]].
  - unfold process_image_with_tiling. rewrite tiling_body_loop by assumption.
    rewrite (grid_empty self img HT (or_introl E0)). reflexivity.
  - unfold process_image_with_tiling. rewrite tiling_body_loop by assumption.
    rewrite (grid_empty self img HT (or_intror E1)). reflexivity.
  - apply run_succeeds; try assumption.
    intros e He.
    rewrite (run_fails self model img scale callback HT Hs H0 H1 H2 e
               ltac:(lia) ltac:(lia) He) in Hrun.
    discriminate Hrun.
Qed.

(** X5. an image without rows or without columns gives the empty canvas; no
    tile is processed and the callback is never called. *)
Theorem empty_image_is_not_processed (self : ImageProcessor)
  (model : tensor -> exn + tensor) (img : ndarray Z) (scale : Z) (callback : bool) :
  1 <= tile_size self -> 0 <= scale ->
  0 <= dim0 img -> 0 <= dim1 img -> 0 <= dim2 img ->
  dim0 img = 0 \/ dim1 img = 0 ->
  process_image_with_tiling self model img scale callback
  = (inr (blank_canvas img scale), []).
Proof.
  intros HT Hs H0 H1 H2 Hempty.
  unfold process_image_with_tiling.
  rewrite tiling_body_loop by assumption.
  rewrite (grid_empty self img HT Hempty). reflexivity.
Qed.

(** X6. a tile size of 0 makes the call fail on the division that counts the
    tiles; a negative tile size makes both loops empty, so the call returns
    the canvas of zeros without running the model. *)
Theorem nonpositive_tile_size (self : ImageProcessor)
  (model : tensor -> exn + tensor) (img : ndarray Z) (scale : Z) (callback : bool) :
  0 <= scale -> 0 <= dim0 img -> 0 <= dim1 img -> 0 <= dim2 img ->
  (tile_size self = 0 ->
   process_image_with_tiling self model img scale callback
   = (inl (ImageProcessingError "Error processing image with tiling"
             (Builtin "ZeroDivisionError")), [])) /\
  (tile_size self < 0 ->
   process_image_with_tiling self model img scale callback
   = (inr (blank_canvas img scale), [])).
Proof.
  intros Hs H0 H1 H2.
  assert (np_zeros (dim0 img * scale) (dim1 img * scale) (dim2 img)
          = inr (blank_canvas img scale)) as Hz.
  { unfold np_zeros.
    destruct (Z.ltb_spec (dim0 img * scale) 0); [nia|].
    destruct (Z.ltb_spec (dim1 img * scale) 0); [nia|].
    destruct (Z.ltb_spec (dim2 img) 0); [lia|]. reflexivity. }
  split; intros HT; unfold process_image_with_tiling, tiling_body; rewrite Hz.
  - rewrite HT. reflexivity.
  - destruct (Z.eqb_spec (tile_size self) 0); [lia|].
    assert (py_range 0 (dim0 img) (tile_size self) = []) as ->; [|reflexivity].
    unfold py_range. destruct (Z.ltb_spec 0 (tile_size self)); [lia|].
    assert ((0 - dim0 img - tile_size self - 1) / - tile_size self <= 0) as Hn.
    { apply Z.lt_succ_r. apply Z.div_lt_upper_bound; lia. }
    destruct ((0 - dim0 img - tile_size self - 1) / - tile_size self); try lia; reflexivity.
Qed.

(** X7. a negative scale on an image that is not empty is rejected when the
    canvas is allocated, before any tile is processed. *)
Theorem negative_scale_is_rejected (self : ImageProcessor)
  (model : tensor -> exn + tensor) (img : ndarray Z) (scale : Z) (callback : bool) :
  scale < 0 -> 1 <= dim0 img \/ 1 <= dim1 img ->
  process_image_with_tiling self model img scale callback
  = (inl (ImageProcessingError "Error processing image with tiling"
            (Builtin "ValueError")), []).
Proof.
  intros Hs Hd. unfold process_image_with_tiling, tiling_body, np_zeros.
  assert ((dim0 img * scale <? 0) || (dim1 img * scale <? 0) || (dim2 img <? 0) = true)
    as ->; [|reflexivity].
  apply orb_true_iff. left. apply orb_true_iff.
  destruct Hd; [left|right]; apply Z.ltb_lt; nia.
Qed.

Lemma nth_error_list_prod {A B} (l1 : list A) (l2 : list B) (a b : nat) (x : A) (y : B) :
  nth_error l1 a = Some x -> nth_error l2 b = Some y ->
  nth_error (list_prod l1 l2) (a * length l2 + b) = Some (x, y).
Proof.
  revert a. induction l1 as [|x1 l1 IH]; intros a Ha Hb.
  - destruct a; discriminate.
  - assert (b < length l2)%nat as Hlt by (apply nth_error_Some; congruence).
    simpl. destruct a as [|a]; simpl in Ha.
    + injection Ha as ->. simpl. rewrite nth_error_app1 by (rewrite length_map; lia).
      rewrite nth_error_map, Hb. reflexivity.
    + rewrite nth_error_app2 by (rewrite length_map; simpl; lia).
      rewrite length_map.
      replace (S a * length l2 + b - length l2)%nat with (a * length l2 + b)%nat
        by (simpl; lia).
      now apply IH.
Qed.

Lemma py_range_nth (n T : Z) (i : nat) :
  1 <= T -> 0 <= n -> (Z.of_nat i < (n + T - 1) / T) ->
  nth_error (py_range 0 n T) i = Some (Z.of_nat i * T).
Proof.
  intros HT Hn Hi. unfold py_range. destruct (Z.ltb_spec 0 T); [|lia].
  rewrite Z.sub_0_r, nth_error_map.
  rewrite (nth_error_nth' _ 0%nat) by (rewrite length_seq; lia).
  rewrite seq_nth by lia. reflexivity.
Qed.

(** X3. the tiles are visited row by row, each row from left to right: the
    tile number [n] (from 0) is the one at column [n mod num_tiles_x] and
    row [n / num_tiles_x], and there are [total_tiles] of them. *)
Theorem tiles_visited_in_row_major_order (self : ImageProcessor)
  (model : tensor -> exn + tensor) (img : ndarray Z) (scale : Z) (callback : bool) :
  1 <= tile_size self -> 0 <= scale ->
  0 <= dim0 img -> 0 <= dim1 img -> 0 <= dim2 img ->
  (forall e, ~ tile_raises self model img scale 0 0 e) ->
  let started := tiles_started (snd (process_image_with_tiling self model img scale callback)) in
  let num_tiles_x := (dim1 img + tile_size self - 1) / tile_size self in
  Z.of_nat (length started) = total_tiles_of self img /\
  forall n, 0 <= n < total_tiles_of self img ->
    nth_error started (Z.to_nat n)
    = Some (n mod num_tiles_x * tile_size self, n / num_tiles_x * tile_size self).
Proof.
  intros HT Hs H0 H1 H2 Hfirst started nx. subst started.
  rewrite run_succeeds by assumption. cbn [snd].
  rewrite tiles_started_expected. split.
  - rewrite length_map. now apply grid_length.
  - intros n Hn. rewrite nth_error_map.
    pose proof (py_range_length (dim1 img) (tile_size self) HT H1) as Lx.
    pose proof (py_range_length (dim0 img) (tile_size self) HT H0) as Ly.
    fold nx in Lx. unfold total_tiles_of in Hn. fold nx in Hn.
    set (ny := (dim0 img + tile_size self - 1) / tile_size self) in *.
    assert (0 < nx) as Hnx by nia.
    pose proof (Z.mod_pos_bound n nx Hnx) as Hmod.
    pose proof (Z.div_mod n nx ltac:(lia)) as Hdm.
    assert (0 <= n / nx < ny) as Hdiv.
    { split; [apply Z.div_pos; lia|]. apply Z.div_lt_upper_bound; nia. }
    unfold grid.
    replace (Z.to_nat n)
      with (Z.to_nat (n / nx) * length (py_range 0 (dim1 img) (tile_size self))
            + Z.to_nat (n mod nx))%nat by nia.
    rewrite (nth_error_list_prod _ _ _ _ (n / nx * tile_size self)
               (n mod nx * tile_size self)).
    + reflexivity.
    + rewrite py_range_nth by (try assumption; rewrite Z2Nat.id; lia).
      rewrite Z2Nat.id by lia. reflexivity.
    + rewrite py_range_nth by (try assumption; rewrite Z2Nat.id; lia).
      rewrite Z2Nat.id by lia. reflexivity.
Qed.

Lemma slice_exact_scaled (a b n s : Z) :
  0 <= a <= b -> b <= n -> 0 <= s ->
  slice_start (a * s) (n * s) = a * s /\
  slice_len (a * s) (b * s) (n * s) = b * s - a * s.
Proof.
  intros Hab Hbn Hs. apply slice_exact.
  - split; [apply Z.mul_nonneg_nonneg; lia|apply Z.mul_le_mono_nonneg_r; lia].
  - apply Z.mul_le_mono_nonneg_r; lia.
Qed.

Lemma min_scaled (n x T s : Z) :
  0 <= s -> Z.min (n * s) (x * s + T * s) = Z.min n (x + T) * s.
Proof.
  intros Hs. rewrite <- Z.mul_add_distr_r. now apply Z.mul_min_distr_nonneg_r.
Qed.

Lemma scaled_interval (a b s i : Z) :
  1 <= s -> a * s <= i < b * s -> a < b.
Proof. intros Hs Hi. nia. Qed.

Section Provenance.

Variable self : ImageProcessor.
Variable model : tensor -> exn + tensor.
Variable img : ndarray Z.
Variable scale : Z.

Hypothesis tile_size_pos : 1 <= tile_size self.
Hypothesis padding_nonneg : 0 <= tile_padding self.
Hypothesis scale_pos : 1 <= scale.

(** The model returns every tile magnified by [scale]. *)
Hypothesis model_scales :
  forall t t', model t = inr t' ->
    dim0 t' = dim0 t /\ dim1 t' = dim1 t * scale /\ dim2 t' = dim2 t * scale.

(** The padded tile around the cell at [(x, y)]. *)
Let padded (x y : Z) : ndarray Z :=
  getslice img (tile_y1 self y) (tile_y2 self img y) (tile_x1 self x) (tile_x2 self img x).

Lemma scaling_place (x y : Z) :
  In (y, x) (grid self img) ->
  match model (preprocess_image (padded x y)) with
  | inl e => place_tile self model img scale x y (blank_canvas img scale) = inl e
  | inr t' =>
      exists o,
        place_tile self model img scale x y (blank_canvas img scale) = inr o /\
        forall i j k,
          dest_covers self img scale x y i j = true -> 0 <= k < dim2 img ->
          item o i j k =
          item (postprocess_image t') (i - tile_y1 self y * scale)
               (j - tile_x1 self x * scale) k
  end.
Proof.
  intros Hin.
  pose proof (dest_covers_spec self img scale tile_size_pos scale_pos x y) as Hcov.
  pose proof Hin as Hg. apply grid_In in Hg; [|assumption].
  destruct Hg as [(a & Ha & Hya & Hy) (b & Hb & Hxb & Hx)].
  assert (0 <= y) as Hy0 by nia. assert (0 <= x) as Hx0 by nia.
  clear a b Ha Hb Hya Hxb.
  unfold place_tile, tile_part. fold (padded x y).
  destruct (model (preprocess_image (padded x y))) as [e|t'] eqn:Em; [reflexivity|].
  destruct (model_scales _ _ Em) as (D0 & D1 & D2). clear Em.
  unfold out_tile_y1, out_tile_y2, out_tile_x1, out_tile_x2, out_y2, out_x2, out_y1, out_x1.
  unfold non_pad_y2, non_pad_x2, non_pad_y1, non_pad_x1.
  unfold padded, preprocess_image, permute_2_0_1, amap, getslice in D0, D1, D2.
  cbn [dim0 dim1 dim2] in D0, D1, D2.
  unfold tile_y1, tile_y2, tile_x1, tile_x2 in *.
  set (T := tile_size self) in *. set (P := tile_padding self) in *.
  set (ty1 := Z.max 0 (y - P)) in *. set (ty2 := Z.min (dim0 img) (y + T + P)) in *.
  set (tx1 := Z.max 0 (x - P)) in *. set (tx2 := Z.min (dim1 img) (x + T + P)) in *.
  assert (Z.max 0 (y - ty1) = y - ty1) as -> by lia.
  assert (Z.max 0 (x - tx1) = x - tx1) as -> by lia.
  assert (Z.min (ty2 - ty1) (y - ty1 + T) = Z.min (dim0 img) (y + T) - ty1) as -> by lia.
  assert (Z.min (tx2 - tx1) (x - tx1 + T) = Z.min (dim1 img) (x + T) - tx1) as -> by lia.
  rewrite !min_scaled by lia.
  assert (forall i j, dest_covers self img scale x y i j = true ->
            y * scale <= i < Z.min (dim0 img) (y + T) * scale /\
            x * scale <= j < Z.min (dim1 img) (x + T) * scale) as Hcov'.
  { intros i j Hc. now apply (Hcov i j Hin). }
  clear Hcov Hin.
  set (cy := Z.min (dim0 img) (y + T)) in *. set (cx := Z.min (dim1 img) (x + T)) in *.
  assert (0 <= ty1 <= y /\ y < cy <= ty2 /\ ty2 <= dim0 img) as Hys by lia.
  assert (0 <= tx1 <= x /\ x < cx <= tx2 /\ tx2 <= dim1 img) as Hxs by lia.
  clearbody cy cx ty1 ty2 tx1 tx2. clear Hy Hx Hy0 Hx0 padded model_scales.
  clearbody T P. clear padding_nonneg tile_size_pos.
  destruct (slice_exact ty1 ty2 (dim0 img)) as [Sy1 Ly1]; [lia..|].
  destruct (slice_exact tx1 tx2 (dim1 img)) as [Sx1 Lx1]; [lia..|].
  rewrite Ly1 in D1. rewrite Lx1 in D2.
  destruct (slice_exact_scaled (y - ty1) (cy - ty1) (ty2 - ty1) scale)
    as [Sy2 Ly2]; [lia..|].
  destruct (slice_exact_scaled (x - tx1) (cx - tx1) (tx2 - tx1) scale)
    as [Sx2 Lx2]; [lia..|].
  destruct (slice_exact_scaled y cy (dim0 img) scale) as [Sy3 Ly3]; [lia..|].
  destruct (slice_exact_scaled x cx (dim1 img) scale) as [Sx3 Lx3]; [lia..|].
  unfold setslice, blank_canvas, getslice, postprocess_image, permute_1_2_0, amap.
  cbn [dim0 dim1 dim2 item]. rewrite D0, D1, D2.
  rewrite Ly2, Lx2, Ly3, Lx3, Sy2, Sx2, Sy3, Sx3.
  unfold broadcasts.
  replace ((cy - ty1) * scale - (y - ty1) * scale) with (cy * scale - y * scale)
    by (clear; lia).
  replace ((cx - tx1) * scale - (x - tx1) * scale) with (cx * scale - x * scale)
    by (clear; lia).
  rewrite !Z.eqb_refl. cbn [orb andb].
  eexists. split; [reflexivity|].
  intros i j k Hc Hk. cbn [item].
  apply Hcov' in Hc. clear Hcov'.
  assert (in_slice (y * scale) (cy * scale) (dim0 img * scale) i = true) as ->.
  { unfold in_slice. rewrite Sy3, Ly3. apply andb_true_iff.
    rewrite Z.leb_le, Z.ltb_lt. clear - Hc. lia. }
  assert (in_slice (x * scale) (cx * scale) (dim1 img * scale) j = true) as ->.
  { unfold in_slice. rewrite Sx3, Lx3. apply andb_true_iff.
    rewrite Z.leb_le, Z.ltb_lt. clear - Hc. lia. }
  cbn [andb].
  assert (forall d p, 0 <= p < d -> bindex d p = p) as Hbx.
  { clear. intros d p Hp. unfold bindex. destruct (Z.eqb_spec d 1); lia. }
  rewrite !Hbx by (clear - Hc Hk; lia).
  replace ((y - ty1) * scale + (i - y * scale)) with (i - ty1 * scale) by (clear; lia).
  replace ((x - tx1) * scale + (j - x * scale)) with (j - tx1 * scale) by (clear; lia).
  reflexivity.
Qed.

(** X4. where every pixel of the result comes from.  With a model that
    magnifies every tile by [scale], the pixel [(i, j)] of the canvas is the
    pixel of the model's output for the padded tile around the one cell
    whose core holds [(i / scale, j / scale)], at its offset from the
    origin of the padded tile; it is 0 when the model raised on that tile. *)
Theorem output_pixel_provenance (callback : bool) (out : ndarray Z) (i j k : Z) :
  fst (process_image_with_tiling self model img scale callback) = inr out ->
  0 <= i < dim0 img * scale -> 0 <= j < dim1 img * scale -> 0 <= k < dim2 img ->
  let y := i / (tile_size self * scale) * tile_size self in
  let x := j / (tile_size self * scale) * tile_size self in
  item out i j k =
  match model (preprocess_image (padded x y)) with
  | inr t' => item (postprocess_image t') (i - tile_y1 self y * scale)
                   (j - tile_x1 self x * scale) k
  | inl _ => 0
  end.
Proof.
  intros Hrun Hi Hj Hk y x.
  assert (1 <= dim0 img) as H0 by nia. assert (1 <= dim1 img) as H1 by nia.
  destruct (grid_head self img tile_size_pos H0 H1) as [rest Hgrid].
  assert (forall e, ~ tile_raises self model img scale 0 0 e) as Hfirst.
  { intros e He.
    rewrite (run_fails self model img scale callback tile_size_pos ltac:(lia)
               ltac:(lia) ltac:(lia) ltac:(lia) e H0 H1 He) in Hrun.
    discriminate Hrun. }
  rewrite run_succeeds in Hrun by (try assumption; lia).
  cbn [fst] in Hrun. injection Hrun as <-.
  pose proof (cover_unique self img scale tile_size_pos scale_pos i j Hi Hj) as Hcov.
  fold y x in Hcov.
  rewrite (outputs_after_covered _ _ _ _ _ _ _ _ _ _ _ eq_refl Hcov).
  assert (In (y, x) (List.filter
                       (fun cell => dest_covers self img scale (snd cell) (fst cell) i j)
                       (grid self img))) as Hf by (rewrite Hcov; now left).
  apply filter_In in Hf. destruct Hf as [Hg Hc]. simpl in Hc.
  pose proof (scaling_place x y Hg) as Hp.
  destruct (model (preprocess_image (padded x y))) as [e|t'].
  - rewrite Hp. reflexivity.
  - destruct Hp as (o & -> & Ho). now apply Ho.
Qed.

End Provenance.

Section DownloaderMore2.

Variable net : string -> nat -> get_outcome.
Variable models_dir : string.

Lemma write_chunks_cons (name path : string) (cb : bool) (total d : Z)
  (data : list Byte.byte) (cs : list (list Byte.byte)) (w : world) :
  write_chunks name path cb total d (data :: cs) w =
  let w1 := set_fs (fun f => <[path := default [] (f !! path) ++ data]> f) w in
  let d1 := d + Z.of_nat (length data) in
  if cb && (0 <? total) then
    match PyFloat.percent d1 total with
    | None => (inl (Builtin "OverflowError"), w1)
    | Some p => write_chunks name path cb total d1 cs (snd (report name p w1))
    end
  else write_chunks name path cb total d1 cs w1.
Proof.
  cbn [write_chunks]. unfold bind, file_write, modify, ret, raise. cbv zeta.
  destruct (cb && (0 <? total)); [|reflexivity].
  destruct (PyFloat.percent _ _); reflexivity.
Qed.

(** Chunks that are all written are appended to the file in order. *)
Lemma write_chunks_fs (name path : string) (cb : bool) (total : Z)
  (cs : list (list Byte.byte)) (d d' : Z) (w : world) (c0 : list Byte.byte) :
  fs w !! path = Some c0 ->
  fst (write_chunks name path cb total d cs w) = inr d' ->
  fs (snd (write_chunks name path cb total d cs w)) = <[path := c0 ++ concat cs]> (fs w).
Proof.
  revert d w c0. induction cs as [|data cs IH]; intros d w c0 Hc0.
  - intros _. cbn. rewrite app_nil_r. symmetry. now apply insert_id.
  - rewrite write_chunks_cons. cbv zeta.
    set (w1 := set_fs _ w).
    assert (fs w1 !! path = Some (c0 ++ data)) as H1.
    { subst w1. cbn. rewrite Hc0. cbn. apply lookup_insert_eq. }
    assert (forall w2, fs w2 = fs w1 ->
              fst (write_chunks name path cb total (d + Z.of_nat (length data)) cs w2)
              = inr d' ->
              fs (snd (write_chunks name path cb total (d + Z.of_nat (length data)) cs w2))
              = <[path := c0 ++ concat (data :: cs)]> (fs w)) as Hstep.
    { intros w2 E2 Hok. rewrite (IH _ w2 (c0 ++ data)); [|now rewrite E2|exact Hok].
      rewrite E2. subst w1. cbn. rewrite Hc0. cbn.
      rewrite insert_insert_eq, <- app_assoc. reflexivity. }
    destruct (cb && (0 <? total)); [|now apply Hstep].
    destruct (PyFloat.percent _ _) as [p|]; [|discriminate].
    now apply Hstep.
Qed.

Lemma write_chunks_reported_none (name path : string) (total : Z)
  (cs : list (list Byte.byte)) (d : Z) (w : world) (cb : bool) :
  cb && (0 <? total) = false ->
  exists w', write_chunks name path cb total d cs w
             = (inr (d + Z.of_nat (length (concat cs))), w') /\
             reported w' = reported w.
Proof.
  intros Hcb. revert d w. induction cs as [|data cs IH]; intros d w.
  - eexists. cbn. rewrite Z.add_0_r. split; reflexivity.
  - rewrite write_chunks_cons, Hcb. cbv zeta.
    destruct (IH (d + Z.of_nat (length data)) (set_fs (fun f => <[path := default [] (f !! path) ++ data]> f) w))
      as (w' & -> & Hr).
    exists w'. split; [|exact Hr].
    cbn [concat]. rewrite length_app. f_equal. f_equal. lia.
Qed.

(** With a callback and a [content-length] the chunks stay below, the loop
    reports the percentage after every chunk. *)
Lemma write_chunks_reported (name path : string) (total : Z)
  (cs : list (list Byte.byte)) (d : Z) (w : world) :
  1 <= total -> 0 <= d -> d + Z.of_nat (length (concat cs)) <= total ->
  exists w' ps,
    write_chunks name path true total d cs w
    = (inr (d + Z.of_nat (length (concat cs))), w') /\
    reported w' = reported w ++ map (pair name) ps /\
    Forall2 (fun k p => PyFloat.percent k total = Some p) (downloaded_after d cs) ps.
Proof.
  intros Ht. revert d w. induction cs as [|data cs IH]; intros d w Hd Hsum.
  - exists w, []. cbn. rewrite Z.add_0_r, app_nil_r. repeat split. constructor.
  - rewrite write_chunks_cons. cbv zeta. cbn [andb].
    destruct (Z.ltb_spec 0 total); [|lia].
    cbn [concat] in Hsum. rewrite length_app in Hsum.
    destruct (percent_range (d + Z.of_nat (length data)) total ltac:(lia) Ht)
      as (p & Ep & _).
    rewrite Ep.
    destruct (IH (d + Z.of_nat (length data))
                (snd (report name p (set_fs (fun f => <[path := default [] (f !! path) ++ data]> f) w))))
      as (w' & ps & -> & Hr & Hps); [lia..|].
    exists w', (p :: ps). split; [|split].
    + cbn [concat]. rewrite length_app. f_equal. f_equal. lia.
    + rewrite Hr. cbn. rewrite <- app_assoc. reflexivity.
    + cbn [downloaded_after]. constructor; assumption.
Qed.

Lemma download_body_unfold (name url path : string) (cb : bool) (w : world) :
  download_body net name url path cb w =
  match retry_loop net (py_range 0 3 1) 3 2 url w with
  | (inl e, w1) => (inl e, w1)
  | (inr None, w1) => (inl (Builtin "UnboundLocalError"), w1)
  | (inr (Some resp), w1) =>
      match write_chunks name path cb (default 0 (content_length resp)) 0 (chunks resp)
              (set_fs (fun f => <[path := []]> f) w1) with
      | (inl e, w3) => (inl e, w3)
      | (inr _, w3) =>
          match stream_error resp with
          | Some c => (inl (Requests c), w3)
          | None => (inr path, if cb then snd (report name 100 w3) else w3)
          end
      end
  end.
Proof.
  unfold download_body. cbv zeta. unfold bind at 1.
  destruct (retry_loop _ _ _ _ _ _) as [[e|[resp|]] w1]; try reflexivity.
  unfold bind, open_wb, modify. cbn [fst snd].
  destruct (write_chunks _ _ _ _ _ _ _) as [[e|d] w3]; [reflexivity|].
  destruct (stream_error resp); [reflexivity|].
  destruct cb; reflexivity.
Qed.

Lemma download_model_existing (name url : string) (cb : bool) (w : world) :
  path_exists (model_file models_dir name) w = true ->
  download_model net models_dir name url cb w
  = (inr (model_file models_dir name),
     if cb then snd (report name 100 w) else w).
Proof.
  intros H. unfold download_model, decorated, bind, gets_of. rewrite H.
  destruct cb; reflexivity.
Qed.

(** A download that returns, for a model whose file was not there. *)
Lemma download_model_returned (name url : string) (cb : bool) (w : world) (p : string) :
  path_exists (model_file models_dir name) w = false ->
  fst (download_model net models_dir name url cb w) = inr p ->
  let w' := snd (download_model net models_dir name url cb w) in
  p = model_file models_dir name /\
  exists resp n,
    (n < 3)%nat /\
    (forall i, (i < n)%nat -> transport_failure (net url (gets w + i)%nat) = true) /\
    net url (gets w + n)%nat = GetReturns resp /\
    transport_failure (GetReturns resp) = false /\
    stream_error resp = None /\
    gets w' = (gets w + n + 1)%nat /\
    sleeps w' = sleeps w ++ firstn n [2; 4] /\
    fs w' = <[p := concat (chunks resp)]> (fs w).
Proof.
  intros Hnew. rewrite (download_model_new net models_dir name url cb w Hnew).
  rewrite download_body_unfold.
  pose proof (retry_loop_first_success net url w) as Hloop.
  pose proof (write_chunks_world) as Hcw.
  destruct (retry_loop net (py_range 0 3 1) 3 2 url w) as [[e|got] w1]; [discriminate|].
  destruct (Hloop got eq_refl) as (resp & n & -> & Hn & Hfail & Hnet & Hok & Hg & Hs & Hf & _).
  cbn [snd] in Hg, Hs, Hf.
  set (path := model_file models_dir name) in *.
  pose proof (write_chunks_fs name path cb (default 0 (content_length resp)) (chunks resp)
                0) as Hfs.
  specialize (Hcw name path cb (default 0 (content_length resp)) 0 (chunks resp)
                (set_fs (fun f => <[path := []]> f) w1)).
  cbv zeta in Hcw.
  destruct (write_chunks name path cb _ 0 (chunks resp) _) as [[e|d] w3] eqn:Ew;
    [discriminate|].
  specialize (Hfs d (set_fs (fun f => <[path := []]> f) w1) []).
  rewrite Ew in Hfs. cbn [fst snd] in Hfs, Hcw.
  destruct Hcw as (Hg3 & Hs3 & _).
  destruct (stream_error resp) eqn:Es; [discriminate|].
  cbn [fst snd]. intros [= <-]. split; [reflexivity|].
  exists resp, n. repeat split; try assumption.
  - destruct cb; cbn; rewrite Hg3; exact Hg.
  - destruct cb; cbn; rewrite Hs3; exact Hs.
  - assert (fs w3 = <[path := concat (chunks resp)]> (fs w)) as Hw3.
    { rewrite Hfs; [|cbn; apply lookup_insert_eq|reflexivity].
      cbn. rewrite insert_insert_eq, Hf. reflexivity. }
    destruct cb; cbn; exact Hw3.
Qed.

(** X9. what a successful download leaves.  When [download_model] returns
    for a model whose file was not there, it returns the path of the model
    file, and that file holds the body (the chunks, in order) of the
    response to the first request that did not fail in transport; this was
    one of the first three requests, and a sleep of 2 and then 4 seconds
    followed each failed one. *)
Theorem download_stores_the_body (name url : string) (cb : bool) (w : world) (p : string) :
  path_exists (model_file models_dir name) w = false ->
  fst (download_model net models_dir name url cb w) = inr p ->
  let w' := snd (download_model net models_dir name url cb w) in
  p = model_file models_dir name /\
  exists resp n,
    (n < 3)%nat /\
    (forall i, (i < n)%nat -> transport_failure (net url (gets w + i)%nat) = true) /\
    net url (gets w + n)%nat = GetReturns resp /\
    transport_failure (GetReturns resp) = false /\
    stream_error resp = None /\
    gets w' = (gets w + n + 1)%nat /\
    sleeps w' = sleeps w ++ firstn n [2; 4] /\
    fs w' = <[p := concat (chunks resp)]> (fs w).
Proof. exact (download_model_returned name url cb w p). Qed.

(** X10. a second download of the same model does not use the network.  After
    a call of [download_model] that returned, the same call returns the same
    path, makes no request, does not sleep and leaves the files as they
    are. *)
Theorem download_again_uses_no_network (name url : string) (cb cb' : bool)
  (w : world) (p : string) :
  fst (download_model net models_dir name url cb w) = inr p ->
  let w1 := snd (download_model net models_dir name url cb w) in
  let r := download_model net models_dir name url cb' w1 in
  fst r = inr p /\ gets (snd r) = gets w1 /\ sleeps (snd r) = sleeps w1 /\
  fs (snd r) = fs w1.
Proof.
  intros Hok w1 r.
  assert (p = model_file models_dir name /\
          path_exists (model_file models_dir name) w1 = true) as [-> Hthere].
  { subst w1. destruct (path_exists (model_file models_dir name) w) eqn:Hex.
    - rewrite (download_model_existing name url cb w Hex) in *.
      cbn [fst snd] in *. injection Hok as <-. split; [reflexivity|].
      destruct cb; exact Hex.
    - destruct (download_model_returned name url cb w p Hex Hok)
        as (-> & resp & n & _ & _ & _ & _ & _ & _ & _ & Hfs).
      split; [reflexivity|]. unfold path_exists. rewrite Hfs.
      apply bool_decide_eq_true_2. rewrite lookup_insert_eq. eauto. }
  subst r. rewrite (download_model_existing name url cb' w1 Hthere).
  destruct cb'; repeat split; reflexivity.
Qed.

(** X11. a failure while the body is streamed is not retried.  When the
    first request is answered and the stream then raises, the call makes
    no second request and does not sleep: it removes the partial file and
    raises a [NetworkError]; without a callback, its cause is the exception
    of the stream. *)
Theorem stream_failure_is_not_retried (name url : string) (cb : bool) (w : world)
  (resp : response) (c : requests_class) :
  path_exists (model_file models_dir name) w = false ->
  net url (gets w) = GetReturns resp ->
  transport_failure (GetReturns resp) = false ->
  stream_error resp = Some c ->
  let r := download_model net models_dir name url cb w in
  (exists msg cause, fst r = inl (NetworkError msg cause)) /\
  (cb = false ->
   fst r = inl (NetworkError (download_error_message (Requests c)) (Requests c))) /\
  gets (snd r) = (gets w + 1)%nat /\ sleeps (snd r) = sleeps w /\
  fs (snd r) !! model_file models_dir name = None /\
  (forall q, q <> model_file models_dir name -> fs (snd r) !! q = fs w !! q).
Proof.
  intros Hnew Hnet Hok Hse r. subst r.
  rewrite (download_model_new net models_dir name url cb w Hnew).
  rewrite download_body_unfold.
  set (path := model_file models_dir name) in *.
  assert (retry_loop net (py_range 0 3 1) 3 2 url w = (inr (Some resp), count_get w)) as ->.
  { change (py_range 0 3 1) with [0; 1; 2]. cbn [retry_loop]. unfold try_except.
    rewrite one_attempt_eq, Hnet, Hok. reflexivity. }
  pose proof (write_chunks_world name path cb (default 0 (content_length resp)) 0
                (chunks resp) (set_fs (fun f => <[path := []]> f) (count_get w))) as Hcw.
  cbv zeta in Hcw.
  pose proof (write_chunks_fs name path cb (default 0 (content_length resp))
                (chunks resp) 0) as Hfs.
  pose proof (write_chunks_reported_none name path (default 0 (content_length resp))
                (chunks resp) 0 (set_fs (fun f => <[path := []]> f) (count_get w)) cb) as Hnone.
  assert (forall (w3 : world),
            gets w3 = S (gets w) -> sleeps w3 = sleeps w ->
            (forall q, q <> path -> fs w3 !! q = fs w !! q) ->
            let w4 := if path_exists path w3
                      then set_fs (fun f => delete path f) w3 else w3 in
            gets w4 = (gets w + 1)%nat /\ sleeps w4 = sleeps w /\
            fs w4 !! path = None /\
            (forall q, q <> path -> fs w4 !! q = fs w !! q)) as Hend.
  { intros w3 Hg Hs Hq. cbv zeta. unfold path_exists.
    destruct (bool_decide (is_Some (fs w3 !! path))) eqn:Hb.
    - cbn. repeat split; try lia; try assumption.
      + apply lookup_delete_eq.
      + intros q Hne. rewrite lookup_delete_ne by congruence. now apply Hq.
    - apply bool_decide_eq_false in Hb. repeat split; try lia; try assumption.
      destruct (fs w3 !! path) eqn:E; [exfalso; apply Hb; eauto|reflexivity]. }
  assert (forall (w3 : world),
            fs w3 = fs (snd (write_chunks name path cb (default 0 (content_length resp)) 0
                               (chunks resp)
                               (set_fs (fun f => <[path := []]> f) (count_get w)))) ->
            forall q, q <> path -> fs w3 !! q = fs w !! q) as Hother.
  { intros w3 -> q Hne. clear -Hne.
    generalize (default 0 (content_length resp)). intros total.
    assert (forall cs d (w0 : world),
               fs (snd (write_chunks name path cb total d cs w0)) !! q = fs w0 !! q) as H.
    { induction cs as [|data cs IH]; intros d w0; [reflexivity|].
      rewrite write_chunks_cons. cbv zeta.
      destruct (cb && (0 <? total)).
      - destruct (PyFloat.percent _ _).
        + rewrite IH. cbn. now rewrite lookup_insert_ne by congruence.
        + cbn. now rewrite lookup_insert_ne by congruence.
      - rewrite IH. cbn. now rewrite lookup_insert_ne by congruence. }
    rewrite H. cbn. now rewrite lookup_insert_ne by congruence. }
  destruct (write_chunks name path cb _ 0 (chunks resp) _) as [[e|d] w3] eqn:Ew.
  - cbn [fst snd] in *. destruct Hcw as (Hg3 & Hs3 & _).
    destruct (Hend w3 Hg3 Hs3 (Hother w3 eq_refl))
      as (G & S & F & O).
    split; [eauto|]. split; [|auto].
    intros ->. destruct (Hnone eq_refl) as (w' & Hw' & _).
    discriminate Hw'.
  - rewrite Hse. cbn [fst snd] in *. destruct Hcw as (Hg3 & Hs3 & _).
    destruct (Hend w3 Hg3 Hs3 (Hother w3 eq_refl))
      as (G & S & F & O).
    split; [eauto|]. split; [reflexivity|auto].
Qed.

(** X12. the progress a download reports.  With a callback, a
    [content-length] of at least 1 and a body that is not longer than it
    says, a download whose first request is answered reports the percentage
    [int(downloaded / total_size * 100)] after every chunk and 100 at the
    end: one call per chunk and one more, with values that never decrease
    and stay between 0 and 100. *)
Theorem download_reports_progress (name url : string) (w : world)
  (resp : response) (total : Z) :
  path_exists (model_file models_dir name) w = false ->
  net url (gets w) = GetReturns resp ->
  transport_failure (GetReturns resp) = false ->
  stream_error resp = None ->
  content_length resp = Some total -> 1 <= total ->
  Z.of_nat (length (concat (chunks resp))) <= total ->
  let r := download_model net models_dir name url true w in
  fst r = inr (model_file models_dir name) /\
  exists ps,
    reported (snd r) = reported w ++ map (pair name) (ps ++ [100]) /\
    Forall2 (fun k p => PyFloat.percent k total = Some p)
            (downloaded_after 0 (chunks resp)) ps /\
    length ps = length (chunks resp) /\
    nondecreasing (ps ++ [100]) /\
    Forall (fun p => 0 <= p <= 100) ps.
Proof.
  intros Hnew Hnet Hok Hse Hcl Ht Hlen r. subst r.
  rewrite (download_model_new net models_dir name url true w Hnew).
  rewrite download_body_unfold.
  set (path := model_file models_dir name) in *.
  assert (retry_loop net (py_range 0 3 1) 3 2 url w = (inr (Some resp), count_get w)) as ->.
  { change (py_range 0 3 1) with [0; 1; 2]. cbn [retry_loop]. unfold try_except.
    rewrite one_attempt_eq, Hnet, Hok. reflexivity. }
  rewrite Hcl. change (default 0 (Some total)) with total.
  destruct (write_chunks_reported name path total (chunks resp) 0
              (set_fs (fun f => <[path := []]> f) (count_get w)) Ht ltac:(lia) ltac:(lia))
    as (w3 & ps & -> & Hr & Hps).
  rewrite Hse. cbn [fst snd]. split; [reflexivity|].
  exists ps. split; [|split; [exact Hps|]].
  { cbn. rewrite Hr. cbn. rewrite map_app, app_assoc. reflexivity. }
  assert (forall cs d ps0,
             0 <= d -> d + Z.of_nat (length (concat cs)) <= total ->
             Forall2 (fun k p => PyFloat.percent k total = Some p)
                     (downloaded_after d cs) ps0 ->
             length ps0 = length cs /\
             Forall (fun p => 0 <= p <= 100) ps0 /\
             (forall p0, PyFloat.percent d total = Some p0 ->
                         nondecreasing (p0 :: ps0 ++ [100]))) as Hgen.
  { clear - Ht. intros cs. induction cs as [|data cs IH]; intros d ps0 Hd Hsum Hf.
    - inversion Hf; subst. split; [reflexivity|]. split; [constructor|].
      intros p0 E0. cbn. split; [|exact I]. cbn in Hsum.
      destruct (percent_range d total ltac:(lia) Ht) as (p & E & Hp).
      rewrite E in E0. injection E0 as <-. lia.
    - cbn [downloaded_after] in Hf. inversion Hf as [|k p ks ps1 Hk Hrest]; subst.
      cbn [concat] in Hsum. rewrite length_app in Hsum.
      destruct (IH (d + Z.of_nat (length data)) ps1 ltac:(lia) ltac:(lia) Hrest)
        as (Hl & Hall & Hnd).
      split; [cbn; now rewrite Hl|]. split.
      + constructor; [|exact Hall].
        destruct (percent_range (d + Z.of_nat (length data)) total ltac:(lia) ltac:(lia))
          as (p' & E & Hp). rewrite E in Hk. injection Hk as <-. exact Hp.
      + intros p0 E0. cbn [app nondecreasing]. split; [|now apply Hnd].
        apply (percent_mono_from_0 d (d + Z.of_nat (length data)) total); try lia;
          assumption. }
  destruct (Hgen (chunks resp) 0 ps ltac:(lia) ltac:(lia) Hps) as (Hl & Hall & Hnd).
  split; [exact Hl|]. split; [|exact Hall].
  specialize (Hnd 0 (percent_zero total ltac:(lia))).
  destruct ps as [|p1 ps1]; [exact I|]. cbn in Hnd |- *. tauto.
Qed.

(** X13. without a [content-length] header (or with a length of 0) the only
    progress a download reports is the final 100. *)
Theorem download_without_length_reports_once (name url : string) (w : world)
  (resp : response) :
  path_exists (model_file models_dir name) w = false ->
  net url (gets w) = GetReturns resp ->
  transport_failure (GetReturns resp) = false ->
  stream_error resp = None ->
  default 0 (content_length resp) <= 0 ->
  let r := download_model net models_dir name url true w in
  fst r = inr (model_file models_dir name) /\
  reported (snd r) = reported w ++ [(name, 100)] /\
  fs (snd r) !! model_file models_dir name = Some (concat (chunks resp)).
Proof.
  intros Hnew Hnet Hok Hse Hcl r. subst r.
  rewrite (download_model_new net models_dir name url true w Hnew).
  rewrite download_body_unfold.
  set (path := model_file models_dir name) in *.
  assert (retry_loop net (py_range 0 3 1) 3 2 url w = (inr (Some resp), count_get w)) as ->.
  { change (py_range 0 3 1) with [0; 1; 2]. cbn [retry_loop]. unfold try_except.
    rewrite one_attempt_eq, Hnet, Hok. reflexivity. }
  pose proof (write_chunks_fs name path true (default 0 (content_length resp))
                (chunks resp) 0) as Hfs.
  destruct (write_chunks_reported_none name path (default 0 (content_length resp))
              (chunks resp) 0 (set_fs (fun f => <[path := []]> f) (count_get w)) true)
    as (w3 & Ew & Hr).
  { cbn. apply Z.ltb_ge. exact Hcl. }
  specialize (Hfs (0 + Z.of_nat (length (concat (chunks resp))))
                (set_fs (fun f => <[path := []]> f) (count_get w)) []).
  rewrite Ew in *. rewrite Hse. cbn [fst snd] in *.
  split; [reflexivity|]. split.
  - cbn. rewrite Hr. reflexivity.
  - cbn. rewrite Hfs; [|cbn; apply lookup_insert_eq|reflexivity].
    apply lookup_insert_eq.
Qed.

End DownloaderMore2.

(* ===================================================================== *)
(** * More on the model manager *)
(* ===================================================================== *)

Lemma with_events_nil (w : world) : with_events w [] = w.
Proof. destruct w. unfold with_events. cbn. now rewrite app_nil_r. Qed.

Section ManagerMore.

Variable net : string -> nat -> get_outcome.
Variable models_dir : string.
Variable available_models : gmap string model_info.
Variable unpickle : list Byte.byte -> exn + gmap string state_dict.
Variable fits : architecture -> state_dict -> bool.
Variable swinir_importable : bool.

Abbreviation load_from_disk'' :=
  (load_from_disk net models_dir available_models unpickle fits swinir_importable).
Abbreviation load_model'' :=
  (load_model net models_dir available_models unpickle fits swinir_importable).

(** What the RealESRGAN loader does with a file that deserializes. *)
Lemma load_realesrgan_model_result (name path : string) (info : model_info) (w : world)
  (scale : json) (bytes : list Byte.byte) (loadnet : gmap string state_dict) :
  get_scale info = scale ->
  fs w !! path = Some bytes ->
  unpickle bytes = inr loadnet ->
  let a := if contains "anime" name then RRDBNet 6 scale else RRDBNet 23 scale in
  let key := if bool_decide (is_Some (loadnet !! "params_ema"))
             then "params_ema" else "params" in
  load_realesrgan_model unpickle fits name path info w =
  match loadnet !! key with
  | Some sd =>
      if fits a sd
      then (inr {| arch := a; params := sd |},
            with_events w (load_events name a path key))
      else (inl (ModelError "Error loading RealESRGAN model" (Some (Builtin "RuntimeError"))),
            with_events w [Built name a; Deserialized name path])
  | None =>
      (inl (ModelError "Error loading RealESRGAN model" (Some (Builtin "KeyError"))),
       with_events w [Built name a; Deserialized name path])
  end.
Proof.
  intros Hscale Hfile Hpickle a key.
  unfold load_realesrgan_model, torch_load, dict_getitem, load_state_dict.
  monad_unfold. rewrite Hscale. cbn. rewrite Hfile. cbn. rewrite Hpickle. cbn.
  fold a. fold key.
  destruct (loadnet !! key) as [sd|]; cbn.
  - destruct (fits a sd); cbn; unfold with_events, load_events; cbn;
      rewrite <- ?app_assoc; reflexivity.
  - unfold with_events; cbn; rewrite <- ?app_assoc; reflexivity.
Qed.


Lemma truthy_info_Some (info : model_info) :
  info <> ∅ -> truthy_info (Some info) = true.
Proof.
  intros H. unfold truthy_info. apply negb_true_iff. now apply bool_decide_eq_false_2.
Qed.

(** A load from a file that is there: the loader chosen by the name runs,
    and the manager records the model it returns. *)
Lemma load_from_disk_existing (name : string) (s : mstate) (info : model_info) :
  available_models !! name = Some info -> info <> ∅ ->
  path_exists (model_file models_dir name) (env s) = true ->
  load_from_disk'' name s =
  match
    (if contains "realesrgan" (lower name)
     then load_realesrgan_model unpickle fits name (model_file models_dir name) info
     else if contains "swinir" (lower name)
     then load_swinir_model unpickle fits swinir_importable name
            (model_file models_dir name) info
     else raise (ModelError "Unsupported model type" None)) (env s)
  with
  | (inr model, w') =>
      (inr model, {| manager := {| loaded_model := Some model;
                                   current_model_name := Some name |};
                     env := w' |})
  | (inl e, w') =>
      (inl (ModelError "Error loading model" (Some e)),
       {| manager := manager s; env := w' |})
  end.
Proof.
  intros Hinfo Hne Hthere. unfold load_from_disk, get_model_info, get_model_path.
  rewrite Hinfo, (truthy_info_Some info Hne). cbn [negb].
  change (default ∅ (Some info)) with info.
  unfold bind at 1, in_world at 1, gets_of at 1. rewrite Hthere.
  unfold bind at 1, ret at 1. unfold try_except, bind.
  destruct (contains "realesrgan" (lower name));
    [|destruct (contains "swinir" (lower name))]; unfold in_world.
  - destruct (load_realesrgan_model _ _ _ _ _ _) as [[e|m] w']; reflexivity.
  - destruct (load_swinir_model _ _ _ _ _ _ _) as [[e|m] w']; reflexivity.
  - reflexivity.
Qed.

(** X14. a RealESRGAN model loaded from a file that is there.  The network
    has 6 blocks when the name contains [anime] (as written, in lower case)
    and 23 otherwise, with the scale of the configuration; the parameter set
    is [params_ema] when the file has it and [params] otherwise; the load
    fails, with the cause wrapped twice in a [ModelError], when the file has
    neither or when the set does not fit the network, and the manager then
    holds no model. *)
Theorem realesrgan_load_outcome (name : string) (s : mstate) (info : model_info)
  (scale : json) (bytes : list Byte.byte) (loadnet : gmap string state_dict) :
  loaded_model (manager s) = None ->
  available_models !! name = Some info -> info <> ∅ ->
  get_scale info = scale ->
  contains "realesrgan" (lower name) = true ->
  fs (env s) !! model_file models_dir name = Some bytes ->
  unpickle bytes = inr loadnet ->
  let path := model_file models_dir name in
  let a := if contains "anime" name then RRDBNet 6 scale else RRDBNet 23 scale in
  let key := if bool_decide (is_Some (loadnet !! "params_ema"))
             then "params_ema" else "params" in
  let failed cause :=
    (inl (ModelError "Error loading model"
            (Some (ModelError "Error loading RealESRGAN model" (Some cause)))),
     {| manager := manager s;
        env := with_events (env s) [Built name a; Deserialized name path] |}) in
  load_model'' name s =
  match loadnet !! key with
  | Some sd =>
      if fits a sd
      then (inr {| arch := a; params := sd |},
            {| manager := {| loaded_model := Some {| arch := a; params := sd |};
                             current_model_name := Some name |};
               env := with_events (env s) (load_events name a path key) |})
      else failed (Builtin "RuntimeError")
  | None => failed (Builtin "KeyError")
  end.
Proof.
  intros Hnone Hinfo Hne Hscale Hname Hfile Hpickle path a key failed.
  rewrite load_model_unfold, Hnone.
  rewrite (load_from_disk_existing name s info Hinfo Hne).
  2:{ unfold path_exists. rewrite Hfile. apply bool_decide_eq_true_2. eauto. }
  rewrite Hname. subst path.
  rewrite (load_realesrgan_model_result name (model_file models_dir name) info (env s)
             scale bytes loadnet Hscale Hfile Hpickle).
  cbv zeta. fold a key. subst failed. cbv beta.
  destruct (loadnet !! key) as [sd|]; [destruct (fits a sd)|]; reflexivity.
Qed.

(** X15. without the SwinIR module no SwinIR model can be loaded.  When
    [from models.swinir_model import SwinIR] fails, [load_model] on a model
    of that kind whose file is there fails before anything is built or
    read: the device sees nothing and the manager is as it was. *)
Theorem swinir_needs_its_module (name : string) (s : mstate) (info : model_info) :
  swinir_importable = false ->
  loaded_model (manager s) = None ->
  available_models !! name = Some info -> info <> ∅ ->
  contains "realesrgan" (lower name) = false ->
  contains "swinir" (lower name) = true ->
  path_exists (model_file models_dir name) (env s) = true ->
  load_model'' name s =
  (inl (ModelError "Error loading model"
          (Some (ModelError "SwinIR model requires additional dependencies"
                   (Some (Builtin "ImportError"))))), s).
Proof.
  intros Himp Hnone Hinfo Hne Hreal Hswin Hthere.
  rewrite load_model_unfold, Hnone.
  rewrite (load_from_disk_existing name s info Hinfo Hne Hthere).
  rewrite Hreal, Hswin. unfold load_swinir_model. monad_unfold. rewrite Himp.
  cbn. destruct s; reflexivity.
Qed.

(** X16. a model of a kind the manager does not know is rejected only after
    its file is found: with the file there, [load_model] on a name that
    contains neither [realesrgan] nor [swinir] fails and changes nothing. *)
Theorem unsupported_model_type (name : string) (s : mstate) (info : model_info) :
  loaded_model (manager s) = None ->
  available_models !! name = Some info -> info <> ∅ ->
  contains "realesrgan" (lower name) = false ->
  contains "swinir" (lower name) = false ->
  path_exists (model_file models_dir name) (env s) = true ->
  load_model'' name s =
  (inl (ModelError "Error loading model"
          (Some (ModelError "Unsupported model type" None))), s).
Proof.
  intros Hnone Hinfo Hne Hreal Hswin Hthere.
  rewrite load_model_unfold, Hnone.
  rewrite (load_from_disk_existing name s info Hinfo Hne Hthere).
  rewrite Hreal, Hswin. unfold raise. cbn. destruct s; reflexivity.
Qed.

(** X17. a name the configuration does not list.  [load_model] fails with
    [ModelError] without touching the files or the network, but a model of
    another name that the manager held has been released by then. *)
Theorem unknown_model_is_rejected (name : string) (s : mstate) :
  truthy_info (available_models !! name) = false ->
  current_model_name (manager s) <> Some name ->
  let r := load_model'' name s in
  fst r = inl (ModelError "Unknown model" None) /\
  manager (snd r) = match loaded_model (manager s) with
                    | Some _ => {| loaded_model := None; current_model_name := None |}
                    | None => manager s
                    end /\
  env (snd r) = match loaded_model (manager s) with
                | Some _ => with_events (env s) [Released (current_model_name (manager s))]
                | None => env s
                end.
Proof.
  intros Hinfo Hother r. subst r. rewrite load_model_unfold.
  assert (forall s0, load_from_disk'' name s0 = (inl (ModelError "Unknown model" None), s0))
    as Hl.
  { intros s0. unfold load_from_disk, get_model_info. rewrite Hinfo. reflexivity. }
  destruct (loaded_model (manager s)) as [m|].
  - rewrite bool_decide_eq_false_2 by exact Hother. rewrite Hl. cbn.
    repeat split.
  - rewrite Hl. cbn. repeat split.
Qed.

(** Whatever [load_from_disk] raises is a [ModelError]. *)
Lemma load_from_disk_raises_ModelError (name : string) (s : mstate) (e : exn) :
  fst (load_from_disk'' name s) = inl e -> exists msg cause, e = ModelError msg cause.
Proof.
  unfold load_from_disk.
  destruct (negb (truthy_info _)); [cbn; intros [= <-]; eauto|].
  unfold bind at 1, in_world at 1, gets_of at 1.
  destruct (path_exists _ _).
  - unfold bind at 1, ret at 1. unfold try_except.
    destruct (bind _ _ _) as [[e'|m] s']; cbn; [intros [= <-]; eauto|discriminate].
  - unfold bind at 1. unfold manager_download_model, decorated.
    match goal with |- context [let (r, s') := ?c in _] => destruct c as [[e'|p] s'] eqn:Ec end.
    + cbn. intros [= <-].
      destruct (negb (truthy_info _)); [cbn in Ec; injection Ec as <- _; cbn; eauto|].
      destruct (negb (truthy_json _)); [cbn in Ec; injection Ec as <- _; cbn; eauto|].
      unfold try_except in Ec.
      destruct (in_world _ _) as [[e''|p] s'']; cbn in Ec; [|discriminate].
      injection Ec as <- _. cbn. eauto.
    + cbn. unfold try_except.
      destruct (bind _ _ _) as [[e'|m] s'']; cbn; [intros [= <-]; eauto|discriminate].
Qed.

(** X18. how [load_model] fails.  Whatever goes wrong (unknown name, failed
    download, unreadable or unfitting file, unknown kind of model), the
    exception is a [ModelError], and the manager holds no model afterwards:
    the model it held before, if any, is not kept. *)
Theorem load_model_failure (name : string) (s : mstate) (e : exn) :
  fst (load_model'' name s) = inl e ->
  (exists msg cause, e = ModelError msg cause) /\
  loaded_model (manager (snd (load_model'' name s))) = None.
Proof.
  rewrite load_model_unfold.
  assert (forall s0, loaded_model (manager s0) = None ->
            fst (let (r, s') := load_from_disk'' name s0 in
                 (exception_handler "load_model" r, s')) = inl e ->
            (exists msg cause, e = ModelError msg cause) /\
            loaded_model (manager (snd (let (r, s') := load_from_disk'' name s0 in
                                        (exception_handler "load_model" r, s')))) = None)
    as Hl.
  { intros s0 Hnone.
    pose proof (load_from_disk_raises_ModelError name s0) as Hr.
    pose proof (load_from_disk_spec net models_dir available_models unpickle fits
                  swinir_importable name s0) as Hs.
    cbv zeta in Hs. destruct Hs as (evs & a & path & key & _ & _ & _ & Hkeep).
    destruct (load_from_disk'' name s0) as [[e0|m] s'] eqn:E; cbn [fst snd] in *;
      [|discriminate].
    destruct (Hr e0 eq_refl) as (msg & cause & ->). cbn. intros [= <-].
    split; [eauto|]. rewrite (Hkeep _ eq_refl). exact Hnone. }
  destruct (loaded_model (manager s)) as [m|] eqn:Hm.
  - destruct (bool_decide _); [discriminate|]. apply Hl. reflexivity.
  - apply Hl. exact Hm.
Qed.

End ManagerMore.

Section ManagerDownloads.

Variable net : string -> nat -> get_outcome.
Variable models_dir : string.
Variable available_models : gmap string model_info.
Variable unpickle : list Byte.byte -> exn + gmap string state_dict.
Variable fits : architecture -> state_dict -> bool.
Variable swinir_importable : bool.

Abbreviation load_model3 :=
  (load_model net models_dir available_models unpickle fits swinir_importable).
Abbreviation manager_download_model3 :=
  (manager_download_model net models_dir available_models).

(** Without a callback the loop over the chunks only writes. *)
Lemma write_chunks_silent (name path : string) (total : Z)
  (cs : list (list Byte.byte)) (d : Z) (w : world) (c0 : list Byte.byte) :
  fs w !! path = Some c0 ->
  write_chunks name path false total d cs w
  = (inr (d + Z.of_nat (length (concat cs))),
     set_fs (fun f => <[path := c0 ++ concat cs]> f) w).
Proof.
  revert d w c0. induction cs as [|data cs IH]; intros d w c0 Hc0.
  - cbn. rewrite Z.add_0_r, app_nil_r. f_equal. destruct w. unfold set_fs. cbn in *.
    f_equal. symmetry. now apply insert_id.
  - rewrite write_chunks_cons. cbn [andb]. cbv zeta.
    rewrite (IH _ _ (c0 ++ data)).
    2:{ cbn. rewrite Hc0. cbn. apply lookup_insert_eq. }
    cbn [concat]. rewrite length_app. f_equal; [f_equal; lia|].
    unfold set_fs. cbn. rewrite Hc0. cbn. rewrite insert_insert_eq, <- app_assoc.
    reflexivity.
Qed.

(** A download without callback whose first request is answered. *)
Lemma download_model_answered (name url : string) (w : world) (resp : response) :
  path_exists (model_file models_dir name) w = false ->
  net url (gets w) = GetReturns resp ->
  transport_failure (GetReturns resp) = false ->
  stream_error resp = None ->
  download_model net models_dir name url false w
  = (inr (model_file models_dir name),
     {| fs := <[model_file models_dir name := concat (chunks resp)]> (fs w);
        gets := S (gets w); sleeps := sleeps w; reported := reported w;
        torch_events := torch_events w |}).
Proof.
  intros Hnew Hnet Hok Hse.
  rewrite (download_model_new net models_dir name url false w Hnew).
  rewrite download_body_unfold.
  assert (retry_loop net (py_range 0 3 1) 3 2 url w = (inr (Some resp), count_get w)) as ->.
  { change (py_range 0 3 1) with [0; 1; 2]. cbn [retry_loop]. unfold try_except.
    rewrite one_attempt_eq, Hnet, Hok. reflexivity. }
  rewrite (write_chunks_silent _ _ _ _ _ _ []) by (cbn; apply lookup_insert_eq).
  rewrite Hse. f_equal. unfold set_fs, count_get. cbn.
  now rewrite insert_insert_eq.
Qed.

(** A download whose three requests fail in transport. *)
Lemma download_model_unreachable (name url : string) (cb : bool) (w : world) :
  path_exists (model_file models_dir name) w = false ->
  (forall i, (i < 3)%nat -> transport_failure (net url (gets w + i)%nat) = true) ->
  let r := download_model net models_dir name url cb w in
  (exists msg cause, fst r = inl (NetworkError msg cause)) /\
  gets (snd r) = (gets w + 3)%nat /\ sleeps (snd r) = sleeps w ++ [2; 4] /\
  fs (snd r) = fs w /\ torch_events (snd r) = torch_events w /\
  reported (snd r) = reported w.
Proof.
  intros Hnew Hfail r. subst r.
  rewrite (download_model_new net models_dir name url cb w Hnew).
  rewrite download_body_unfold.
  change (py_range 0 3 1) with [0; 1; 2].
  remember (retry_loop net [0; 1; 2] 3 2 url w) as l eqn:El.
  cbn [retry_loop] in El. unfold try_except at 1 in El.
  destruct (transport_failure_attempt net url w) as (e0 & E0).
  { rewrite <- (Nat.add_0_r (gets w)). apply Hfail. lia. }
  rewrite E0 in El. change (0 <? 3 - 1) with true in El. cbv iota in El.
  unfold bind at 1, time_sleep at 1, modify at 1 in El. cbn [fst snd] in El.
  unfold try_except at 1 in El.
  match type of El with context [one_attempt net url ?w1] =>
    destruct (transport_failure_attempt net url w1) as (e1 & E1);
      [cbn [gets count_get]; replace (S (gets w)) with (gets w + 1)%nat by lia;
       apply Hfail; lia|]
  end.
  rewrite E1 in El. change (1 <? 3 - 1) with true in El. cbv iota in El.
  unfold bind at 1, time_sleep at 1, modify at 1 in El. cbn [fst snd] in El.
  unfold try_except at 1 in El.
  match type of El with context [one_attempt net url ?w1] =>
    destruct (transport_failure_attempt net url w1) as (e2 & E2);
      [cbn [gets count_get]; replace (S (S (gets w))) with (gets w + 2)%nat by lia;
       apply Hfail; lia|]
  end.
  rewrite E2 in El. change (2 <? 3 - 1) with false in El. cbv iota in El.
  unfold raise in El. subst l. cbn [fst snd].
  match goal with |- context [path_exists ?p ?w1] =>
    assert (path_exists p w1 = false) as -> by exact Hnew
  end.
  cbn. split; [eauto|]. repeat split; try lia.
  now rewrite <- app_assoc.
Qed.

Lemma manager_download_model_eq (name : string) (cb : bool) (s : mstate)
  (info : model_info) (url : string) :
  available_models !! name = Some info -> info <> ∅ ->
  info !! "url" = Some (JStr url) -> url <> "" ->
  manager_download_model3 name cb s =
  match download_model net models_dir name url cb (env s) with
  | (inr p, w') => (inr p, {| manager := manager s; env := w' |})
  | (inl e, w') =>
      (inl (ModelError "Failed to download model" (Some e)),
       {| manager := manager s; env := w' |})
  end.
Proof.
  intros Hinfo Hne Hurl Hu. unfold manager_download_model, get_model_info.
  rewrite Hinfo, (truthy_info_Some info Hne). cbn [negb].
  change (default ∅ (Some info)) with info. rewrite Hurl.
  cbn [truthy_json]. assert (String.eqb url "" = false) as -> by now apply String.eqb_neq.
  cbn [negb]. monad_unfold.
  destruct (download_model _ _ _ _ _ _) as [[e|p] w']; reflexivity.
Qed.


(** X21. a model whose file is missing is downloaded and then loaded.  With
    no model held and no file at the model's path, [load_model] on a
    RealESRGAN model makes one request when it is answered at once; the
    body becomes the model file, and the model is built from what that body
    deserializes to. *)
Theorem load_model_downloads_missing_file (name : string) (s : mstate)
  (info : model_info) (url : string) (scale : json) (resp : response)
  (loadnet : gmap string state_dict) (sd : state_dict) :
  loaded_model (manager s) = None ->
  available_models !! name = Some info -> info <> ∅ ->
  info !! "url" = Some (JStr url) -> url <> "" ->
  get_scale info = scale ->
  contains "realesrgan" (lower name) = true ->
  path_exists (model_file models_dir name) (env s) = false ->
  net url (gets (env s)) = GetReturns resp ->
  transport_failure (GetReturns resp) = false ->
  stream_error resp = None ->
  unpickle (concat (chunks resp)) = inr loadnet ->
  let path := model_file models_dir name in
  let a := if contains "anime" name then RRDBNet 6 scale else RRDBNet 23 scale in
  let key := if bool_decide (is_Some (loadnet !! "params_ema"))
             then "params_ema" else "params" in
  loadnet !! key = Some sd -> fits a sd = true ->
  load_model3 name s =
  (inr {| arch := a; params := sd |},
   {| manager := {| loaded_model := Some {| arch := a; params := sd |};
                    current_model_name := Some name |};
      env := {| fs := <[path := concat (chunks resp)]> (fs (env s));
                gets := S (gets (env s)); sleeps := sleeps (env s);
                reported := reported (env s);
                torch_events := torch_events (env s) ++ load_events name a path key |} |}).
Proof.
  intros Hnone Hinfo Hne Hurl Hu Hscale Hname Hnew Hnet Hok Hse Hpickle path a key Hsd Hfits.
  rewrite load_model_unfold, Hnone.
  unfold load_from_disk, get_model_info, get_model_path.
  rewrite Hinfo, (truthy_info_Some info Hne). cbn [negb].
  change (default ∅ (Some info)) with info.
  unfold bind at 1, in_world at 1, gets_of at 1. rewrite Hnew.
  unfold bind at 1. cbv beta iota.
  rewrite (manager_download_model_eq name false _ info url Hinfo Hne Hurl Hu).
  cbn [env manager].
  rewrite (download_model_answered name url (env s) resp Hnew Hnet Hok Hse).
  rewrite Hname. unfold try_except, bind, in_world. cbn [env manager].
  rewrite (load_realesrgan_model_result unpickle fits name path info _ scale
             (concat (chunks resp)) loadnet Hscale);
    [|cbn; apply lookup_insert_eq|exact Hpickle].
  cbv zeta. fold a key. rewrite Hsd, Hfits. reflexivity.
Qed.

(** A load whose download fails three times. *)
Lemma load_model_unreachable (name : string) (s : mstate)
  (info : model_info) (url : string) :
  loaded_model (manager s) = None ->
  available_models !! name = Some info -> info <> ∅ ->
  info !! "url" = Some (JStr url) -> url <> "" ->
  path_exists (model_file models_dir name) (env s) = false ->
  (forall i, (i < 3)%nat -> transport_failure (net url (gets (env s) + i)%nat) = true) ->
  let r := load_model3 name s in
  (exists msg cause,
     fst r = inl (ModelError "Failed to download model" (Some (NetworkError msg cause)))) /\
  manager (snd r) = manager s /\
  torch_events (env (snd r)) = torch_events (env s) /\
  fs (env (snd r)) = fs (env s) /\
  gets (env (snd r)) = (gets (env s) + 3)%nat /\
  sleeps (env (snd r)) = sleeps (env s) ++ [2; 4].
Proof.
  intros Hnone Hinfo Hne Hurl Hu Hnew Hfail r.
  assert (r = load_model3 name s) as Er by reflexivity. clearbody r.
  rewrite load_model_unfold, Hnone in Er.
  unfold load_from_disk, get_model_info, get_model_path in Er.
  rewrite Hinfo, (truthy_info_Some info Hne) in Er. cbn [negb] in Er.
  change (default ∅ (Some info)) with info in Er.
  unfold bind at 1, in_world at 1, gets_of at 1 in Er. rewrite Hnew in Er.
  unfold bind at 1 in Er. cbv beta iota in Er.
  rewrite (manager_download_model_eq name false _ info url Hinfo Hne Hurl Hu) in Er.
  cbn [env manager] in Er.
  pose proof (download_model_unreachable name url false (env s) Hnew Hfail) as H.
  cbv zeta in H.
  destruct (download_model net models_dir name url false (env s)) as [[e|p] w'].
  - cbn [fst snd] in *. destruct H as ((msg & cause & [= ->]) & Hg & Hs & Hf & Ht & _).
    subst r. cbn. split; [eauto|]. repeat split; try assumption; reflexivity.
  - destruct H as ((msg & cause & H) & _). discriminate H.
Qed.

(** X22. a model whose file is missing and cannot be downloaded.  When the
    three requests fail, [load_model] raises a [ModelError] whose cause is
    the [NetworkError] of the downloader; nothing is built or deserialized,
    no file is left and the manager holds no model. *)
Theorem load_model_download_failure (name : string) (s : mstate)
  (info : model_info) (url : string) :
  loaded_model (manager s) = None ->
  available_models !! name = Some info -> info <> ∅ ->
  info !! "url" = Some (JStr url) -> url <> "" ->
  path_exists (model_file models_dir name) (env s) = false ->
  (forall i, (i < 3)%nat -> transport_failure (net url (gets (env s) + i)%nat) = true) ->
  let r := load_model3 name s in
  (exists msg cause,
     fst r = inl (ModelError "Failed to download model" (Some (NetworkError msg cause)))) /\
  manager (snd r) = manager s /\
  torch_events (env (snd r)) = torch_events (env s) /\
  fs (env (snd r)) = fs (env s) /\
  gets (env (snd r)) = (gets (env s) + 3)%nat /\
  sleeps (env (snd r)) = sleeps (env s) ++ [2; 4].
Proof.
  exact (load_model_unreachable name s info url).
Qed.

End ManagerDownloads.

(* ===================================================================== *)
(** * The upscaler *)
(* ===================================================================== *)

(** [10 + int(p * 0.8)] for every [p] from 0 to 100, computed. *)
Lemma adjusted_progress_all :
  forallb (fun n => match adjusted_progress (Z.of_nat n) with
                    | Some a => a =? 10 + 4 * Z.of_nat n / 5
                    | None => false
                    end) (seq 0 101) = true.
Proof. vm_compute. reflexivity. Qed.

(** X23. the progress [upscale_image] passes on.  For a tile progress [p]
    between 0 and 100, [10 + int(p * 0.8)] is [10 + floor(4p/5)]: the
    product with the binary64 number 0.8 never falls below the integer it
    should reach.  So the tiles move the progress from 10 up to 90, and a
    larger tile progress never gives a smaller value. *)
Theorem adjusted_progress_spec (p : Z) :
  0 <= p <= 100 ->
  adjusted_progress p = Some (10 + 4 * p / 5) /\
  10 <= 10 + 4 * p / 5 <= 90 /\
  forall q, p <= q <= 100 -> 10 + 4 * p / 5 <= 10 + 4 * q / 5.
Proof.
  intros Hp. split; [|split].
  - pose proof adjusted_progress_all as Hall. rewrite forallb_forall in Hall.
    specialize (Hall (Z.to_nat p)). rewrite Z2Nat.id in Hall by lia.
    destruct (adjusted_progress p) as [a|].
    + f_equal. apply Z.eqb_eq, Hall, in_seq. lia.
    + discriminate Hall. apply in_seq. lia.
  - assert (0 <= 4 * p / 5) by (apply Z.div_pos; lia).
    assert (4 * p / 5 <= 80) by (apply Z.div_le_upper_bound; lia). lia.
  - intros q Hq. apply Z.add_le_mono_l. apply Z.div_le_mono; lia.
Qed.

Lemma adjusted_progress_value (p : Z) :
  0 <= p <= 100 -> adjusted_progress p = Some (10 + 4 * p / 5).
Proof.
  intros Hp. pose proof adjusted_progress_all as Hall. rewrite forallb_forall in Hall.
  specialize (Hall (Z.to_nat p)). rewrite Z2Nat.id in Hall by lia.
  destruct (adjusted_progress p) as [a|].
  - f_equal. apply Z.eqb_eq, Hall, in_seq. lia.
  - discriminate Hall. apply in_seq. lia.
Qed.

Section UpscalerFacts.

Variable net : string -> nat -> get_outcome.
Variable models_dir : string.
Variable available_models : gmap string model_info.
Variable unpickle : list Byte.byte -> exn + gmap string state_dict.
Variable fits : architecture -> state_dict -> bool.
Variable swinir_importable : bool.
Variable default_model : option string.
Variable config_output_dir : string.
Variable image_processor : ImageProcessor.
Variable decode_image : list Byte.byte -> exn + ndarray Z.
Variable encode_image : string -> ndarray Z -> exn + list Byte.byte.
Variable forward : torch_model -> tensor -> exn + tensor.

Abbreviation upscale_image' :=
  (upscale_image net models_dir available_models unpickle fits swinir_importable
     default_model config_output_dir image_processor decode_image encode_image forward).
Abbreviation upscale_batch' :=
  (upscale_batch net models_dir available_models unpickle fits swinir_importable
     default_model config_output_dir image_processor decode_image encode_image forward).
Abbreviation batch_loop' :=
  (batch_loop net models_dir available_models unpickle fits swinir_importable
     default_model config_output_dir image_processor decode_image encode_image forward).
Abbreviation load_model4 :=
  (load_model net models_dir available_models unpickle fits swinir_importable).
Abbreviation batch_trace' :=
  (batch_trace net models_dir available_models unpickle fits swinir_importable
     default_model config_output_dir image_processor decode_image encode_image forward).

(** X24. a model the configuration does not list.  [upscale_image] checks
    the name before it asks the manager for the model: it raises an
    [UpscalerError] that wraps the one for the unknown model, and the
    state is untouched; in particular the model the manager holds stays
    loaded, unlike after [load_model] on such a name. *)
Theorem upscale_image_unknown_model (image_path : string)
  (output_path model_name : option string)
  (progress_callback : option (Z -> M ustate unit)) (u : ustate) :
  truthy_info
    match (match model_name with Some n => Some n | None => default_model end) with
    | Some n => available_models !! n
    | None => None
    end = false ->
  upscale_image' image_path output_path model_name progress_callback u
  = (inl (Upscaler UpscalerErrorC "Error upscaling image"
            (Some (Upscaler UpscalerErrorC "Unknown model" None))), u).
Proof.
  intros H. unfold upscale_image, decorated, try_except, get_model_info.
  cbv zeta. rewrite H. reflexivity.
Qed.


Lemma load_image_world (image_path : string) (w : world) :
  snd (load_image decode_image image_path w) = w.
Proof.
  unfold load_image, decorated, bind, gets_of. cbn.
  destruct (fs w !! image_path) as [bytes|]; [|reflexivity].
  destruct (decode_image bytes) as [e|img]; reflexivity.
Qed.


(** [upscale_image] on a model the configuration lists, step by step. *)
Lemma upscale_image_unfold (image_path : string) (output_path model_name : option string)
  (progress_callback : option (Z -> M ustate unit)) (u : ustate)
  (name : string) (info : model_info) :
  match model_name with Some n => Some n | None => default_model end = Some name ->
  available_models !! name = Some info -> info <> ∅ ->
  let wrap e := Upscaler UpscalerErrorC "Error upscaling image" (Some e) in
  let path := match output_path with
              | Some p => p
              | None => upscaled_path config_output_dir image_path
              end in
  upscale_image' image_path output_path model_name progress_callback u =
  match load_model4 name (mst u) with
  | (inl e, s1) => (inl (wrap e), with_mst u s1)
  | (inr model, s1) =>
      match load_image decode_image image_path (env s1) with
      | (inl e, _) => (inl (wrap e), with_mst u s1)
      | (inr img, _) =>
          match call_if_given progress_callback 10 (with_mst u s1) with
          | (inl e, u3) => (inl (wrap e), u3)
          | (inr _, u3) =>
              match tiling_scale info with
              | inl e => (inl (wrap e), u3)
              | inr scale =>
                  match run_tiling image_processor forward model img scale
                          (progress_wrapper progress_callback) u3 with
                  | (inl e, u4) => (inl (wrap e), u4)
                  | (inr output, u4) =>
                      match save_image encode_image output path (env (mst u4)) with
                      | (inl e, w5) =>
                          (inl (wrap e),
                           with_mst u4 {| manager := manager (mst u4); env := w5 |})
                      | (inr _, w5) =>
                          match call_if_given progress_callback 100
                                  (with_mst u4 {| manager := manager (mst u4);
                                                  env := w5 |}) with
                          | (inl e, u6) => (inl (wrap e), u6)
                          | (inr _, u6) => (inr path, u6)
                          end
                      end
                  end
              end
          end
      end
  end.
Proof.
  intros Hname Hinfo Hne wrap path.
  unfold upscale_image, decorated, try_except, get_model_info. cbv zeta.
  rewrite Hname, Hinfo, (truthy_info_Some info Hne). cbn [negb].
  change (default ∅ (Some info)) with info. change (default "" (Some name)) with name.
  destruct u as [s0 pc bc]. unfold with_mst. cbn [mst progress_calls batch_calls].
  unfold bind at 1. unfold in_manager at 1. cbn [mst progress_calls batch_calls].
  destruct (load_model4 name s0) as [[e|model] [m1 w1]]; [reflexivity|].
  unfold bind at 1. unfold in_manager at 1, in_world at 1.
  cbn [mst progress_calls batch_calls env manager].
  pose proof (load_image_world image_path w1) as Hw.
  destruct (load_image decode_image image_path w1) as [[e|img] w2];
    cbn [snd] in Hw; subst w2; [reflexivity|].
  unfold bind at 1.
  destruct (call_if_given progress_callback 10 _) as [[e|[]] u3]; [reflexivity|].
  unfold bind at 1, lift_result at 1.
  destruct (tiling_scale info) as [e|scale]; [reflexivity|].
  unfold bind at 1.
  destruct (run_tiling _ _ _ _ _ _ u3) as [[e|output] u4]; [reflexivity|].
  unfold bind at 1. unfold in_manager at 1, in_world at 1. fold path.
  destruct (save_image encode_image output path (env (mst u4))) as [[e|p] w5];
    [reflexivity|].
  unfold bind, ret.
  destruct (call_if_given progress_callback 100 _) as [[e|[]] u6]; reflexivity.
Qed.


Lemma nondecreasing_cons (a : Z) (l : list Z) :
  nondecreasing l -> (forall b, head l = Some b -> a <= b) -> nondecreasing (a :: l).
Proof.
  intros Hl Hh. destruct l as [|b l]; [exact I|].
  split; [apply Hh; reflexivity|exact Hl].
Qed.

Lemma nondecreasing_framed (f : Z -> Z) (lo hi : Z) (l : list Z) :
  (forall v w, In v l -> In w l -> v <= w -> f v <= f w) ->
  (forall v, In v l -> lo <= f v <= hi) -> lo <= hi ->
  nondecreasing l -> nondecreasing (lo :: map f l ++ [hi]).
Proof.
  intros Hmono Hrange Hlh Hl. apply nondecreasing_cons.
  - induction l as [|a l IH]; [exact I|].
    cbn [map app]. apply nondecreasing_cons.
    + apply IH.
      * intros v w Hv Hw. apply Hmono; now right.
      * intros v Hv. apply Hrange. now right.
      * destruct l; [exact I|]. apply Hl.
    + intros b Hb. destruct l as [|a' l]; cbn in Hb; injection Hb as <-.
      * apply Hrange. now left.
      * apply Hmono; [now left|right; now left|]. apply Hl.
  - intros b Hb. destruct l as [|a l]; cbn in Hb; injection Hb as <-; [exact Hlh|].
    apply Hrange. now left.
Qed.

Lemma progress_from_range (total : Z) (n : nat) (done : Z) :
  0 <= done -> done + Z.of_nat n <= total ->
  Forall (fun v => 0 <= v <= 100) (progress_from total n done).
Proof.
  revert done. induction n as [|n IH]; intros done Hd Hn; [constructor|].
  cbn [progress_from].
  destruct (percent_range (done + 1) total ltac:(lia) ltac:(lia)) as (p & -> & Hp).
  cbn [app]. constructor; [exact Hp|]. apply IH; lia.
Qed.

(** The values a run that returns passes to its callback. *)
Lemma run_callback_values (self : ImageProcessor) (model : tensor -> exn + tensor)
  (img : ndarray Z) (scale : Z) (out : ndarray Z) :
  1 <= tile_size self -> 0 <= scale ->
  0 <= dim0 img -> 0 <= dim1 img -> 0 <= dim2 img ->
  fst (process_image_with_tiling self model img scale true) = inr out ->
  let values := callback_values (snd (process_image_with_tiling self model img scale true)) in
  Z.of_nat (length values) = total_tiles_of self img /\
  Forall (fun v => 0 <= v <= 100) values /\
  nondecreasing values.
Proof.
  intros HT Hs H0 H1 H2 Hrun values. subst values.
  rewrite (run_returns self model img scale true out HT Hs H0 H1 H2 Hrun). cbn [snd].
  rewrite callback_values_expected.
  pose proof (grid_length self img HT H0 H1) as Hlen.
  split; [|split].
  - rewrite progress_from_length by lia. exact Hlen.
  - apply progress_from_range; lia.
  - apply progress_from_nondecreasing; lia.
Qed.

Lemma replay_record (evs : list event) (u : ustate) :
  Forall (fun v => 0 <= v <= 100) (callback_values evs) ->
  replay_callbacks (progress_wrapper (Some record_progress)) evs u
  = (inr tt,
     {| mst := mst u;
        progress_calls := progress_calls u
                          ++ map (fun v => 10 + 4 * v / 5) (callback_values evs);
        batch_calls := batch_calls u |}).
Proof.
  revert u. induction evs as [|ev evs IH]; intros u Hr.
  - cbn. rewrite app_nil_r. destruct u; reflexivity.
  - destruct ev as [x y|x y e|p]; cbn [replay_callbacks callback_values flat_map app] in *;
      try (now apply IH).
    inversion Hr as [|? ? Hp Hrest]; subst.
    unfold bind, progress_wrapper. rewrite (adjusted_progress_value p Hp).
    unfold record_progress at 1, modify. rewrite IH by exact Hrest.
    cbn [mst progress_calls batch_calls map]. rewrite <- app_assoc. reflexivity.
Qed.

Lemma replay_returns (callback : Z -> M ustate unit) (evs : list event) (u : ustate) :
  callback_returns callback ->
  Forall (fun v => 0 <= v <= 100) (callback_values evs) ->
  let r := replay_callbacks (progress_wrapper (Some callback)) evs u in
  fst r = inr tt /\ mst (snd r) = mst u /\ batch_calls (snd r) = batch_calls u.
Proof.
  intros Hcb. revert u. induction evs as [|ev evs IH]; intros u Hr.
  - cbn. auto.
  - destruct ev as [x y|x y e|p]; cbn [replay_callbacks callback_values flat_map app] in *;
      try (now apply IH).
    inversion Hr as [|? ? Hp Hrest]; subst.
    unfold bind, progress_wrapper. rewrite (adjusted_progress_value p Hp).
    destruct (Hcb (10 + 4 * p / 5) u) as (Hf & Hm & Hb).
    destruct (callback (10 + 4 * p / 5) u) as [[e|[]] u1]; cbn [fst snd] in *;
      [discriminate|].
    destruct (IH u1 Hrest) as (Hf1 & Hm1 & Hb1). cbv zeta in *.
    split; [exact Hf1|]. split; [rewrite <- Hm; exact Hm1 | rewrite <- Hb; exact Hb1].
Qed.

Lemma save_image_returned (img : ndarray Z) (path p : string) (w w' : world) :
  save_image encode_image img path w = (inr p, w') ->
  p = path /\ dirname path <> "" /\
  exists bytes, encode_image path img = inr bytes /\
                w' = set_fs (fun f => <[path := bytes]> f) w.
Proof.
  unfold save_image, os_makedirs. monad_unfold.
  destruct (String.eqb_spec (dirname path) ""); cbn; [discriminate|].
  destruct (encode_image path img) as [e|bytes]; cbn; [discriminate|].
  intros [= <- <-]. split; [reflexivity|]. split; [assumption|]. eauto.
Qed.

Lemma load_model_returned (name : string) (s s1 : mstate) (m : torch_model) :
  load_model4 name s = (inr m, s1) ->
  loaded_model (manager s1) = Some m /\ current_model_name (manager s1) = Some name.
Proof.
  rewrite load_model_unfold.
  assert (forall s0, (let (r, s') := load_from_disk net models_dir available_models
                                       unpickle fits swinir_importable name s0 in
                      (exception_handler "load_model" r, s')) = (inr m, s1) ->
                     loaded_model (manager s1) = Some m /\
                     current_model_name (manager s1) = Some name) as Hl.
  { intros s0.
    pose proof (load_from_disk_spec net models_dir available_models unpickle fits
                  swinir_importable name s0) as Hs.
    cbv zeta in Hs. destruct Hs as (evs & a & path & key & _ & _ & Hok & _).
    destruct (load_from_disk _ _ _ _ _ _ _ s0) as [[e|m'] s']; cbn [fst snd] in *.
    - destruct e; discriminate.
    - cbn. intros [= <- <-]. destruct (Hok m' eq_refl) as [_ ->]. auto. }
  destruct (loaded_model (manager s)) as [m0|] eqn:Hm.
  - destruct (bool_decide (current_model_name (manager s) = Some name)) eqn:Hb.
    + intros [= <- <-]. apply bool_decide_eq_true in Hb. auto.
    + apply Hl.
  - apply Hl.
Qed.


Lemma load_image_returned (image_path : string) (w w' : world) (img : ndarray Z) :
  load_image decode_image image_path w = (inr img, w') ->
  exists bytes, fs w !! image_path = Some bytes /\ decode_image bytes = inr img.
Proof.
  unfold load_image, decorated, bind, gets_of. cbn.
  destruct (fs w !! image_path) as [bytes|]; [|discriminate].
  destruct (decode_image bytes) as [e|img'] eqn:E; cbn; [discriminate|].
  intros [= <- <-]. eauto.
Qed.

Lemma run_tiling_raises (model : torch_model) (img : ndarray Z) (scale : Z)
  (callback : Z -> M ustate unit) (u : ustate) (e : exn) :
  fst (process_image_with_tiling image_processor (forward model) img scale true) = inl e ->
  exists e' u', run_tiling image_processor forward model img scale callback u = (inl e', u').
Proof.
  intros H. unfold run_tiling, bind, try_except, lift_result. cbv zeta. rewrite H.
  destruct (replay_callbacks _ _ _) as [[e1|[]] u1]; cbn; eauto.
Qed.

Lemma progress_from_nth (total : Z) (n : nat) (done : Z) (k : nat) :
  0 <= done -> done + Z.of_nat n <= total -> (k < n)%nat ->
  nth_error (progress_from total n done) k = PyFloat.percent (done + Z.of_nat k + 1) total.
Proof.
  revert done k. induction n as [|n IH]; intros done k Hd Hn Hk; [lia|].
  cbn [progress_from].
  destruct (percent_defined (done + 1) total ltac:(lia)) as [p Hp]. rewrite Hp.
  destruct k as [|k]; cbn [app nth_error].
  - rewrite <- Hp. f_equal. lia.
  - rewrite IH by lia. f_equal. lia.
Qed.

Lemma tiling_scale_number (info : model_info) (scale : Z) :
  get_scale info = JNum scale -> tiling_scale info = inr scale.
Proof. intros H. unfold tiling_scale. rewrite H. reflexivity. Qed.

(** X25. the progress of one image.  A call of [upscale_image] that returns
    has read the image from the file at [image_path] as it is once the model
    is loaded, and has called its callback with 10, then once per tile of
    that image with [10 + int(v * 0.8)], where [v] is the value
    [int(k / total_tiles * 100)] of the tiling loop after its [k]-th tile,
    and with 100 at the end: values that never decrease, from 10 to 100,
    one per tile and two more. *)
Theorem upscale_image_reports_progress (image_path : string)
  (output_path model_name : option string) (u : ustate)
  (name : string) (info : model_info) (scale : Z) (p : string) :
  match model_name with Some n => Some n | None => default_model end = Some name ->
  available_models !! name = Some info -> info <> ∅ ->
  get_scale info = JNum scale -> 0 <= scale ->
  1 <= tile_size image_processor ->
  (forall bytes img, decode_image bytes = inr img ->
                     0 <= dim0 img /\ 0 <= dim1 img /\ 0 <= dim2 img) ->
  fst (upscale_image' image_path output_path model_name (Some record_progress) u)
  = inr p ->
  exists model s1 content img tile_values,
    load_model4 name (mst u) = (inr model, s1) /\
    fs (env s1) !! image_path = Some content /\
    decode_image content = inr img /\
    progress_calls
      (snd (upscale_image' image_path output_path model_name (Some record_progress) u))
    = progress_calls u ++ 10 :: map (fun v => 10 + 4 * v / 5) tile_values ++ [100] /\
    Z.of_nat (length tile_values) = total_tiles_of image_processor img /\
    (forall k, (k < length tile_values)%nat ->
               nth_error tile_values k
               = PyFloat.percent (Z.of_nat k + 1) (total_tiles_of image_processor img)) /\
    Forall (fun v => 0 <= v <= 100) tile_values /\
    nondecreasing (10 :: map (fun v => 10 + 4 * v / 5) tile_values ++ [100]).
Proof.
  intros Hname Hinfo Hne Hscale Hs HT Hdec.
  pose proof (upscale_image_unfold image_path output_path model_name
                (Some record_progress) u name info Hname Hinfo Hne) as Er.
  cbv zeta in Er. rewrite (tiling_scale_number info scale Hscale) in Er.
  set (r := upscale_image' image_path output_path model_name (Some record_progress) u)
    in *. clearbody r.
  destruct (load_model4 name (mst u)) as [[e|model] s1];
    [subst r; discriminate|].
  destruct (load_image decode_image image_path (env s1)) as [[e|img] w2] eqn:El;
    [subst r; discriminate|].
  destruct (load_image_returned _ _ _ _ El) as (bytes & Hfile & Hb).
  destruct (Hdec bytes img Hb) as (H0 & H1 & H2).
  cbn [call_if_given] in Er. unfold record_progress at 1, modify at 1 in Er.
  cbn [mst progress_calls batch_calls with_mst] in Er.
  destruct (fst (process_image_with_tiling image_processor (forward model) img scale true))
    as [e|out] eqn:Erun.
  { match type of Er with context [run_tiling _ _ _ _ _ ?cb ?u3] =>
      destruct (run_tiling_raises model img scale cb u3 e Erun) as (e' & u' & Et)
    end. rewrite Et in Er. subst r. discriminate. }
  destruct (run_callback_values image_processor (forward model) img scale out
              HT Hs H0 H1 H2 Erun) as (Hlen & Hrange & Hnd).
  pose proof (run_returns image_processor (forward model) img scale true out
                HT Hs H0 H1 H2 Erun) as Hrun.
  apply (f_equal (fun r => callback_values (snd r))) in Hrun. cbn [snd] in Hrun.
  rewrite callback_values_expected in Hrun.
  unfold run_tiling, bind, try_except, lift_result in Er. cbv zeta in Er.
  rewrite (replay_record _ _ Hrange), Erun in Er.
  cbn [mst progress_calls batch_calls with_mst env manager] in Er.
  destruct (save_image encode_image out _ (env s1)) as [[e|p'] w5];
    [subst r; discriminate|].
  unfold record_progress, modify in Er.
  cbn [fst snd mst progress_calls batch_calls with_mst] in Er.
  subst r. cbn [fst snd progress_calls]. intros _.
  exists model, s1, bytes, img,
    (callback_values
       (snd (process_image_with_tiling image_processor (forward model) img scale true))).
  split; [reflexivity|]. split; [exact Hfile|]. split; [exact Hb|].
  split; [|split; [exact Hlen|split; [|split; [exact Hrange|]]]].
  - rewrite <- !app_assoc. reflexivity.
  - intros k Hk. rewrite Hrun in Hk |- *.
    pose proof (grid_length image_processor img HT H0 H1) as Hg.
    rewrite progress_from_length in Hk by lia.
    rewrite progress_from_nth by lia. f_equal.
  - apply nondecreasing_framed; [| |lia|exact Hnd].
    + intros v w Hv Hw Hvw. apply Z.add_le_mono_l. apply Z.div_le_mono; lia.
    + intros v Hv. pose proof (proj1 (List.Forall_forall _ _) Hrange v Hv) as Hr.
      cbv beta in Hr.
      assert (0 <= 4 * v / 5) by (apply Z.div_pos; lia).
      assert (4 * v / 5 <= 80) by (apply Z.div_le_upper_bound; lia). lia.
Qed.

(** X26. the result of one image.  A call of [upscale_image] that returns
    (with no callback, or one that returns and keeps to itself) returns the
    output path it was given, or [<output dir>/<name>_upscaled<ext>] when
    none was given, and the directory part of that path is not empty.  The
    model is the one [load_model] returned for the requested name, the
    image is what the file at [image_path] decodes to once the model is
    loaded, and the file at the returned path holds the encoding of the
    canvas the tiling loop returned for that image with that model at the
    configured scale; no other file changes, and the manager holds the
    model afterwards. *)
Theorem upscale_image_writes_result (image_path : string)
  (output_path model_name : option string)
  (progress_callback : option (Z -> M ustate unit)) (u : ustate)
  (name : string) (info : model_info) (scale : Z) (p : string) :
  match model_name with Some n => Some n | None => default_model end = Some name ->
  available_models !! name = Some info -> info <> ∅ ->
  get_scale info = JNum scale -> 0 <= scale ->
  1 <= tile_size image_processor ->
  (forall bytes img, decode_image bytes = inr img ->
                     0 <= dim0 img /\ 0 <= dim1 img /\ 0 <= dim2 img) ->
  (forall callback, progress_callback = Some callback -> callback_returns callback) ->
  fst (upscale_image' image_path output_path model_name progress_callback u) = inr p ->
  let u' := snd (upscale_image' image_path output_path model_name progress_callback u) in
  p = match output_path with
      | Some q => q
      | None => upscaled_path config_output_dir image_path
      end /\
  dirname p <> "" /\
  exists model s1 content img out bytes,
    load_model4 name (mst u) = (inr model, s1) /\
    loaded_model (manager (mst u')) = Some model /\
    current_model_name (manager (mst u')) = Some name /\
    fs (env s1) !! image_path = Some content /\
    decode_image content = inr img /\
    fst (process_image_with_tiling image_processor (forward model) img scale true)
    = inr out /\
    encode_image p out = inr bytes /\
    fs (env (mst u')) = <[p := bytes]> (fs (env s1)) /\
    batch_calls u' = batch_calls u.
Proof.
  intros Hname Hinfo Hne Hscale Hs HT Hdec Hcb.
  pose proof (upscale_image_unfold image_path output_path model_name
                progress_callback u name info Hname Hinfo Hne) as Er.
  cbv zeta in Er. rewrite (tiling_scale_number info scale Hscale) in Er.
  set (r := upscale_image' image_path output_path model_name progress_callback u)
    in *. clearbody r.
  destruct (load_model4 name (mst u)) as [[e|model] s1] eqn:Em;
    [subst r; discriminate|].
  destruct (load_model_returned name (mst u) s1 model Em) as (Hm1 & Hm2).
  destruct (load_image decode_image image_path (env s1)) as [[e|img] w2] eqn:El;
    [subst r; discriminate|].
  destruct (load_image_returned _ _ _ _ El) as (content & Hfile & Hb).
  destruct (Hdec content img Hb) as (H0 & H1 & H2).
  assert (forall v u0,
             fst (call_if_given progress_callback v u0) = inr tt /\
             mst (snd (call_if_given progress_callback v u0)) = mst u0 /\
             batch_calls (snd (call_if_given progress_callback v u0)) = batch_calls u0)
    as Hcall.
  { intros v u0. destruct progress_callback as [cb|]; cbn; [|auto].
    apply (Hcb cb eq_refl). }
  destruct (Hcall 10 (with_mst u s1)) as (Hf3 & Hm3 & Hb3).
  destruct (call_if_given progress_callback 10 (with_mst u s1)) as [[e|[]] u3];
    cbn [fst snd] in *; [discriminate|].
  destruct (fst (process_image_with_tiling image_processor (forward model) img scale true))
    as [e|out] eqn:Erun.
  { destruct (run_tiling_raises model img scale (progress_wrapper progress_callback)
                u3 e Erun) as (e' & u' & Et). rewrite Et in Er. subst r. discriminate. }
  destruct (run_callback_values image_processor (forward model) img scale out
              HT Hs H0 H1 H2 Erun) as (_ & Hrange & _).
  assert (exists u4, run_tiling image_processor forward model img scale
                       (progress_wrapper progress_callback) u3 = (inr out, u4) /\
                     mst u4 = mst u3 /\ batch_calls u4 = batch_calls u3)
    as (u4 & Et & Hm4 & Hb4).
  { unfold run_tiling, bind, try_except, lift_result. cbv zeta. rewrite Erun.
    destruct progress_callback as [cb|].
    - destruct (replay_returns cb _ u3 (Hcb cb eq_refl) Hrange) as (Hf & Hm & Hb').
      cbv zeta in *.
      destruct (replay_callbacks _ _ u3) as [[e|[]] u4]; cbn [fst snd] in *;
        [discriminate|]. eauto.
    - assert (forall evs u0, replay_callbacks (progress_wrapper None) evs u0 = (inr tt, u0))
        as ->; [|eauto].
      induction evs as [|[] evs IH]; intros u0; cbn; auto. }
  rewrite Et in Er. rewrite Hm4, Hm3 in Er. cbn [mst with_mst] in Er.
  destruct (save_image encode_image out _ (env s1)) as [[e|p'] w5] eqn:Es;
    [subst r; discriminate|].
  destruct (save_image_returned _ _ _ _ _ Es) as (-> & Hdir & bytes & Henc & ->).
  match type of Er with context [call_if_given progress_callback 100 ?u5] =>
    destruct (Hcall 100 u5) as (Hf6 & Hm6 & Hb6);
    destruct (call_if_given progress_callback 100 u5) as [[e|[]] u6]
  end; cbn [fst snd] in *; [discriminate|].
  subst r. cbn [fst snd]. intros [= <-]. split; [reflexivity|]. split; [exact Hdir|].
  exists model, s1, content, img, out, bytes. rewrite Hm6. cbn [mst with_mst manager env].
  split; [reflexivity|]. split; [exact Hm1|]. split; [exact Hm2|].
  split; [exact Hfile|]. split; [exact Hb|]. split; [exact Erun|].
  split; [exact Henc|]. split; [reflexivity|].
  rewrite Hb6. cbn. rewrite Hb4, Hb3. reflexivity.
Qed.


Lemma dummy_callback_returns : callback_returns dummy_callback.
Proof. intros v u. cbn. auto. Qed.

Lemma replay_frame (callback : Z -> M ustate unit) (evs : list event) (u : ustate) :
  callback_returns callback ->
  let r := replay_callbacks (progress_wrapper (Some callback)) evs u in
  mst (snd r) = mst u /\ batch_calls (snd r) = batch_calls u.
Proof.
  intros Hcb. revert u. induction evs as [|ev evs IH]; intros u.
  - cbn. auto.
  - destruct ev as [x y|x y e|p]; cbn [replay_callbacks]; try (now apply IH).
    cbv zeta in *.
    set (r := bind _ _ u).
    assert (r = match progress_wrapper (Some callback) p u with
                | (inr _, s') =>
                    replay_callbacks (progress_wrapper (Some callback)) evs s'
                | (inl e, s') => (inl e, s')
                end) as Er by reflexivity.
    clearbody r. unfold progress_wrapper at 1 in Er.
    destruct (adjusted_progress p) as [a|]; [|subst r; cbn; auto].
    destruct (Hcb a u) as (Hf & Hm & Hb).
    destruct (callback a u) as [[e|[]] u1]; cbn [fst snd] in *; [discriminate|].
    subst r. destruct (IH u1) as (Hm1 & Hb1).
    split; [rewrite <- Hm; exact Hm1 | rewrite <- Hb; exact Hb1].
Qed.

Lemma run_tiling_frame (callback : Z -> M ustate unit) (model : torch_model)
  (img : ndarray Z) (scale : Z) (u : ustate) :
  callback_returns callback ->
  let r := run_tiling image_processor forward model img scale
             (progress_wrapper (Some callback)) u in
  mst (snd r) = mst u /\ batch_calls (snd r) = batch_calls u.
Proof.
  intros Hcb r.
  assert (r = match replay_callbacks (progress_wrapper (Some callback))
                      (snd (process_image_with_tiling image_processor (forward model)
                              img scale true)) u with
              | (inr _, u1) =>
                  (fst (process_image_with_tiling image_processor (forward model)
                          img scale true), u1)
              | (inl e, u1) =>
                  (inl (ImageProcessingError "Error processing image with tiling" e), u1)
              end) as Er.
  { subst r. unfold run_tiling, bind, try_except, lift_result, raise. cbv zeta.
    destruct (replay_callbacks _ _ u) as [[e|[]] u1]; reflexivity. }
  clearbody r.
  pose proof (replay_frame callback
                (snd (process_image_with_tiling image_processor (forward model)
                        img scale true)) u Hcb) as H.
  cbv zeta in H.
  destruct (replay_callbacks _ _ u) as [[e|[]] u1]; subst r; cbn [fst snd] in *;
    exact H.
Qed.

(** In batch mode an image changes the manager and the files only. *)
Lemma upscale_image_batch_frame (image_path output_path : string)
  (model_name : option string) (u : ustate) :
  let r := upscale_image' image_path (Some output_path) model_name
             (Some dummy_callback) u in
  batch_calls (snd r) = batch_calls u /\
  (forall p, fst r = inr p -> p = output_path).
Proof.
  intros r.
  destruct (match model_name with Some n => Some n | None => default_model end)
    as [name|] eqn:Hname.
  2:{ subst r. rewrite upscale_image_unknown_model by (rewrite Hname; reflexivity).
      cbn. split; [reflexivity|discriminate]. }
  destruct (truthy_info (available_models !! name)) eqn:Hinfo.
  2:{ subst r. rewrite upscale_image_unknown_model by (rewrite Hname; exact Hinfo).
      cbn. split; [reflexivity|discriminate]. }
  destruct (available_models !! name) as [info|] eqn:Hi; [|discriminate].
  assert (info <> ∅) as Hne.
  { intros ->. cbn in Hinfo. rewrite bool_decide_eq_true_2 in Hinfo by reflexivity.
    discriminate. }
  pose proof (upscale_image_unfold image_path (Some output_path) model_name
                (Some dummy_callback) u name info Hname Hi Hne) as Er.
  cbv zeta in Er. fold r in Er. clearbody r.
  destruct (load_model4 name (mst u)) as [[e|model] s1];
    [subst r; cbn; split; [reflexivity|discriminate]|].
  destruct (load_image decode_image image_path (env s1)) as [[e|img] w2];
    [subst r; cbn; split; [reflexivity|discriminate]|].
  cbn [call_if_given] in Er. unfold dummy_callback, ret in Er. cbv beta iota in Er.
  destruct (tiling_scale info) as [e|scale];
    [subst r; cbn; split; [reflexivity|discriminate]|].
  pose proof (run_tiling_frame dummy_callback model img scale (with_mst u s1)
                dummy_callback_returns) as Hf. cbv zeta in Hf.
  destruct (run_tiling _ _ _ _ _ _ (with_mst u s1)) as [[e|out] u4];
    cbn [fst snd] in Hf; destruct Hf as [Hm4 Hb4];
    [subst r; cbn; split; [exact Hb4|discriminate]|].
  destruct (save_image encode_image out output_path (env (mst u4))) as [[e|p'] w5];
    [subst r; cbn; split; [exact Hb4|discriminate]|].
  unfold ret in Er. subst r. cbn. split; [exact Hb4|]. intros p [= <-]. reflexivity.
Qed.


Lemma batch_loop_cons (dir : string) (model_name : option string)
  (callback : option (Z -> Z -> Z -> M ustate unit)) (n i : Z)
  (image_path : string) (rest acc : list string) (u : ustate) :
  batch_loop' dir model_name callback n i (image_path :: rest) acc u =
  match
    match callback with
    | Some f =>
        match PyFloat.percent i n with
        | Some batch_progress => f batch_progress i n
        | None => raise (Builtin "ArithmeticError")
        end
    | None => ret tt
    end u
  with
  | (inl e, u1) => (inl e, u1)
  | (inr _, u1) =>
      match upscale_image' image_path (Some (upscaled_path dir image_path)) model_name
              (Some dummy_callback) u1 with
      | (inr p, u2) => batch_loop' dir model_name callback n (i + 1) rest (acc ++ [p]) u2
      | (inl _, u2) => batch_loop' dir model_name callback n (i + 1) rest acc u2
      end
  end.
Proof.
  cbn [batch_loop]. unfold bind at 1.
  set (before := match callback with Some _ => _ | None => _ end).
  destruct (before u) as [[e|[]] u1]; [reflexivity|].
  unfold bind at 1, try_except at 1, bind at 1.
  destruct (upscale_image' _ _ _ _ u1) as [[e|p] u2]; reflexivity.
Qed.

Lemma record_batch_progress_eq (progress current total : Z) (u : ustate) :
  record_batch_progress progress current total u
  = (inr tt, {| mst := mst u; progress_calls := progress_calls u;
                batch_calls := batch_calls u ++ [(progress, current, total)] |}).
Proof. reflexivity. Qed.

Lemma batch_loop_spec (dir : string) (model_name : option string) (n : Z)
  (image_paths : list string) (i : Z) (acc : list string) (u : ustate) :
  0 <= i -> i + Z.of_nat (length image_paths) <= n ->
  let trace := batch_trace' dir model_name (Some record_batch_progress) n i image_paths u in
  map fst trace = image_paths /\
  Forall (fun call => forall p, snd call = inr p -> p = upscaled_path dir (fst call)) trace /\
  exists u',
    batch_loop' dir model_name (Some record_batch_progress) n i image_paths acc u
    = (inr (acc ++ returned_paths trace), u') /\
    batch_calls u' = batch_calls u ++ batch_reports n i (length image_paths).
Proof.
  revert i acc u. induction image_paths as [|ip rest IH]; intros i acc u Hi Hn.
  - cbn. split; [reflexivity|]. split; [constructor|].
    exists u. rewrite !app_nil_r. split; reflexivity.
  - cbn [length] in Hn. cbv zeta. rewrite batch_loop_cons. cbn [batch_trace].
    destruct (percent_range i n ltac:(lia) ltac:(lia)) as (bp & Ebp & _).
    rewrite Ebp, !record_batch_progress_eq. cbn [snd].
    match goal with |- context [upscale_image' ip (Some ?op) model_name _ ?u1] =>
      pose proof (upscale_image_batch_frame ip op model_name u1) as Hf;
      cbv zeta in Hf;
      destruct (upscale_image' ip (Some op) model_name (Some dummy_callback) u1)
        as [[e|p] u2]
    end; cbn [fst snd batch_calls] in Hf |- *; destruct Hf as [Hb Hp].
    + destruct (IH (i + 1) acc u2 ltac:(lia) ltac:(lia)) as (Hmap & Hall & u' & -> & Hc).
      cbn [map fst]. split; [now rewrite Hmap|]. split.
      * constructor; [cbn; discriminate|exact Hall].
      * exists u'. split; [reflexivity|].
        rewrite Hc, Hb. cbn [length batch_reports]. rewrite Ebp, <- app_assoc.
        reflexivity.
    + destruct (IH (i + 1) (acc ++ [p]) u2 ltac:(lia) ltac:(lia))
        as (Hmap & Hall & u' & -> & Hc).
      cbn [map fst]. split; [now rewrite Hmap|]. split.
      * constructor; [|exact Hall]. cbn. intros q [= <-]. apply Hp. reflexivity.
      * exists u'. split.
        -- unfold returned_paths. cbn [flat_map snd]. rewrite <- app_assoc. reflexivity.
        -- rewrite Hc, Hb. cbn [length batch_reports]. rewrite Ebp, <- app_assoc.
           reflexivity.
Qed.

Lemma batch_reports_spec (n : Z) (k : nat) (i : Z) :
  0 <= i -> i + Z.of_nat k <= n ->
  map (fun c => (snd (fst c), snd c)) (batch_reports n i k)
  = map (fun j => (i + Z.of_nat j, n)) (seq 0 k) /\
  Forall (fun c => PyFloat.percent (snd (fst c)) n = Some (fst (fst c)) /\
                   0 <= fst (fst c) <= 100) (batch_reports n i k).
Proof.
  revert i. induction k as [|k IH]; intros i Hi Hn.
  - cbn. split; [reflexivity|constructor].
  - cbn [batch_reports].
    destruct (percent_range i n ltac:(lia) ltac:(lia)) as (p & E & Hp). rewrite E.
    destruct (IH (i + 1) ltac:(lia) ltac:(lia)) as (Hidx & Hall).
    cbn [app map seq fst snd]. split.
    + f_equal; [f_equal; lia|]. rewrite Hidx, <- seq_shift, map_map.
      apply map_ext. intros j. f_equal. lia.
    + constructor; [split; assumption|exact Hall].
Qed.

Lemma batch_reports_nondecreasing (n : Z) (k : nat) (i j p0 : Z) :
  0 <= j <= i -> i + Z.of_nat k <= n -> 1 <= n ->
  PyFloat.percent j n = Some p0 ->
  nondecreasing (p0 :: map (fun c => fst (fst c)) (batch_reports n i k) ++ [100]).
Proof.
  revert i j p0. induction k as [|k IH]; intros i j p0 Hj Hn H1 E0.
  - cbn. split; [|exact I].
    destruct (percent_range j n ltac:(lia) ltac:(lia)) as (p & E & Hp).
    rewrite E in E0. injection E0 as <-. lia.
  - cbn [batch_reports].
    destruct (percent_range i n ltac:(lia) ltac:(lia)) as (p & E & Hp). rewrite E.
    cbn [app map fst]. split.
    + apply (percent_mono_from_0 j i n); try lia; assumption.
    + apply (IH (i + 1) i p); try lia. exact E.
Qed.

(** X27. a batch never fails over an image.  With an output directory that
    is not the empty path, [upscale_batch] returns whatever happens to the
    single images.  It calls [upscale_image] once per image, in order, with
    the output path [<dir>/<name>_upscaled<ext>], each call starting in the
    state the one before it left; the list it returns holds exactly the
    paths of the calls that returned, in that order, and nothing for a call
    that raised.  Its callback is called once before every image with
    [(int(i / total * 100), i, total)], the image number counting from 0,
    and once at the end with [(100, total, total)]: values from 0 that
    never decrease.  For an empty list the only call is [(100, 0, 0)]. *)
Theorem upscale_batch_reports (image_paths : list string)
  (output_dir model_name : option string) (u : ustate) :
  let dir := match output_dir with Some d => d | None => config_output_dir end in
  let name := match model_name with Some m => Some m | None => default_model end in
  let n := Z.of_nat (length image_paths) in
  let r := upscale_batch' image_paths output_dir model_name
             (Some record_batch_progress) u in
  let trace := batch_trace' dir name (Some record_batch_progress) n 0 image_paths u in
  dir <> "" ->
  fst r = inr (returned_paths trace) /\
  map fst trace = image_paths /\
  Forall (fun call => forall p, snd call = inr p -> p = upscaled_path dir (fst call))
         trace /\
  exists reports,
    batch_calls (snd r) = batch_calls u ++ reports ++ [(100, n, n)] /\
    map (fun c => (snd (fst c), snd c)) reports
    = map (fun j => (Z.of_nat j, n)) (seq 0 (length image_paths)) /\
    Forall (fun c => PyFloat.percent (snd (fst c)) n = Some (fst (fst c)) /\
                     0 <= fst (fst c) <= 100) reports /\
    nondecreasing (map (fun c => fst (fst c)) reports ++ [100]).
Proof.
  intros dir name n r trace Hdir.
  assert (r = match batch_loop' dir name (Some record_batch_progress) n 0 image_paths [] u
              with
              | (inr paths, u1) =>
                  (inr paths, snd (record_batch_progress 100 n n u1))
              | (inl e, u1) =>
                  (inl (Upscaler UpscalerErrorC "Error in batch upscaling" (Some e)), u1)
              end) as Er.
  { subst r. unfold upscale_batch, decorated, try_except. cbv zeta.
    fold dir. fold name. fold n.
    unfold bind at 1, in_manager at 1, in_world at 1, os_makedirs.
    destruct (String.eqb_spec dir ""); [contradiction|].
    unfold ret at 1. cbn [mst progress_calls batch_calls env manager].
    assert ({| mst := {| manager := manager (mst u); env := env (mst u) |};
               progress_calls := progress_calls u; batch_calls := batch_calls u |} = u)
      as -> by (destruct u as [[] ? ?]; reflexivity).
    unfold bind at 1.
    destruct (batch_loop' _ _ _ _ _ _ _ u) as [[e|paths] u1]; [reflexivity|].
    unfold bind, record_batch_progress, modify, ret. reflexivity. }
  clearbody r.
  destruct (batch_loop_spec dir name n image_paths 0 [] u ltac:(lia) ltac:(lia))
    as (Hmap & Hall & u' & El & Hc).
  fold trace in Hmap, Hall, El.
  rewrite El in Er. subst r. cbn [fst snd app].
  destruct (batch_reports_spec n (length image_paths) 0 ltac:(lia) ltac:(lia))
    as (Hidx & Hrep).
  split; [reflexivity|]. split; [exact Hmap|]. split; [exact Hall|].
  exists (batch_reports n 0 (length image_paths)).
  split; [|split; [|split]].
  - cbn. rewrite Hc, <- app_assoc. reflexivity.
  - rewrite Hidx. apply map_ext. intros j. reflexivity.
  - exact Hrep.
  - destruct image_paths as [|ip rest]; [exact I|].
    assert (1 <= n) as H1 by (subst n; cbn [length]; lia).
    pose proof (batch_reports_nondecreasing n (length (ip :: rest)) 0 0 0
                  ltac:(lia) ltac:(lia) H1 (percent_zero n ltac:(lia))) as Hnd.
    apply Hnd.
Qed.

(** One image against a server that does not answer: the image fails at
    the load, after three requests. *)
Lemma upscale_image_unreachable (image_path : string)
  (output_path model_name : option string)
  (progress_callback : option (Z -> M ustate unit)) (u : ustate)
  (name : string) (info : model_info) (url : string) :
  match model_name with Some n => Some n | None => default_model end = Some name ->
  available_models !! name = Some info -> info <> ∅ ->
  info !! "url" = Some (JStr url) -> url <> "" ->
  loaded_model (manager (mst u)) = None ->
  path_exists (model_file models_dir name) (env (mst u)) = false ->
  (forall i, transport_failure (net url i) = true) ->
  let r := upscale_image' image_path output_path model_name progress_callback u in
  (exists e, fst r = inl e) /\
  manager (mst (snd r)) = manager (mst u) /\
  fs (env (mst (snd r))) = fs (env (mst u)) /\
  gets (env (mst (snd r))) = (gets (env (mst u)) + 3)%nat /\
  sleeps (env (mst (snd r))) = sleeps (env (mst u)) ++ [2; 4] /\
  progress_calls (snd r) = progress_calls u /\
  batch_calls (snd r) = batch_calls u.
Proof.
  intros Hname Hinfo Hne Hurl Hu Hnone Hnew Hfail r.
  assert (r = upscale_image' image_path output_path model_name progress_callback u)
    as Er by reflexivity.
  clearbody r.
  rewrite (upscale_image_unfold _ _ _ _ _ name info Hname Hinfo Hne) in Er.
  pose proof (load_model_unreachable net models_dir available_models unpickle fits
                swinir_importable name (mst u) info url Hnone Hinfo Hne Hurl Hu Hnew
                (fun i _ => Hfail _)) as H.
  cbv zeta in H.
  destruct (load_model4 name (mst u)) as [[e|model] s1];
    cbn [fst snd] in H; destruct H as ((msg & cause & E) & Hm & _ & Hfs & Hg & Hs);
    [|discriminate E].
  subst r. cbn [fst snd with_mst mst progress_calls batch_calls].
  repeat split; try assumption. eexists; reflexivity.
Qed.

Lemma batch_loop_unreachable (dir : string) (model_name : option string) (n : Z)
  (name : string) (info : model_info) (url : string) :
  match model_name with Some m => Some m | None => default_model end = Some name ->
  available_models !! name = Some info -> info <> ∅ ->
  info !! "url" = Some (JStr url) -> url <> "" ->
  (forall i, transport_failure (net url i) = true) ->
  forall (image_paths : list string) (i : Z) (acc : list string) (u : ustate),
  loaded_model (manager (mst u)) = None ->
  path_exists (model_file models_dir name) (env (mst u)) = false ->
  let r := batch_loop' dir model_name None n i image_paths acc u in
  fst r = inr acc /\
  manager (mst (snd r)) = manager (mst u) /\
  fs (env (mst (snd r))) = fs (env (mst u)) /\
  gets (env (mst (snd r))) = (gets (env (mst u)) + 3 * length image_paths)%nat /\
  sleeps (env (mst (snd r)))
  = sleeps (env (mst u)) ++ concat (repeat [2; 4] (length image_paths)) /\
  batch_calls (snd r) = batch_calls u.
Proof.
  intros Hname Hinfo Hne Hurl Hu Hfail.
  induction image_paths as [|ip rest IH]; intros i acc u Hnone Hnew r.
  - subst r. cbn. rewrite app_nil_r, Nat.add_0_r. repeat split.
  - assert (r = batch_loop' dir model_name None n i (ip :: rest) acc u) as Er
      by reflexivity.
    clearbody r. rewrite batch_loop_cons in Er. unfold ret at 1 in Er.
    pose proof (upscale_image_unreachable ip (Some (upscaled_path dir ip)) model_name
                  (Some dummy_callback) u name info url Hname Hinfo Hne Hurl Hu
                  Hnone Hnew Hfail) as H.
    cbv zeta in H.
    destruct (upscale_image' ip (Some (upscaled_path dir ip)) model_name
                (Some dummy_callback) u) as [[e|p] u2];
      cbn [fst snd] in H; destruct H as ((e' & E) & Hm & Hfs & Hg & Hs & _ & Hb);
      [|discriminate E].
    assert (path_exists (model_file models_dir name) (env (mst u2)) = false) as Hnew2.
    { unfold path_exists in Hnew |- *. rewrite Hfs. exact Hnew. }
    specialize (IH (i + 1) acc u2 ltac:(rewrite Hm; exact Hnone) Hnew2).
    cbv zeta in IH. rewrite <- Er in IH.
    destruct IH as (R1 & R2 & R3 & R4 & R5 & R6).
    split; [exact R1|]. split; [congruence|]. split; [congruence|].
    split; [rewrite R4, Hg; cbn [length]; lia|].
    split; [|congruence].
    rewrite R5, Hs. cbn [length repeat concat]. rewrite <- app_assoc. reflexivity.
Qed.

(** X28. a batch whose model cannot be downloaded.  When the model's file is
    missing, no model is loaded and every request to the model's URL fails
    (an exception or a 4xx/5xx answer), [upscale_batch] still returns, with
    the empty list: each image fails on its own, after asking the server
    three times and sleeping 2 and 4 seconds, so a batch of [n] images
    sends [3 * n] requests.  Nothing is written and no model is loaded. *)
Theorem upscale_batch_unreachable (image_paths : list string)
  (output_dir model_name : option string) (u : ustate)
  (name : string) (info : model_info) (url : string) :
  match output_dir with Some d => d | None => config_output_dir end <> "" ->
  match model_name with Some m => Some m | None => default_model end = Some name ->
  available_models !! name = Some info -> info <> ∅ ->
  info !! "url" = Some (JStr url) -> url <> "" ->
  loaded_model (manager (mst u)) = None ->
  path_exists (model_file models_dir name) (env (mst u)) = false ->
  (forall i, transport_failure (net url i) = true) ->
  let r := upscale_batch' image_paths output_dir model_name None u in
  fst r = inr [] /\
  manager (mst (snd r)) = manager (mst u) /\
  fs (env (mst (snd r))) = fs (env (mst u)) /\
  gets (env (mst (snd r))) = (gets (env (mst u)) + 3 * length image_paths)%nat /\
  sleeps (env (mst (snd r)))
  = sleeps (env (mst u)) ++ concat (repeat [2; 4] (length image_paths)).
Proof.
  intros Hdir Hname Hinfo Hne Hurl Hu Hnone Hnew Hfail r.
  set (dir := match output_dir with Some d => d | None => config_output_dir end) in *.
  set (mn := match model_name with Some m => Some m | None => default_model end) in *.
  assert (r = match batch_loop' dir mn None (Z.of_nat (length image_paths)) 0
                      image_paths [] u with
              | (inr paths, u1) => (inr paths, u1)
              | (inl e, u1) =>
                  (inl (Upscaler UpscalerErrorC "Error in batch upscaling" (Some e)), u1)
              end) as Er.
  { subst r. unfold upscale_batch, decorated, try_except. cbv zeta.
    fold dir. fold mn. unfold bind at 1, in_manager at 1, in_world at 1, os_makedirs.
    destruct (String.eqb_spec dir ""); [contradiction|].
    unfold ret at 1. cbn [mst progress_calls batch_calls env manager].
    assert ({| mst := {| manager := manager (mst u); env := env (mst u) |};
               progress_calls := progress_calls u; batch_calls := batch_calls u |} = u)
      as -> by (destruct u as [[] ? ?]; reflexivity).
    unfold bind at 1.
    destruct (batch_loop' _ _ _ _ _ _ _ u) as [[e|paths] u1]; reflexivity. }
  clearbody r.
  assert (match mn with Some m => Some m | None => default_model end = Some name)
    as Hname2 by (rewrite Hname; reflexivity).
  pose proof (batch_loop_unreachable dir mn (Z.of_nat (length image_paths)) name info url
                Hname2 Hinfo Hne Hurl Hu Hfail image_paths 0 [] u Hnone Hnew) as H.
  cbv zeta in H.
  destruct (batch_loop' dir mn None _ 0 image_paths [] u) as [[e|paths] u1];
    cbn [fst snd] in H; destruct H as (R1 & R2 & R3 & R4 & R5 & _);
    [discriminate R1|].
  subst r. cbn [fst snd]. repeat split; assumption.
Qed.

End UpscalerFacts.

(* ===================================================================== *)
(** * Paths of the results *)
(* ===================================================================== *)

Lemma append_cons (a : ascii) (s t : string) :
  (String a s ++ t)%string = String a (s ++ t)%string.
Proof. reflexivity. Qed.

Lemma append_empty (t : string) : (EmptyString ++ t)%string = t.
Proof. reflexivity. Qed.

Lemma contains_char_app (c : ascii) (s t : string) :
  contains_char c (s ++ t)%string = contains_char c s || contains_char c t.
Proof.
  induction s as [|a s IH]; [reflexivity|].
  rewrite append_cons. cbn [contains_char]. rewrite IH. apply orb_assoc.
Qed.

Lemma after_last_sep_no_sep (s : string) :
  contains_char "/" s = false -> after_last_sep s = None.
Proof.
  induction s as [|a s IH]; [reflexivity|].
  cbn [contains_char after_last_sep]. intros H.
  apply orb_false_elim in H as [Ha Hs]. rewrite (IH Hs), Ha. reflexivity.
Qed.

Lemma after_last_sep_app (d name : string) :
  contains_char "/" name = false ->
  after_last_sep (d ++ "/" ++ name)%string = Some name.
Proof.
  intros H. induction d as [|a d IH].
  - rewrite append_empty, append_cons, append_empty. cbn [after_last_sep].
    rewrite (after_last_sep_no_sep name H). reflexivity.
  - rewrite append_cons. cbn [after_last_sep]. rewrite IH. reflexivity.
Qed.

Lemma head_of_no_sep (s : string) : contains_char "/" s = false -> head_of s = "".
Proof.
  intros H. unfold head_of, basename. rewrite (after_last_sep_no_sep s H).
  cbn [default]. rewrite Nat.sub_diag. destruct s; reflexivity.
Qed.

Lemma dirname_no_sep (s : string) : contains_char "/" s = false -> dirname s = "".
Proof. intros H. unfold dirname. rewrite (head_of_no_sep s H). reflexivity. Qed.

Lemma split_last_dot_no_dot (s : string) :
  contains_char "." s = false -> split_last_dot s = None.
Proof.
  induction s as [|a s IH]; [reflexivity|].
  cbn [contains_char split_last_dot]. intros H.
  apply orb_false_elim in H as [Ha Hs]. rewrite (IH Hs), Ha. reflexivity.
Qed.

Lemma split_last_dot_app (stem ext : string) :
  contains_char "." ext = false ->
  split_last_dot (stem ++ "." ++ ext)%string = Some (stem, ("." ++ ext)%string).
Proof.
  intros H. induction stem as [|a stem IH].
  - rewrite append_empty, append_cons, append_empty. cbn [split_last_dot].
    rewrite (split_last_dot_no_dot ext H). reflexivity.
  - rewrite append_cons. cbn [split_last_dot]. rewrite IH. reflexivity.
Qed.

Lemma all_chars_without (c : ascii) (s : string) :
  s <> "" -> contains_char c s = false -> all_chars c s = false.
Proof.
  destruct s as [|a s]; [contradiction|]. cbn [contains_char all_chars].
  intros _ H. apply orb_false_elim in H as [-> _]. reflexivity.
Qed.

Lemma prefix_sep_without (s t : string) :
  s <> "" -> contains_char "/" s = false -> String.prefix "/" (s ++ t)%string = false.
Proof.
  destruct s as [|a s]; [contradiction|]. rewrite append_cons. cbn [contains_char].
  intros _ H. apply orb_false_elim in H as [Ha _]. cbn [String.prefix].
  destruct (ascii_dec "/" a) as [<-|]; [discriminate Ha|reflexivity].
Qed.

(** X29. the name of a result.  For an image [<anywhere>/<stem>.<ext>],
    where neither the stem nor the extension holds a slash or a dot and the
    stem is not empty, the generated output path is
    [<output_dir>/<stem>_upscaled.<ext>]: the directory of the input plays
    no part, so two inputs of the same file name in different directories
    are given the same output path. *)
Theorem upscaled_path_name (output_dir d stem ext : string) :
  output_dir <> "" -> ends_with_sep output_dir = false ->
  stem <> "" ->
  contains_char "/" stem = false -> contains_char "." stem = false ->
  contains_char "/" ext = false -> contains_char "." ext = false ->
  upscaled_path output_dir (d ++ "/" ++ stem ++ "." ++ ext)%string
  = (output_dir ++ "/" ++ stem ++ "_upscaled." ++ ext)%string.
Proof.
  intros Hdir Hend Hstem Hs1 Hs2 He1 He2.
  assert (contains_char "/" (stem ++ "." ++ ext)%string = false) as Hname.
  { rewrite contains_char_app, Hs1, append_cons, append_empty. cbn [contains_char].
    rewrite He1. reflexivity. }
  unfold upscaled_path, splitext.
  assert (basename (d ++ "/" ++ stem ++ "." ++ ext)%string = (stem ++ "." ++ ext)%string)
    as ->.
  { unfold basename. rewrite (after_last_sep_app d _ Hname). reflexivity. }
  assert (basename (stem ++ "." ++ ext)%string = (stem ++ "." ++ ext)%string) as ->.
  { unfold basename. rewrite (after_last_sep_no_sep _ Hname). reflexivity. }
  rewrite (split_last_dot_app stem ext He2), (all_chars_without "." stem Hstem Hs2).
  rewrite (head_of_no_sep _ Hname), append_empty.
  unfold os_path_join.
  rewrite (prefix_sep_without stem _ Hstem Hs1), Hend.
  destruct (String.eqb_spec output_dir ""); [contradiction|]. cbn [orb].
  reflexivity.
Qed.

Section SavingImages.

Variable encode_image : string -> ndarray Z -> exn + list Byte.byte.

(** X30. a result cannot be saved under a bare file name.  When the output
    path holds no slash, its directory part is empty, [os.makedirs] fails
    on it and [save_image] raises an [ImageProcessingError] caused by that
    [FileNotFoundError]: the image is neither encoded nor written. *)
Theorem save_image_without_directory (img : ndarray Z) (output_path : string)
  (w : world) :
  contains_char "/" output_path = false ->
  save_image encode_image img output_path w
  = (inl (ImageProcessingError "Error saving image" (Builtin "FileNotFoundError")), w).
Proof.
  intros H. unfold save_image, decorated, try_except, bind at 1.
  rewrite (dirname_no_sep output_path H). reflexivity.
Qed.

End SavingImages.

(* ===================================================================== *)
(** * The further properties on concrete inputs *)
(* ===================================================================== *)

Lemma percent_below_100_witness : PyFloat.percent 1 6 = Some 16 /\ 0 <= 16 <= 99.
Proof.
  assert (PyFloat.percent 1 6 = Some 16) as H by (vm_compute; reflexivity).
  split; [exact H|].
  apply (percent_below_100 1 6 16); [lia | vm_compute; discriminate | exact H].
Defined.

Lemma postprocess_preprocess_roundtrip_witness :
  is_uint8 (gradient_image 3 5) /\
  array_eq (postprocess_image (preprocess_image (gradient_image 3 5))) (gradient_image 3 5).
Proof.
  assert (is_uint8 (gradient_image 3 5)) as Hu8.
  { intros i j k _. simpl.
    pose proof (Z.mod_pos_bound (i + 2 * j + 5 * k) 256). lia. }
  split; [exact Hu8|].
  apply (postprocess_preprocess_roundtrip (gradient_image 3 5) Hu8).
Defined.

Lemma tiling_output_shape_witness :
  exists out,
    fst (process_image_with_tiling small_processor (nearest_model 2)
           (gradient_image 2 3) 2 false) = inr out /\
    shape out = (4, 6, 3).
Proof.
  destruct (fst (process_image_with_tiling small_processor (nearest_model 2)
                   (gradient_image 2 3) 2 false)) as [e|out] eqn:E.
  - discriminate E.
  - exists out. split; [reflexivity|].
    apply (tiling_output_shape small_processor (nearest_model 2) (gradient_image 2 3)
             2 false out E).
Defined.

Lemma empty_image_is_not_processed_witness :
  process_image_with_tiling small_processor identity_model (gradient_image 0 5) 1 true
  = (inr (blank_canvas (gradient_image 0 5) 1), []).
Proof.
  apply (empty_image_is_not_processed small_processor identity_model
           (gradient_image 0 5) 1 true); simpl; lia.
Defined.

Lemma nonpositive_tile_size_witness :
  process_image_with_tiling zero_tile_processor identity_model (gradient_image 3 5) 1 true
  = (inl (ImageProcessingError "Error processing image with tiling"
            (Builtin "ZeroDivisionError")), []).
Proof.
  destruct (nonpositive_tile_size zero_tile_processor identity_model
              (gradient_image 3 5) 1 true) as [H _]; [lia | simpl; lia..|].
  apply H. reflexivity.
Defined.

Lemma negative_scale_is_rejected_witness :
  process_image_with_tiling small_processor identity_model (gradient_image 3 5) (-1) true
  = (inl (ImageProcessingError "Error processing image with tiling"
            (Builtin "ValueError")), []).
Proof.
  apply (negative_scale_is_rejected small_processor identity_model
           (gradient_image 3 5) (-1) true); [lia | left; simpl; lia].
Defined.

Lemma tiles_visited_in_row_major_order_witness :
  nth_error (tiles_started (snd scenario_600x400)) 4 = Some (256, 256).
Proof.
  destruct (tiles_visited_in_row_major_order scenario_processor (nearest_model 2)
              (gradient_image 400 600) 2 true) as [_ H];
    [simpl; lia | lia | simpl; lia | simpl; lia | simpl; lia | |].
  - intros e He. discriminate He.
  - apply (H 4). vm_compute. split; [discriminate|reflexivity].
Defined.

Lemma output_pixel_provenance_witness :
  exists out,
    fst (process_image_with_tiling small_processor (nearest_model 2)
           (gradient_image 2 3) 2 false) = inr out /\
    item out 3 5 0 = 5.
Proof.
  destruct (fst (process_image_with_tiling small_processor (nearest_model 2)
                   (gradient_image 2 3) 2 false)) as [e|out] eqn:E.
  - discriminate E.
  - exists out. split; [reflexivity|].
    rewrite (output_pixel_provenance small_processor (nearest_model 2)
               (gradient_image 2 3) 2 ltac:(simpl; lia) ltac:(simpl; lia) ltac:(lia)
               ltac:(intros t t' [= <-]; repeat split)
               false out 3 5 0 E ltac:(simpl; lia) ltac:(simpl; lia) ltac:(simpl; lia)).
    vm_compute. reflexivity.
Defined.

Lemma download_stores_the_body_witness :
  fs (snd (download_model serves_file "models" "realesrgan-x4plus"
             "https://example.org/realesrgan.pth" false fresh_world))
  !! "models/realesrgan-x4plus.pth" = Some [Byte.x01; Byte.x02; Byte.x03].
Proof.
  destruct (download_stores_the_body serves_file "models" "realesrgan-x4plus"
              "https://example.org/realesrgan.pth" false fresh_world
              "models/realesrgan-x4plus.pth")
    as (_ & resp & n & Hn & _ & Hnet & _ & _ & _ & _ & Hfs);
    [vm_compute; reflexivity | vm_compute; reflexivity |].
  rewrite Hfs, lookup_insert_eq. injection Hnet as <-. reflexivity.
Defined.

Lemma download_again_uses_no_network_witness :
  let w1 := snd (download_model serves_file "models" "realesrgan-x4plus"
                   "https://example.org/realesrgan.pth" false fresh_world) in
  let r := download_model serves_file "models" "realesrgan-x4plus"
             "https://example.org/realesrgan.pth" true w1 in
  fst r = inr "models/realesrgan-x4plus.pth" /\ gets (snd r) = gets w1 /\
  sleeps (snd r) = sleeps w1 /\ fs (snd r) = fs w1.
Proof.
  apply (download_again_uses_no_network serves_file "models" "realesrgan-x4plus"
           "https://example.org/realesrgan.pth" false true fresh_world
           "models/realesrgan-x4plus.pth").
  vm_compute. reflexivity.
Defined.

Lemma stream_failure_is_not_retried_witness :
  let r := download_model breaks_off "models" "realesrgan-x4plus"
             "https://example.org/realesrgan.pth" false fresh_world in
  fst r = inl (NetworkError "Connection error downloading model"
                 (Requests ConnectionErrorC)) /\
  gets (snd r) = 1%nat /\ sleeps (snd r) = [] /\
  fs (snd r) !! "models/realesrgan-x4plus.pth" = None.
Proof.
  destruct (stream_failure_is_not_retried breaks_off "models" "realesrgan-x4plus"
              "https://example.org/realesrgan.pth" false fresh_world
              {| status_code := 200; content_length := None; chunks := two_chunks;
                 stream_error := Some ConnectionErrorC |} ConnectionErrorC)
    as (_ & Hcause & Hg & Hs & Hf & _);
    [vm_compute; reflexivity | reflexivity | reflexivity | reflexivity |].
  cbv zeta. split; [exact (Hcause eq_refl)|]. split; [exact Hg|].
  split; [exact Hs|exact Hf].
Defined.

Lemma download_reports_progress_witness :
  map snd (reported (snd (download_model serves_file_with_length "models"
                            "realesrgan-x4plus" "https://example.org/realesrgan.pth"
                            true fresh_world)))
  = [66; 100; 100].
Proof.
  destruct (download_reports_progress serves_file_with_length "models" "realesrgan-x4plus"
              "https://example.org/realesrgan.pth" fresh_world
              {| status_code := 200; content_length := Some 3; chunks := two_chunks;
                 stream_error := None |} 3)
    as (_ & ps & Hr & Hps & _);
    [vm_compute; reflexivity | reflexivity | reflexivity | reflexivity | reflexivity
    | lia | vm_compute; discriminate |].
  rewrite Hr. cbn [reported fresh_world app]. rewrite map_map. cbn [snd]. rewrite map_id.
  cbn in Hps.
  inversion Hps as [|k1 p1 ks1 ps1 E1 Hps1]; subst.
  inversion Hps1 as [|k2 p2 ks2 ps2 E2 Hps2]; subst.
  inversion Hps2; subst.
  vm_compute in E1. vm_compute in E2. injection E1 as <-. injection E2 as <-.
  reflexivity.
Defined.

Lemma download_without_length_reports_once_witness :
  reported (snd (download_model serves_file "models" "realesrgan-x4plus"
                   "https://example.org/realesrgan.pth" true fresh_world))
  = [("realesrgan-x4plus", 100)].
Proof.
  destruct (download_without_length_reports_once serves_file "models" "realesrgan-x4plus"
              "https://example.org/realesrgan.pth" fresh_world
              {| status_code := 200; content_length := None; chunks := two_chunks;
                 stream_error := None |})
    as (_ & Hr & _);
    [vm_compute; reflexivity | reflexivity | reflexivity | reflexivity
    | vm_compute; discriminate |].
  exact Hr.
Defined.

Lemma realesrgan_config_entry :
  realesrgan_config !! "realesrgan-x4plus"
  = Some {[ "scale" := JNum 4; "url" := JStr "https://example.org/realesrgan.pth" ]}.
Proof. vm_compute. reflexivity. Qed.

Lemma realesrgan_info_not_empty :
  ({[ "scale" := JNum 4; "url" := JStr "https://example.org/realesrgan.pth" ]}
     : model_info) <> ∅.
Proof.
  intros H. apply (f_equal (fun m : model_info => m !! "scale")) in H.
  vm_compute in H. discriminate H.
Qed.

Lemma realesrgan_load_outcome_witness :
  load_model no_network "models" realesrgan_config (fun _ => inr both_sets)
    (fun _ _ => true) true "realesrgan-x4plus" (disk_with "models/realesrgan-x4plus.pth")
  = (inr {| arch := RRDBNet 23 (JNum 4); params := ema_set |},
     {| manager := {| loaded_model := Some {| arch := RRDBNet 23 (JNum 4); params := ema_set |};
                      current_model_name := Some "realesrgan-x4plus" |};
        env := with_events (env (disk_with "models/realesrgan-x4plus.pth"))
                 (load_events "realesrgan-x4plus" (RRDBNet 23 (JNum 4))
                    "models/realesrgan-x4plus.pth" "params_ema") |}).
Proof.
  rewrite (realesrgan_load_outcome no_network "models" realesrgan_config
             (fun _ => inr both_sets) (fun _ _ => true) true "realesrgan-x4plus"
             (disk_with "models/realesrgan-x4plus.pth") _ (JNum 4) [] both_sets eq_refl
             realesrgan_config_entry realesrgan_info_not_empty);
    [|vm_compute; reflexivity..].
  vm_compute. reflexivity.
Defined.

Lemma swinir_config_entry :
  swinir_config !! "swinir-large"
  = Some {[ "scale" := JNum 4; "url" := JStr "https://example.org/swinir.pth" ]}.
Proof. vm_compute. reflexivity. Qed.

Lemma swinir_info_not_empty :
  ({[ "scale" := JNum 4; "url" := JStr "https://example.org/swinir.pth" ]}
     : model_info) <> ∅.
Proof.
  intros H. apply (f_equal (fun m : model_info => m !! "scale")) in H.
  vm_compute in H. discriminate H.
Qed.

Lemma other_config_entry :
  other_config !! "waifu2x"
  = Some {[ "scale" := JNum 2; "url" := JStr "https://example.org/waifu2x.pth" ]}.
Proof. vm_compute. reflexivity. Qed.

Lemma other_info_not_empty :
  ({[ "scale" := JNum 2; "url" := JStr "https://example.org/waifu2x.pth" ]}
     : model_info) <> ∅.
Proof.
  intros H. apply (f_equal (fun m : model_info => m !! "scale")) in H.
  vm_compute in H. discriminate H.
Qed.

Lemma swinir_needs_its_module_witness :
  load_model no_network "models" swinir_config (fun _ => inr both_sets)
    (fun _ _ => true) false "swinir-large" (disk_with "models/swinir-large.pth")
  = (inl (ModelError "Error loading model"
            (Some (ModelError "SwinIR model requires additional dependencies"
                     (Some (Builtin "ImportError"))))),
     disk_with "models/swinir-large.pth").
Proof.
  apply (swinir_needs_its_module no_network "models" swinir_config
           (fun _ => inr both_sets) (fun _ _ => true) false "swinir-large"
           (disk_with "models/swinir-large.pth") _ eq_refl eq_refl
           swinir_config_entry swinir_info_not_empty);
    vm_compute; reflexivity.
Defined.

Lemma unsupported_model_type_witness :
  load_model no_network "models" other_config (fun _ => inr both_sets)
    (fun _ _ => true) true "waifu2x" (disk_with "models/waifu2x.pth")
  = (inl (ModelError "Error loading model"
            (Some (ModelError "Unsupported model type" None))),
     disk_with "models/waifu2x.pth").
Proof.
  apply (unsupported_model_type no_network "models" other_config
           (fun _ => inr both_sets) (fun _ _ => true) true "waifu2x"
           (disk_with "models/waifu2x.pth") _ eq_refl
           other_config_entry other_info_not_empty);
    vm_compute; reflexivity.
Defined.

Lemma unknown_model_is_rejected_witness :
  let s := holding "realesrgan-x4plus" {| arch := RRDBNet 23 (JNum 4); params := ema_set |}
             (disk_with "models/realesrgan-x4plus.pth") in
  let r := load_model no_network "models" realesrgan_config (fun _ => inr both_sets)
             (fun _ _ => true) true "esrgan" s in
  fst r = inl (ModelError "Unknown model" None) /\
  manager (snd r) = {| loaded_model := None; current_model_name := None |} /\
  env (snd r) = with_events (env s) [Released (Some "realesrgan-x4plus")].
Proof.
  apply (unknown_model_is_rejected no_network "models" realesrgan_config
           (fun _ => inr both_sets) (fun _ _ => true) true "esrgan"
           (holding "realesrgan-x4plus" {| arch := RRDBNet 23 (JNum 4); params := ema_set |}
              (disk_with "models/realesrgan-x4plus.pth")));
    [vm_compute; reflexivity | discriminate].
Defined.

Lemma load_model_failure_witness :
  let r := load_model no_network "models" realesrgan_config (fun _ => inr both_sets)
             (fun _ _ => true) true "esrgan"
             (holding "realesrgan-x4plus" {| arch := RRDBNet 23 (JNum 4); params := ema_set |}
                (disk_with "models/realesrgan-x4plus.pth")) in
  (exists msg cause, ModelError "Unknown model" None = ModelError msg cause) /\
  loaded_model (manager (snd r)) = None.
Proof.
  apply (load_model_failure no_network "models" realesrgan_config
           (fun _ => inr both_sets) (fun _ _ => true) true "esrgan"
           (holding "realesrgan-x4plus" {| arch := RRDBNet 23 (JNum 4); params := ema_set |}
              (disk_with "models/realesrgan-x4plus.pth"))
           (ModelError "Unknown model" None)).
  vm_compute. reflexivity.
Defined.

Lemma load_model_downloads_missing_file_witness :
  fst (load_model serves_file "models" realesrgan_config (fun _ => inr both_sets)
         (fun _ _ => true) true "realesrgan-x4plus" fresh_state)
  = inr {| arch := RRDBNet 23 (JNum 4); params := ema_set |}.
Proof.
  rewrite (load_model_downloads_missing_file serves_file "models" realesrgan_config
             (fun _ => inr both_sets) (fun _ _ => true) true "realesrgan-x4plus"
             fresh_state _ "https://example.org/realesrgan.pth" (JNum 4)
             {| status_code := 200; content_length := None; chunks := two_chunks;
                stream_error := None |} both_sets ema_set eq_refl
             realesrgan_config_entry realesrgan_info_not_empty);
    [reflexivity | vm_compute; reflexivity | discriminate | vm_compute; reflexivity..].
Defined.

Lemma load_model_download_failure_witness :
  let r := load_model always_503 "models" realesrgan_config (fun _ => inr both_sets)
             (fun _ _ => true) true "realesrgan-x4plus" fresh_state in
  (exists msg cause,
     fst r = inl (ModelError "Failed to download model" (Some (NetworkError msg cause)))) /\
  gets (env (snd r)) = 3%nat /\ torch_events (env (snd r)) = [].
Proof.
  destruct (load_model_download_failure always_503 "models" realesrgan_config
              (fun _ => inr both_sets) (fun _ _ => true) true "realesrgan-x4plus"
              fresh_state _ "https://example.org/realesrgan.pth" eq_refl
              realesrgan_config_entry realesrgan_info_not_empty)
    as (He & _ & Ht & _ & Hg & _);
    [vm_compute; reflexivity | discriminate | vm_compute; reflexivity
    | intros i _; reflexivity |].
  cbv zeta. split; [exact He|]. split; [exact Hg | exact Ht].
Defined.

Lemma adjusted_progress_spec_witness :
  adjusted_progress 50 = Some (10 + 4 * 50 / 5) /\
  10 <= 10 + 4 * 50 / 5 <= 90 /\
  forall q, 50 <= q <= 100 -> 10 + 4 * 50 / 5 <= 10 + 4 * q / 5.
Proof. apply (adjusted_progress_spec 50). lia. Defined.

Lemma upscale_image_unknown_model_witness :
  upscale_image no_network "models" realesrgan_config (fun _ => inr both_sets)
    (fun _ _ => true) true (Some "realesrgan-x4plus") "output" small_processor
    decode_gradient encode_rows (fun _ => nearest_model 4)
    "in/photo.png" None (Some "esrgan") None studio_state
  = (inl (Upscaler UpscalerErrorC "Error upscaling image"
            (Some (Upscaler UpscalerErrorC "Unknown model" None))), studio_state).
Proof.
  apply (upscale_image_unknown_model no_network "models" realesrgan_config
           (fun _ => inr both_sets) (fun _ _ => true) true (Some "realesrgan-x4plus")
           "output" small_processor decode_gradient encode_rows
           (fun _ => nearest_model 4) "in/photo.png" None (Some "esrgan") None
           studio_state).
  vm_compute. reflexivity.
Defined.

Lemma decode_gradient_dims (bytes : list Byte.byte) (img : ndarray Z) :
  decode_gradient bytes = inr img -> 0 <= dim0 img /\ 0 <= dim1 img /\ 0 <= dim2 img.
Proof.
  destruct bytes; [discriminate|]. intros H. injection H as <-. cbn. lia.
Qed.

Lemma record_progress_returns : callback_returns record_progress.
Proof. intros v u. cbn. auto. Qed.

Lemma studio_run_returns :
  fst (upscale_image no_network "models" realesrgan_config (fun _ => inr both_sets)
         (fun _ _ => true) true (Some "realesrgan-x4plus") "output" small_processor
         decode_gradient encode_rows (fun _ => nearest_model 4)
         "in/photo.png" None None (Some record_progress) studio_state)
  = inr "output/photo_upscaled.png".
Proof. vm_compute. reflexivity. Qed.

Lemma upscale_image_reports_progress_witness :
  exists model s1 content img tile_values,
    load_model no_network "models" realesrgan_config (fun _ => inr both_sets)
      (fun _ _ => true) true "realesrgan-x4plus" (mst studio_state) = (inr model, s1) /\
    fs (env s1) !! "in/photo.png" = Some content /\
    decode_gradient content = inr img /\
    progress_calls
      (snd (upscale_image no_network "models" realesrgan_config (fun _ => inr both_sets)
              (fun _ _ => true) true (Some "realesrgan-x4plus") "output" small_processor
              decode_gradient encode_rows (fun _ => nearest_model 4)
              "in/photo.png" None None (Some record_progress) studio_state))
    = progress_calls studio_state
      ++ 10 :: map (fun v => 10 + 4 * v / 5) tile_values ++ [100] /\
    Z.of_nat (length tile_values) = total_tiles_of small_processor img /\
    (forall k, (k < length tile_values)%nat ->
               nth_error tile_values k
               = PyFloat.percent (Z.of_nat k + 1) (total_tiles_of small_processor img)) /\
    Forall (fun v => 0 <= v <= 100) tile_values /\
    nondecreasing (10 :: map (fun v => 10 + 4 * v / 5) tile_values ++ [100]).
Proof.
  apply (upscale_image_reports_progress no_network "models" realesrgan_config
           (fun _ => inr both_sets) (fun _ _ => true) true (Some "realesrgan-x4plus")
           "output" small_processor decode_gradient encode_rows
           (fun _ => nearest_model 4) "in/photo.png" None None studio_state
           "realesrgan-x4plus" _ 4 "output/photo_upscaled.png" eq_refl
           realesrgan_config_entry realesrgan_info_not_empty);
    [vm_compute; reflexivity | lia | cbn; lia | exact decode_gradient_dims
    | exact studio_run_returns].
Defined.

Lemma upscale_image_writes_result_witness :
  let u' := snd (upscale_image no_network "models" realesrgan_config
                   (fun _ => inr both_sets) (fun _ _ => true) true
                   (Some "realesrgan-x4plus") "output" small_processor
                   decode_gradient encode_rows (fun _ => nearest_model 4)
                   "in/photo.png" None None (Some record_progress) studio_state) in
  "output/photo_upscaled.png" = upscaled_path "output" "in/photo.png" /\
  dirname "output/photo_upscaled.png" <> "" /\
  exists model s1 content img out bytes,
    load_model no_network "models" realesrgan_config (fun _ => inr both_sets)
      (fun _ _ => true) true "realesrgan-x4plus" (mst studio_state) = (inr model, s1) /\
    loaded_model (manager (mst u')) = Some model /\
    current_model_name (manager (mst u')) = Some "realesrgan-x4plus" /\
    fs (env s1) !! "in/photo.png" = Some content /\
    decode_gradient content = inr img /\
    fst (process_image_with_tiling small_processor (nearest_model 4) img 4 true)
    = inr out /\
    encode_rows "output/photo_upscaled.png" out = inr bytes /\
    fs (env (mst u')) = <["output/photo_upscaled.png" := bytes]> (fs (env s1)) /\
    batch_calls u' = batch_calls studio_state.
Proof.
  apply (upscale_image_writes_result no_network "models" realesrgan_config
           (fun _ => inr both_sets) (fun _ _ => true) true (Some "realesrgan-x4plus")
           "output" small_processor decode_gradient encode_rows
           (fun _ => nearest_model 4) "in/photo.png" None None (Some record_progress)
           studio_state "realesrgan-x4plus" _ 4 "output/photo_upscaled.png" eq_refl
           realesrgan_config_entry realesrgan_info_not_empty);
    [vm_compute; reflexivity | lia | cbn; lia | exact decode_gradient_dims
    | intros callback H; injection H as <-; exact record_progress_returns
    | exact studio_run_returns].
Defined.

Lemma upscale_batch_reports_witness :
  let image_paths := ["in/photo.png"; "in/missing.png"] in
  let r := upscale_batch no_network "models" realesrgan_config (fun _ => inr both_sets)
             (fun _ _ => true) true (Some "realesrgan-x4plus") "output" small_processor
             decode_gradient encode_rows (fun _ => nearest_model 4)
             image_paths (Some "batch") None (Some record_batch_progress) studio_state in
  let trace := batch_trace no_network "models" realesrgan_config (fun _ => inr both_sets)
                 (fun _ _ => true) true (Some "realesrgan-x4plus") "output"
                 small_processor decode_gradient encode_rows (fun _ => nearest_model 4)
                 "batch" (Some "realesrgan-x4plus") (Some record_batch_progress) 2 0
                 image_paths studio_state in
  fst r = inr (returned_paths trace) /\
  map fst trace = image_paths /\
  Forall (fun call => forall p, snd call = inr p -> p = upscaled_path "batch" (fst call))
         trace /\
  exists reports,
    batch_calls (snd r) = batch_calls studio_state ++ reports ++ [(100, 2, 2)] /\
    map (fun c => (snd (fst c), snd c)) reports
    = map (fun j => (Z.of_nat j, 2)) (seq 0 2) /\
    Forall (fun c => PyFloat.percent (snd (fst c)) 2 = Some (fst (fst c)) /\
                     0 <= fst (fst c) <= 100) reports /\
    nondecreasing (map (fun c => fst (fst c)) reports ++ [100]).
Proof.
  apply (upscale_batch_reports no_network "models" realesrgan_config
           (fun _ => inr both_sets) (fun _ _ => true) true (Some "realesrgan-x4plus")
           "output" small_processor decode_gradient encode_rows
           (fun _ => nearest_model 4) ["in/photo.png"; "in/missing.png"]
           (Some "batch") None studio_state).
  discriminate.
Defined.

(** The batch of the example returns the one image that is there. *)
Lemma studio_batch_returns :
  returned_paths
    (batch_trace no_network "models" realesrgan_config (fun _ => inr both_sets)
       (fun _ _ => true) true (Some "realesrgan-x4plus") "output"
       small_processor decode_gradient encode_rows (fun _ => nearest_model 4)
       "batch" (Some "realesrgan-x4plus") (Some record_batch_progress) 2 0
       ["in/photo.png"; "in/missing.png"] studio_state)
  = ["batch/photo_upscaled.png"].
Proof. vm_compute. reflexivity. Qed.

Lemma upscale_batch_unreachable_witness :
  let r := upscale_batch always_503 "models" realesrgan_config (fun _ => inr both_sets)
             (fun _ _ => true) true (Some "realesrgan-x4plus") "output" small_processor
             decode_gradient encode_rows (fun _ => nearest_model 4)
             ["a.png"; "b.png"] None None None offline_state in
  fst r = inr [] /\
  manager (mst (snd r)) = manager (mst offline_state) /\
  fs (env (mst (snd r))) = fs (env (mst offline_state)) /\
  gets (env (mst (snd r))) = (gets (env (mst offline_state)) + 3 * 2)%nat /\
  sleeps (env (mst (snd r)))
  = sleeps (env (mst offline_state)) ++ concat (repeat [2; 4] 2).
Proof.
  eapply (upscale_batch_unreachable always_503 "models" realesrgan_config
           (fun _ => inr both_sets) (fun _ _ => true) true (Some "realesrgan-x4plus")
           "output" small_processor decode_gradient encode_rows
           (fun _ => nearest_model 4) ["a.png"; "b.png"] None None offline_state
           "realesrgan-x4plus" _ "https://example.org/realesrgan.pth");
    [discriminate | reflexivity | exact realesrgan_config_entry
    | exact realesrgan_info_not_empty | vm_compute; reflexivity | discriminate
    | reflexivity | vm_compute; reflexivity | intros i; reflexivity].
Defined.

Lemma upscaled_path_name_witness :
  upscaled_path "output" ("holiday/2024" ++ "/" ++ "beach" ++ "." ++ "png")%string
  = ("output" ++ "/" ++ "beach" ++ "_upscaled." ++ "png")%string.
Proof.
  apply (upscaled_path_name "output" "holiday/2024" "beach" "png");
    solve [discriminate | reflexivity].
Defined.

Lemma save_image_without_directory_witness :
  save_image encode_rows (gradient_image 2 3) "out.png" fresh_world
  = (inl (ImageProcessingError "Error saving image" (Builtin "FileNotFoundError")),
     fresh_world).
Proof.
  apply (save_image_without_directory encode_rows (gradient_image 2 3) "out.png"
           fresh_world).
  reflexivity.
Defined.
